(** * Karakeep unarchived-bookmark counter: a shallow embedding of content.js

    The content script [KarakeepBookmarkCounter] scans the host page's
    sidebar for list links, recounts the unarchived bookmark cards of every
    list (from the live page for the list being viewed, from a fetched page
    otherwise) and patches the count badges in place.

    The embedding follows the script function by function:
    - JavaScript strings are [string]s whose characters are read as code
      units in the Latin-1 range ([length] is [String.prototype.length]);
    - JavaScript integers are [Z];
    - the DOM is a tree of [Node]s; every element carries the identity
      [uid] of its node object, which is what a live reference held by the
      script denotes;
    - [null] / [undefined] are [None];
    - promises are [Completion]s (fulfilled, rejected, or pending for
      ever); an async function is split at its [await] into the part that
      runs when it is called and the continuation that runs when the
      awaited promise settles, so that a run starts every update before
      any of them writes, and the continuations then run one at a time in
      the order in which the promises settle;
    - the clock, the network and [getComputedStyle] are inputs;
    - console logging is diagnostic only and is not modelled. *)

From Stdlib Require Import ZArith QArith Bool List Ascii String Lia Permutation.
From Stdlib Require Import Numbers.DecimalString.
From Stdlib Require Numbers.DecimalPos.
From stdpp Require Import base gmap strings.
Import ListNotations.

Open Scope bool_scope.
Open Scope string_scope.
Open Scope list_scope.
Open Scope Z_scope.

Set Warnings "-register-all".

(* ===================================================================== *)
(** ** JavaScript string primitives used by the script                    *)
(* ===================================================================== *)

Module JS.

(** White space and line terminators stripped by [String.prototype.trim]
    that lie in the Latin-1 range: TAB, LF, VT, FF, CR, SP and NBSP. *)
Definition isWhiteSpace (c : ascii) : bool :=
  let n := nat_of_ascii c in
  (n =? 9)%nat || (n =? 10)%nat || (n =? 11)%nat || (n =? 12)%nat ||
  (n =? 13)%nat || (n =? 32)%nat || (n =? 160)%nat.

Fixpoint trimStart (s : string) : string :=
  match s with
  | EmptyString => EmptyString
  | String c s' => if isWhiteSpace c then trimStart s' else s
  end.

Fixpoint trimEnd (s : string) : string :=
  match s with
  | EmptyString => EmptyString
  | String c s' =>
      match trimEnd s' with
      | EmptyString => if isWhiteSpace c then EmptyString else String c EmptyString
      | r => String c r
      end
  end.

(** [s.trim()] *)
Definition trim (s : string) : string := trimEnd (trimStart s).

(** Lower-casing of one Latin-1 code unit: A-Z and the accented capitals
    U+00C0-U+00DE (except the multiplication sign U+00D7) move up by 32. *)
Definition lowerChar (c : ascii) : ascii :=
  let n := nat_of_ascii c in
  if ((65 <=? n)%nat && (n <=? 90)%nat)
     || ((192 <=? n)%nat && (n <=? 222)%nat && negb (n =? 215)%nat)
  then ascii_of_nat (n + 32) else c.

(** [s.toLowerCase()] *)
Fixpoint toLowerCase (s : string) : string :=
  match s with
  | EmptyString => EmptyString
  | String c s' => String (lowerChar c) (toLowerCase s')
  end.

(** [hay.startsWith(needle)] *)
Definition startsWith (needle hay : string) : bool := String.prefix needle hay.

(** [hay.includes(needle)] *)
Fixpoint includes (needle hay : string) : bool :=
  startsWith needle hay ||
  match hay with
  | EmptyString => false
  | String _ hay' => includes needle hay'
  end.

(** Removal of the first [n] code units. *)
Fixpoint dropChars (n : nat) (s : string) : string :=
  match n, s with
  | O, _ => s
  | S _, EmptyString => EmptyString
  | S n', String _ s' => dropChars n' s'
  end.

(** The first occurrence of [sep] in [s]: the text before it and the text
    after it. *)
Fixpoint cutAtFirst (sep s : string) : option (string * string) :=
  if startsWith sep s then Some (EmptyString, dropChars (String.length sep) s)
  else match s with
       | EmptyString => None
       | String c s' =>
           match cutAtFirst sep s' with
           | Some (before, after) => Some (String c before, after)
           | None => None
           end
       end.

(** [s.split(sep)] for a non-empty separator: cut at every occurrence,
    scanning from the left.  The fuel bounds the number of cuts; each cut
    consumes at least one code unit, so [S (length s)] always suffices. *)
Fixpoint splitFuel (fuel : nat) (sep s : string) : list string :=
  match fuel with
  | O => [s]
  | S fuel' =>
      match cutAtFirst sep s with
      | None => [s]
      | Some (before, after) => before :: splitFuel fuel' sep after
      end
  end.

Definition split (sep s : string) : list string :=
  splitFuel (S (String.length s)) sep s.

(** Value of a digit in the given radix, if the code unit is one. *)
Definition digitValue (radix : Z) (c : ascii) : option Z :=
  let n := Z.of_nat (nat_of_ascii c) in
  let v := if (48 <=? n) && (n <=? 57) then Some (n - 48)
           else if (97 <=? n) && (n <=? 122) then Some (n - 87)
           else if (65 <=? n) && (n <=? 90) then Some (n - 55)
           else None in
  match v with
  | Some d => if d <? radix then Some d else None
  | None => None
  end.

(** The longest prefix of digits, accumulated left to right; [None] when
    there is no digit at all. *)
Fixpoint parseDigits (radix : Z) (acc : option Z) (s : string) : option Z :=
  match s with
  | EmptyString => acc
  | String c s' =>
      match digitValue radix c with
      | Some d =>
          parseDigits radix
            (Some (radix * (match acc with Some a => a | None => 0 end) + d)) s'
      | None => acc
      end
  end.

(** [parseInt(s)] without a radix argument: leading white space, an
    optional sign, an optional [0x] / [0X] prefix selecting radix 16, then
    the longest run of digits.  [None] is [NaN].  The result is exact; the
    rounding that JavaScript applies above 2^53 is outside the model. *)
Definition parseInt (s : string) : option Z :=
  let s1 := trimStart s in
  let '(sign, s2) :=
    match s1 with
    | String "-" r => (-1, r)
    | String "+" r => (1, r)
    | _ => (1, s1)
    end in
  let '(radix, s3) :=
    match s2 with
    | String "0" (String "x" r) => (16, r)
    | String "0" (String "X" r) => (16, r)
    | _ => (10, s2)
    end in
  match parseDigits radix None s3 with
  | Some v => Some (sign * v)
  | None => None
  end.

(** [x || 0] on the result of [parseInt]: [NaN] and [0] are both falsy. *)
Definition orZero (x : option Z) : Z :=
  match x with
  | Some v => v
  | None => 0
  end.

(** [n.toString()] for an integer. *)
Definition toString (n : Z) : string :=
  NilZero.string_of_int (Z.to_int n).

End JS.

(* ===================================================================== *)
(** ** The DOM                                                            *)
(* ===================================================================== *)

(** A node is a text node or an element.  [uid] is the identity of the
    element's node object: two references denote the same element exactly
    when they carry the same [uid]. *)
Inductive Node : Type :=
| TextNode (data : string)
| Element (uid : nat) (tag : string) (attrs : list (string * string))
          (children : list Node).

(** A document is the sequence of children of its document node. *)
Definition Document : Type := list Node.

Module DOM.

Definition isElement (n : Node) : bool :=
  match n with
  | TextNode _ => false
  | Element _ _ _ _ => true
  end.

Definition uidOf (n : Node) : option nat :=
  match n with
  | TextNode _ => None
  | Element u _ _ _ => Some u
  end.

Definition tagOf (n : Node) : string :=
  match n with
  | TextNode _ => "#text"
  | Element _ t _ _ => t
  end.

Definition childrenOf (n : Node) : list Node :=
  match n with
  | TextNode _ => []
  | Element _ _ _ cs => cs
  end.

(** [node.textContent]: the concatenated data of all text descendants. *)
Fixpoint textContent (n : Node) : string :=
  match n with
  | TextNode d => d
  | Element _ _ _ cs =>
      (fix concat (l : list Node) : string :=
         match l with
         | [] => EmptyString
         | c :: l' => (textContent c ++ concat l')%string
         end) cs
  end.

Fixpoint lookupAttr (name : string) (attrs : list (string * string)) : option string :=
  match attrs with
  | [] => None
  | (k, v) :: rest => if String.eqb k name then Some v else lookupAttr name rest
  end.

(** [el.getAttribute(name)] *)
Definition getAttribute (name : string) (n : Node) : option string :=
  match n with
  | TextNode _ => None
  | Element _ _ attrs _ => lookupAttr name attrs
  end.

(** [el.hasAttribute(name)] *)
Definition hasAttribute (name : string) (n : Node) : bool :=
  match getAttribute name n with
  | Some _ => true
  | None => false
  end.

(** [el.className]: the [class] attribute, or the empty string. *)
Definition className (n : Node) : string :=
  match getAttribute "class" n with
  | Some v => v
  | None => EmptyString
  end.

(** ASCII white space separating class tokens: TAB, LF, FF, CR, SP. *)
Definition isTokenSeparator (c : ascii) : bool :=
  let n := nat_of_ascii c in
  (n =? 9)%nat || (n =? 10)%nat || (n =? 12)%nat || (n =? 13)%nat || (n =? 32)%nat.

Definition pushToken (cur : string) (acc : list string) : list string :=
  match cur with
  | EmptyString => acc
  | _ => cur :: acc
  end.

Fixpoint tokensFrom (cur : string) (s : string) : list string :=
  match s with
  | EmptyString => pushToken cur []
  | String c s' =>
      if isTokenSeparator c then pushToken cur (tokensFrom EmptyString s')
      else tokensFrom (cur ++ String c EmptyString)%string s'
  end.

(** [el.classList] *)
Definition classList (n : Node) : list string := tokensFrom EmptyString (className n).

Definition hasClass (n : Node) (c : string) : bool :=
  existsb (String.eqb c) (classList n).

(** The attribute tests that occur in the script's selectors. *)
Inductive AttrTest : Type :=
| AttrStartsWith (name value : string)   (* [name^="value"] *)
| AttrIncludes (name value : string).    (* [name*="value"] *)

(** A compound selector [tag.class1.class2[attr...]]. *)
Record Selector : Type := {
  selTag : string;
  selClasses : list string;
  selAttr : option AttrTest
}.

Definition attrTestHolds (t : AttrTest) (n : Node) : bool :=
  match t with
  | AttrStartsWith name value =>
      match getAttribute name n with
      | Some v => JS.startsWith value v
      | None => false
      end
  | AttrIncludes name value =>
      match getAttribute name n with
      | Some v => JS.includes value v
      | None => false
      end
  end.

(** [el.matches(selector)] *)
Definition matches (sel : Selector) (n : Node) : bool :=
  isElement n
  && String.eqb (tagOf n) (selTag sel)
  && forallb (hasClass n) (selClasses sel)
  && match selAttr sel with
     | Some t => attrTestHolds t n
     | None => true
     end.

(** An element and all elements below it, in document order. *)
Fixpoint elementsOf (n : Node) : list Node :=
  match n with
  | TextNode _ => []
  | Element _ _ _ cs => n :: flat_map elementsOf cs
  end.

(** The elements strictly below a node, in document order. *)
Definition descendants (n : Node) : list Node :=
  flat_map elementsOf (childrenOf n).

(** An element together with its chain of ancestors, nearest first. *)
Definition Located : Type := Node * list Node.

Fixpoint locate (anc : list Node) (n : Node) : list Located :=
  match n with
  | TextNode _ => []
  | Element _ _ _ cs => (n, anc) :: flat_map (locate (n :: anc)) cs
  end.

Definition locatedDescendants (l : Located) : list Located :=
  flat_map (locate (fst l :: snd l)) (childrenOf (fst l)).

(** [el.querySelectorAll(sel)] and [el.querySelector(sel)] *)
Definition querySelectorAll (sel : Selector) (n : Node) : list Node :=
  List.filter (matches sel) (descendants n).

Definition querySelector (sel : Selector) (n : Node) : option Node :=
  find (matches sel) (descendants n).

(** The same queries, keeping track of where the results sit. *)
Definition querySelectorAllLocated (sel : Selector) (l : Located) : list Located :=
  List.filter (fun x => matches sel (fst x)) (locatedDescendants l).

(** [document.querySelector(sel)] *)
Definition docElements (doc : Document) : list Node := flat_map elementsOf doc.

Definition docLocated (doc : Document) : list Located := flat_map (locate []) doc.

Definition docQuerySelector (sel : Selector) (doc : Document) : option Node :=
  find (matches sel) (docElements doc).

Definition docQuerySelectorLocated (sel : Selector) (doc : Document) : option Located :=
  find (fun x => matches sel (fst x)) (docLocated doc).

(** [el.closest(sel)]: the element itself or its nearest matching ancestor. *)
Definition closest (sel : Selector) (l : Located) : option Node :=
  find (matches sel) (fst l :: snd l).

(** [el.textContent = s] on the element whose identity is [k]: its children
    are replaced by a single text node (by nothing when [s] is empty).
    Elements that were below it leave the tree. *)
Fixpoint setTextContent (k : nat) (s : string) (n : Node) : Node :=
  match n with
  | TextNode _ => n
  | Element u t a cs =>
      if (u =? k)%nat
      then Element u t a (match s with EmptyString => [] | _ => [TextNode s] end)
      else Element u t a (map (setTextContent k s) cs)
  end.

Definition writeText (k : nat) (s : string) (doc : Document) : Document :=
  map (setTextContent k s) doc.

(** The element of the document whose identity is [k], if it is attached. *)
Definition hasUid (k : nat) (n : Node) : bool :=
  match uidOf n with
  | Some u => (u =? k)%nat
  | None => false
  end.

Definition getElementByUid (k : nat) (doc : Document) : option Node :=
  find (hasUid k) (docElements doc).

End DOM.

(** The selectors of content.js. *)
Definition tagSelector (t : string) : DOM.Selector :=
  {| DOM.selTag := t; DOM.selClasses := []; DOM.selAttr := None |}.

Definition asideSelector : DOM.Selector := tagSelector "aside".
Definition mainSelector : DOM.Selector := tagSelector "main".
Definition liSelector : DOM.Selector := tagSelector "li".

(** [a[href*="/lists/"]] *)
Definition listLinkSelector : DOM.Selector :=
  {| DOM.selTag := "a"; DOM.selClasses := [];
     DOM.selAttr := Some (DOM.AttrIncludes "href" "/lists/") |}.

(** [a[href^="http"]] *)
Definition externalLinkSelector : DOM.Selector :=
  {| DOM.selTag := "a"; DOM.selClasses := [];
     DOM.selAttr := Some (DOM.AttrStartsWith "href" "http") |}.

(** [div.inline-flex.items-center.rounded-full.border] *)
Definition badgeSelector : DOM.Selector :=
  {| DOM.selTag := "div";
     DOM.selClasses := ["inline-flex"; "items-center"; "rounded-full"; "border"];
     DOM.selAttr := None |}.

(** [div.relative.flex.flex-col.overflow-hidden.rounded-lg.mb-4.border] *)
Definition cardSelector : DOM.Selector :=
  {| DOM.selTag := "div";
     DOM.selClasses := ["relative"; "flex"; "flex-col"; "overflow-hidden";
                        "rounded-lg"; "mb-4"; "border"];
     DOM.selAttr := None |}.

(** The part of [window.getComputedStyle(el)] that the script reads. *)
Record ComputedStyle : Type := {
  opacity : Q;
  display : string
}.

(** The browser page the script runs in. *)
Record Page : Type := {
  document : Document;
  pathname : string;                       (* window.location.pathname *)
  getComputedStyle : nat -> ComputedStyle  (* by element identity *)
}.

(* ===================================================================== *)
(** ** Counting bookmark cards                                            *)
(* ===================================================================== *)

(** [card.textContent?.trim() || ''] *)
Definition cardText (card : Node) : string := JS.trim (DOM.textContent card).

(** [card.querySelector('a[href^="http"]')] *)
Definition hasExternalLink (card : Node) : option Node :=
  DOM.querySelector externalLinkSelector card.

Definition isSome {A : Type} (o : option A) : bool :=
  match o with
  | Some _ => true
  | None => false
  end.

Definition textLength (s : string) : Z := Z.of_nat (String.length s).

(** [hasExternalLink && text.length > 10 && text.length < 200] *)
Definition isCandidate (card : Node) : bool :=
  isSome (hasExternalLink card)
  && (10 <? textLength (cardText card))
  && (textLength (cardText card) <? 200).

(** [isArchived] as computed in [countBookmarksInDocument]. *)
Definition isArchivedInDocument (card : Node) : bool :=
  let textLower := JS.toLowerCase (cardText card) in
  let classLower := JS.toLowerCase (DOM.className card) in
  JS.includes "archived" textLower
  || JS.includes "archived" classLower
  || DOM.hasAttribute "data-archived" card.

(** [computedStyle.opacity < 1] *)
Definition opacityBelowOne (st : ComputedStyle) : bool := negb (Qle_bool 1 (opacity st)).

(** [isArchived] as computed in [countVisibleBookmarks]. *)
Definition isArchivedVisible (st : ComputedStyle) (card : Node) : bool :=
  let textLower := JS.toLowerCase (cardText card) in
  let classLower := JS.toLowerCase (DOM.className card) in
  JS.includes "archived" textLower
  || JS.includes "archived" classLower
  || opacityBelowOne st
  || String.eqb (display st) "none"
  || DOM.hasAttribute "data-archived" card.

Definition styleOfNode (style : nat -> ComputedStyle) (n : Node) : ComputedStyle :=
  match DOM.uidOf n with
  | Some u => style u
  | None => {| opacity := 1; display := "inline" |}
  end.

(** One iteration of the [forEach] in [countBookmarksInDocument]. *)
Definition documentCardStep (validBookmarks : Z) (card : Node) : Z :=
  if isCandidate card then
    if negb (isArchivedInDocument card) then validBookmarks + 1 else validBookmarks
  else validBookmarks.

(** One iteration of the [forEach] in [countVisibleBookmarks]. *)
Definition visibleCardStep (style : nat -> ComputedStyle) (validBookmarks : Z) (card : Node) : Z :=
  if isCandidate card then
    if negb (isArchivedVisible (styleOfNode style card) card)
    then validBookmarks + 1 else validBookmarks
  else validBookmarks.

(** [countBookmarksInDocument(doc)] *)
Definition countBookmarksInDocument (doc : Document) : Z :=
  match DOM.docQuerySelector mainSelector doc with
  | None => 0
  | Some main =>
      let bookmarkCards := DOM.querySelectorAll cardSelector main in
      fold_left documentCardStep bookmarkCards 0
  end.

(** [countVisibleBookmarks()], run against the live page; [None] is [null]. *)
Definition countVisibleBookmarks (page : Page) : option Z :=
  match DOM.docQuerySelector mainSelector (document page) with
  | None => None
  | Some main =>
      let bookmarkCards := DOM.querySelectorAll cardSelector main in
      Some (fold_left (visibleCardStep (getComputedStyle page)) bookmarkCards 0)
  end.

(* ===================================================================== *)
(** ** Promises, the network and the remote fetcher                       *)
(* ===================================================================== *)

Inductive JSError : Type :=
| AbortError                 (* the abort controller fired *)
| NetworkError               (* fetch or body read failed *)
| OtherError (message : string).

(** What becomes of a promise: it is fulfilled, it is rejected, or it
    stays pending for ever. *)
Inductive Completion (A : Type) : Type :=
| Fulfilled (value : A)
| Rejected (reason : JSError)
| Unsettled.

Arguments Fulfilled {A} value.
Arguments Rejected {A} reason.
Arguments Unsettled {A}.

(** [await p] followed by the rest of an async function; the rest never
    runs when [p] never settles. *)
Definition andThen {A B : Type} (p : Completion A) (k : A -> Completion B) : Completion B :=
  match p with
  | Fulfilled a => k a
  | Rejected e => Rejected e
  | Unsettled => Unsettled
  end.

(** [try { body } catch (error) { handler }] *)
Definition tryCatch {A : Type} (body : Completion A) (handler : JSError -> Completion A) : Completion A :=
  match body with
  | Fulfilled a => Fulfilled a
  | Rejected e => handler e
  | Unsettled => Unsettled
  end.

Definition isFulfilled {A : Type} (p : Completion A) : bool :=
  match p with
  | Fulfilled _ => true
  | _ => false
  end.

(** The promise settles at some time. *)
Definition settles {A : Type} (p : Completion A) : bool :=
  match p with
  | Unsettled => false
  | _ => true
  end.

(** What becomes of [response.text()]: the body arrives, the read fails, or
    the body never completes. *)
Inductive BodyRead : Type :=
| BodyText (html : string)
| BodyFailure
| BodyStalls.

Record Response : Type := {
  status : Z;
  body : BodyRead
}.

(** What the network does with one request; latencies are in milliseconds
    from the moment the request is issued. *)
Inductive NetOutcome : Type :=
| Responds (latency : Z) (response : Response)
| Fails (latency : Z)
| Hangs.

(** The parts of the browser that a run consults besides the page. *)
Record Env : Type := {
  fetchOutcome : string -> NetOutcome;       (* by request URL *)
  parseFromString : string -> Document       (* DOMParser, 'text/html' *)
}.

(** [setTimeout(() => controller.abort(), 5000)] *)
Definition fetchTimeout : Z := 5000.

(** [await fetch(url, { signal: controller.signal })] raced against the
    abort timer: whatever the network does strictly before the timer fires
    is seen, otherwise the fetch rejects with an [AbortError]. *)
Definition fetchWithSignal (o : NetOutcome) : Completion Response :=
  match o with
  | Responds latency response =>
      if latency <? fetchTimeout then Fulfilled response else Rejected AbortError
  | Fails latency =>
      if latency <? fetchTimeout then Rejected NetworkError else Rejected AbortError
  | Hangs => Rejected AbortError
  end.

(** [response.ok] *)
Definition ok (r : Response) : bool := (200 <=? status r) && (status r <=? 299).

(** [await response.text()].  The abort timer has been cleared by then
    ([clearTimeout(timeoutId)]): the body read is not raced against it, and
    a body that never completes leaves the promise pending for ever. *)
Definition responseText (r : Response) : Completion string :=
  match body r with
  | BodyText html => Fulfilled html
  | BodyFailure => Rejected NetworkError
  | BodyStalls => Unsettled
  end.

Definition listUrl (listId : string) : string := ("/dashboard/lists/" ++ listId)%string.

(** [fetchListBookmarkCount(listId)]; [None] is [null]. *)
Definition fetchListBookmarkCount (env : Env) (listId : string) : Completion (option Z) :=
  tryCatch
    (andThen (fetchWithSignal (fetchOutcome env (listUrl listId))) (fun response =>
       if negb (ok response) then Fulfilled None
       else
         andThen (responseText response) (fun html =>
           let doc := parseFromString env html in
           let count := countBookmarksInDocument doc in
           Fulfilled (Some count))))
    (fun error => Fulfilled None).

(* ===================================================================== *)
(** ** The list directory scanner                                         *)
(* ===================================================================== *)

(** One entry of [listLinks]; [link] and [countBadge] are live references. *)
Record ListInfo : Type := {
  listId : string;
  name : string;
  link : nat;
  countBadge : nat;
  currentCount : Z
}.

Definition uidOrZero (n : Node) : nat :=
  match DOM.uidOf n with
  | Some u => u
  | None => O
  end.

(** [href.split('/lists/')[1]]; [None] is [undefined]. *)
Definition listIdOf (href : string) : option string :=
  nth_error (JS.split "/lists/" href) 1.

(** The body of the [links.forEach] callback: the descriptor pushed for
    one link, if any.  The selector guarantees that [href] is present. *)
Definition scanLink (l : DOM.Located) : option ListInfo :=
  match DOM.getAttribute "href" (fst l) with
  | None => None
  | Some href =>
      let listId := listIdOf href in
      let text := JS.trim (DOM.textContent (fst l)) in
      let listItem := DOM.closest liSelector l in
      let countBadge :=
        match listItem with
        | Some li => DOM.querySelector badgeSelector li
        | None => None
        end in
      match listId, countBadge with
      | Some (String c id), Some badge =>
          Some {| listId := String c id;
                  name := text;
                  link := uidOrZero (fst l);
                  countBadge := uidOrZero badge;
                  currentCount :=
                    JS.orZero (JS.parseInt (JS.trim (DOM.textContent badge))) |}
      | _, _ => None
      end
  end.

Definition pushScanned (listLinks : list ListInfo) (l : DOM.Located) : list ListInfo :=
  match scanLink l with
  | Some info => listLinks ++ [info]
  | None => listLinks
  end.

(** The links selected by [sidebar.querySelectorAll('a[href*="/lists/"]')]. *)
Definition sidebarLinks (doc : Document) : list DOM.Located :=
  match DOM.docQuerySelectorLocated asideSelector doc with
  | None => []
  | Some sidebar => DOM.querySelectorAllLocated listLinkSelector sidebar
  end.

(** [findAllListLinks()] *)
Definition findAllListLinks (doc : Document) : list ListInfo :=
  match DOM.docQuerySelectorLocated asideSelector doc with
  | None => []
  | Some sidebar =>
      let links := DOM.querySelectorAllLocated listLinkSelector sidebar in
      fold_left pushScanned links []
  end.

(* ===================================================================== *)
(** ** The reconciliation scheduler                                       *)
(* ===================================================================== *)

(** The fields of a [KarakeepBookmarkCounter]. *)
Record Counter : Type := {
  debugMode : bool;
  listCounts : gmap string Z;
  lastUpdateTime : Z;
  updateCooldown : Z
}.

(** [constructor()] *)
Definition constructor : Counter :=
  {| debugMode := true; listCounts := ∅; lastUpdateTime := 0; updateCooldown := 10000 |}.

(** What a run does to the world, in the order it does it. *)
Inductive Event : Type :=
| EvQuerySidebar                         (* document.querySelector('aside') *)
| EvScan                                 (* findAllListLinks() *)
| EvCountLive                            (* countVisibleBookmarks() *)
| EvFetch (url : string)                 (* fetch(url, ...) *)
| EvWrite (badge : nat) (text : string). (* countBadge.textContent = text *)

Definition isWrite (e : Event) : bool :=
  match e with
  | EvWrite _ _ => true
  | _ => false
  end.

(** [currentListId === listId] *)
Definition isCurrentList (page : Page) (listId : string) : bool :=
  match listIdOf (pathname page) with
  | Some currentListId => String.eqb currentListId listId
  | None => false
  end.

(** [getUnarchivedCountForList(listId)] *)
Definition getUnarchivedCountForList (env : Env) (page : Page) (listId : string)
  : Completion (option Z) :=
  if isCurrentList page listId
  then Fulfilled (countVisibleBookmarks page)
  else fetchListBookmarkCount env listId.

(** What [getUnarchivedCountForList] does to the world when it is called. *)
Definition resolutionEvents (page : Page) (listId : string) : list Event :=
  if isCurrentList page listId then [EvCountLive] else [EvFetch (listUrl listId)].

(** [updateListCount] suspends at [await this.getUnarchivedCountForList(..)].
    [finishUpdate] is the rest of the function: it runs when that promise
    has settled to [resolved], against the document as it is then.  The
    surrounding [try]/[catch] turns a rejection into a logged error.  When
    the promise never settles the rest never runs, and the update stays
    pending. *)
Definition finishUpdate (info : ListInfo) (resolved : Completion (option Z))
                        (doc : Document) : Document * list Event * Completion unit :=
  match resolved with
  | Fulfilled (Some unarchivedCount) =>
      if negb (unarchivedCount =? currentCount info)
      then (DOM.writeText (countBadge info) (JS.toString unarchivedCount) doc,
            [EvWrite (countBadge info) (JS.toString unarchivedCount)],
            Fulfilled tt)
      else (doc, [], Fulfilled tt)
  | Fulfilled None => (doc, [], Fulfilled tt)
  | Rejected error => (doc, [], Fulfilled tt)
  | Unsettled => (doc, [], Unsettled)
  end.

(** [updateListCount(listInfo)] run on its own, nothing else interleaved. *)
Definition updateListCount (env : Env) (page : Page) (info : ListInfo)
  : Document * list Event * Completion unit :=
  let resolved := getUnarchivedCountForList env page (listId info) in
  let '(doc, writes, settled) := finishUpdate info resolved (document page) in
  (doc, resolutionEvents page (listId info) ++ writes, settled).

(** An update that has been started and waits for its count. *)
Definition Pending : Type := ListInfo * Completion (option Z).

(** [listLinks.map(listInfo => this.updateListCount(listInfo))]: every
    update runs up to its [await], so all live counts are taken and all
    fetches are issued before any badge is written. *)
Definition startUpdates (resolve : string -> Completion (option Z))
                        (listLinks : list ListInfo) : list Pending :=
  map (fun info => (info, resolve (listId info))) listLinks.

(** The continuations run one at a time, in the order [order] in which the
    promises settle (positions in [listLinks]).  A promise that never
    settles has no turn: a position that names one is passed over. *)
Definition settleStep (pending : list Pending)
                      (acc : Document * list Event * list (Completion unit))
                      (i : nat) : Document * list Event * list (Completion unit) :=
  let '(doc, events, results) := acc in
  match nth_error pending i with
  | Some (info, resolved) =>
      if settles resolved then
        let '(doc', writes, settled) := finishUpdate info resolved doc in
        (doc', events ++ writes, results ++ [settled])
      else acc
  | None => acc
  end.

Definition settleAll (order : list nat) (pending : list Pending) (doc : Document)
  : Document * list Event * list (Completion unit) :=
  fold_left (settleStep pending) order (doc, [], []).

(** A settling order in which every started update has its turn exactly
    once. *)
Definition completeOrder (n : nat) (order : list nat) : Prop :=
  Permutation order (seq 0 n).

(** The outcome of one call of the run entry point. *)
Record Run : Type := {
  counterAfter : Counter;
  documentAfter : Document;
  events : list Event;
  settled : list (Completion unit)     (* the update promises that settled *)
}.

Definition setLastUpdateTime (now : Z) (c : Counter) : Counter :=
  {| debugMode := debugMode c; listCounts := listCounts c;
     lastUpdateTime := now; updateCooldown := updateCooldown c |}.

(** The run after the readiness checks, for an arbitrary way [resolve] of
    resolving a list's count. *)
Definition reconcile (resolve : string -> Completion (option Z))
                     (resolveEvents : string -> list Event)
                     (now : Z) (order : list nat) (c : Counter) (doc : Document)
                     (listLinks : list ListInfo) : Run :=
  let c' := setLastUpdateTime now c in
  let updatePromises := startUpdates resolve listLinks in
  let '(doc', writes, results) := settleAll order updatePromises doc in
  {| counterAfter := c';
     documentAfter := doc';
     events := [EvQuerySidebar; EvScan]
               ++ flat_map (fun info => resolveEvents (listId info)) listLinks
               ++ writes;
     settled := results |}.

(** [updateAllListCounts()], called when the clock reads [now]. *)
Definition updateAllListCountsWith (resolve : string -> Completion (option Z))
                                   (resolveEvents : string -> list Event)
                                   (now : Z) (order : list nat)
                                   (c : Counter) (doc : Document) : Run :=
  if now - lastUpdateTime c <? updateCooldown c then
    {| counterAfter := c; documentAfter := doc; events := []; settled := [] |}
  else
    match DOM.docQuerySelector asideSelector doc with
    | None =>
        {| counterAfter := c; documentAfter := doc;
           events := [EvQuerySidebar]; settled := [] |}
    | Some sidebar =>
        let listLinks := findAllListLinks doc in
        if (length listLinks =? 0)%nat then
          {| counterAfter := c; documentAfter := doc;
             events := [EvQuerySidebar; EvScan]; settled := [] |}
        else reconcile resolve resolveEvents now order c doc listLinks
    end.

Definition updateAllListCounts (env : Env) (now : Z) (order : list nat)
                               (c : Counter) (page : Page) : Run :=
  updateAllListCountsWith (getUnarchivedCountForList env page)
                          (resolutionEvents page) now order c (document page).

(** [results.forEach(...)]: the tallies that the run logs once every
    update promise has settled. *)
Definition successful (r : Run) : nat := List.length (List.filter isFulfilled (settled r)).
Definition failed (r : Run) : nat :=
  List.length (List.filter (fun p => negb (isFulfilled p)) (settled r)).

(** *** The content script as a process *)

(** What can call the run entry point. *)
Inductive Trigger : Type :=
| StartupTimer (delay : Z)      (* the two staggered setTimeout calls *)
| WindowLoad
| DomContentLoaded
| UrlChange
| SidebarOrMainInserted
| RefreshMessage.               (* chrome.runtime.onMessage, 'refreshCounts' *)

Record World : Type := {
  counter : Counter;
  page : Page
}.

Definition withDocument (p : Page) (doc : Document) : Page :=
  {| document := doc; pathname := pathname p; getComputedStyle := getComputedStyle p |}.

(** Every trigger funnels into [updateAllListCounts]. *)
Definition fire (t : Trigger) (env : Env) (now : Z) (order : list nat) (w : World) : World :=
  let r := updateAllListCounts env now order (counter w) (page w) in
  {| counter := counterAfter r; page := withDocument (page w) (documentAfter r) |}.

(** One step of the world: the script runs, or the host page changes under
    it (rendering, navigation). *)
Inductive step : World -> World -> Prop :=
| step_fire (t : Trigger) (env : Env) (now : Z) (order : list nat) (w : World) :
    step w (fire t env now order w)
| step_host (w : World) (p' : Page) :
    step w {| counter := counter w; page := p' |}.

(** The worlds the script can be in after it has been loaded into some page. *)
Inductive reachable : World -> Prop :=
| reachable_init (p : Page) : reachable {| counter := constructor; page := p |}
| reachable_step (w w' : World) : reachable w -> step w w' -> reachable w'.

(* ===================================================================== *)
(** ** Vocabulary of the statements                                       *)
(* ===================================================================== *)

(** The cards that both counting functions enumerate in a document. *)
Definition bookmarkCards (doc : Document) : list Node :=
  match DOM.docQuerySelector mainSelector doc with
  | None => []
  | Some main => DOM.querySelectorAll cardSelector main
  end.

(** The two style signals that only the live count consults. *)
Definition styleArchived (st : ComputedStyle) : bool :=
  opacityBelowOne st || String.eqb (display st) "none".

Definition hiddenByStyle (style : nat -> ComputedStyle) (card : Node) : bool :=
  styleArchived (styleOfNode style card).

(** An anchor whose [href] begins with [http]. *)
Definition isExternalAnchor (a : Node) : Prop :=
  DOM.tagOf a = "a" /\
  exists href, DOM.getAttribute "href" a = Some href /\ JS.startsWith "http" href = true.

(** The specification's reading of the link test: the destination is
    scheme-prefixed, that is, it begins with a URL scheme - a letter, then
    letters, digits, [+], [-] or [.], then a colon - and so is not a
    relative link.  These definitions follow the specification, not the
    script; they are compared with the script's test below. *)
Definition isAlpha (c : ascii) : bool :=
  let n := nat_of_ascii c in
  ((65 <=? n)%nat && (n <=? 90)%nat) || ((97 <=? n)%nat && (n <=? 122)%nat).

Definition isSchemeChar (c : ascii) : bool :=
  let n := nat_of_ascii c in
  isAlpha c || ((48 <=? n)%nat && (n <=? 57)%nat)
  || (n =? 43)%nat || (n =? 45)%nat || (n =? 46)%nat.

Fixpoint schemeEnds (s : string) : bool :=
  match s with
  | EmptyString => false
  | String c s' =>
      if (nat_of_ascii c =? 58)%nat then true
      else isSchemeChar c && schemeEnds s'
  end.

Definition schemePrefixed (href : string) : bool :=
  match href with
  | EmptyString => false
  | String c s' => isAlpha c && schemeEnds s'
  end.

Definition isSchemePrefixedAnchor (a : Node) : bool :=
  String.eqb (DOM.tagOf a) "a"
  && match DOM.getAttribute "href" a with
     | Some href => schemePrefixed href
     | None => false
     end.

Definition hasSchemePrefixedLink (card : Node) : bool :=
  existsb isSchemePrefixedAnchor (DOM.descendants card).

(** No code unit of the string is white space. *)
Fixpoint noWhiteSpace (s : string) : bool :=
  match s with
  | EmptyString => true
  | String c s' => negb (JS.isWhiteSpace c) && noWhiteSpace s'
  end.

(** The descriptors pushed for one link: one or none. *)
Definition descriptorsOf (l : DOM.Located) : list ListInfo :=
  match scanLink l with
  | Some info => [info]
  | None => []
  end.

(** The badge that [scanLink] finds for a link. *)
Definition badgeOf (l : DOM.Located) : option Node :=
  match DOM.closest liSelector l with
  | Some li => DOM.querySelector badgeSelector li
  | None => None
  end.

(** The specification's reading of [listId]: the trailing path segment of
    the link's destination, that is, what follows its last slash.  This
    definition follows the specification, not the script; it is compared
    with [listIdOf] below. *)
Fixpoint trailingPathSegment (s : string) : string :=
  match s with
  | EmptyString => EmptyString
  | String c s' =>
      if JS.includes "/" s' then trailingPathSegment s'
      else if Ascii.eqb c "/" then s' else s
  end.

(** The descriptor that [scanLink] builds from a link, its list id and its
    badge. *)
Definition describe (l : DOM.Located) (id : string) (badge : Node) : ListInfo :=
  {| listId := id;
     name := JS.trim (DOM.textContent (fst l));
     link := uidOrZero (fst l);
     countBadge := uidOrZero badge;
     currentCount := JS.orZero (JS.parseInt (JS.trim (DOM.textContent badge))) |}.

(** An element with identity [k] lies in the subtree of [n]. *)
Definition inside (k : nat) (n : Node) : bool :=
  existsb (DOM.hasUid k) (DOM.elementsOf n).

(** In the document, no element with identity [j] lies below (or is) an
    element with identity [k], nor the other way round: writing the text
    of one cannot touch the other. *)
Definition apart (j k : nat) (doc : Document) : Prop :=
  forall e, In e (DOM.docElements doc) ->
    (DOM.hasUid j e = true -> inside k e = false) /\
    (DOM.hasUid k e = true -> inside j e = false).

(** [apart], decided on the list of the document's elements. *)
Definition apartb (j k : nat) (doc : Document) : bool :=
  forallb (fun e =>
             implb (DOM.hasUid j e) (negb (inside k e))
             && implb (DOM.hasUid k e) (negb (inside j e)))
          (DOM.docElements doc).

Definition isWriteTo (k : nat) (e : Event) : bool :=
  match e with
  | EvWrite badge _ => (badge =? k)%nat
  | _ => false
  end.




(** The readiness checks of a run: a sidebar, and at least one list in it. *)
Definition pageReady (doc : Document) : bool :=
  isSome (DOM.docQuerySelector asideSelector doc)
  && negb (List.length (findAllListLinks doc) =? 0)%nat.

(** A run that was suppressed or that gave up at a readiness check. *)
Definition idleRun (c : Counter) (doc : Document) (evs : list Event) : Run :=
  {| counterAfter := c; documentAfter := doc; events := evs; settled := [] |}.

Definition withListCounts (m : gmap string Z) (c : Counter) : Counter :=
  {| debugMode := debugMode c; listCounts := m;
     lastUpdateTime := lastUpdateTime c; updateCooldown := updateCooldown c |}.

(** The write that the continuation of one update performs. *)
Definition writeBack (info : ListInfo) (resolved : Completion (option Z)) : list Event :=
  match resolved with
  | Fulfilled (Some unarchivedCount) =>
      if negb (unarchivedCount =? currentCount info)
      then [EvWrite (countBadge info) (JS.toString unarchivedCount)]
      else []
  | _ => []
  end.

(** The effect of a sequence of events on the document. *)
Definition applyEvent (doc : Document) (e : Event) : Document :=
  match e with
  | EvWrite badge text => DOM.writeText badge text doc
  | _ => doc
  end.

Definition applyEvents (evs : list Event) (doc : Document) : Document :=
  fold_left applyEvent evs doc.

(** What settling the update at position [i] writes and reports. *)
Definition writesAt (pending : list Pending) (i : nat) : list Event :=
  match nth_error pending i with
  | Some p => writeBack (fst p) (snd p)
  | None => []
  end.

Definition resultAt (pending : list Pending) (i : nat) : list (Completion unit) :=
  match nth_error pending i with
  | Some p => if settles (snd p) then [Fulfilled tt] else []
  | None => []
  end.

(* ===================================================================== *)
(** ** A sample page                                                      *)
(* ===================================================================== *)

Module Sample.

Definition cardClass : string :=
  "relative flex flex-col overflow-hidden rounded-lg mb-4 border".

Definition badge (u : nat) (text : string) : Node :=
  Element u "div" [("class", "inline-flex items-center rounded-full border px-2")]
          [TextNode text].

(** [<li><a href=..>label</a><div class="badge..">count</div></li>] *)
Definition item (u : nat) (href label count : string) : Node :=
  Element u "li" []
    [Element (u + 1) "a" [("href", href)] [TextNode label]; badge (u + 2) count].

Definition card (u : nat) (cls href text : string) (extra : list (string * string)) : Node :=
  Element u "div" (("class", cls) :: extra)
    [Element (u + 1) "a" [("href", href)] [TextNode text]].

Definition goodCard : Node :=
  card 100 cardClass "https://example.com/a" "  An article worth reading  " [].
Definition shortCard : Node :=
  card 110 cardClass "https://example.com/b" "Ten chars." [].
Definition longCard : Node :=
  card 120 cardClass "https://example.com/c"
    "0123456789012345678901234567890123456789012345678901234567890123456789012345678901234567890123456789012345678901234567890123456789012345678901234567890123456789012345678901234567890123456789012345678901234567890123456789"
    [].
Definition internalCard : Node :=
  card 130 cardClass "/dashboard/bookmarks/7" "An article worth reading" [].
Definition archivedTextCard : Node :=
  card 140 cardClass "https://example.com/d" "An article, ARCHIVED last week" [].
Definition archivedClassCard : Node :=
  card 150 (cardClass ++ " is-Archived")%string "https://example.com/e" "An article worth reading" [].
Definition archivedAttrCard : Node :=
  card 160 cardClass "https://example.com/f" "An article worth reading" [("data-archived", "")].
Definition fadedCard : Node :=
  card 170 cardClass "https://example.com/g" "An article worth reading" [].

(** A card whose only link is relative: it leads to the page
    [http-tips/first-steps] of the site itself. *)
Definition relativeCard : Node :=
  card 180 cardClass "http-tips/first-steps" "First steps with bookmarks" [].

Definition sidebar : Node :=
  Element 3 "aside" []
    [Element 4 "ul" []
       [item 10 "/dashboard/lists/abc123" " Reading " "2";
        item 20 "/dashboard/lists/xyz789" "Later" "8"]].

Definition mainRegion : Node :=
  Element 5 "main" []
    [goodCard; shortCard; longCard; internalCard; archivedTextCard;
     archivedClassCard; archivedAttrCard; fadedCard].

Definition doc : Document :=
  [Element 1 "html" [] [Element 2 "body" [] [sidebar; mainRegion]]].

(** The same page before its main region has been rendered. *)
Definition docWithoutMain : Document :=
  [Element 1 "html" [] [Element 2 "body" [] [sidebar]]].

Definition plainStyle : ComputedStyle := {| opacity := 1; display := "flex" |}.
Definition fadedStyle : ComputedStyle := {| opacity := 1 # 2; display := "flex" |}.

Definition style (u : nat) : ComputedStyle :=
  if (u =? 170)%nat then fadedStyle else plainStyle.

(** The user is looking at the list [abc123]. *)
Definition page : Page :=
  {| document := doc; pathname := "/dashboard/lists/abc123"; getComputedStyle := style |}.

Definition pageWithoutMain : Page :=
  {| document := docWithoutMain; pathname := "/dashboard/lists/abc123";
     getComputedStyle := style |}.

(** The page served for a list: five countable cards for [xyz789]. *)
Definition laterDoc : Document :=
  [Element 1 "html" []
     [Element 2 "body" []
        [Element 5 "main" []
           [card 200 cardClass "https://example.com/1" "First article to read" [];
            card 210 cardClass "https://example.com/2" "Second article to read" [];
            card 220 cardClass "https://example.com/3" "Third article to read" [];
            card 230 cardClass "https://example.com/4" "Fourth article to read" [];
            card 240 cardClass "https://example.com/5" "Fifth article to read" [];
            archivedTextCard]]]].

Definition okResponse : Response := {| status := 200; body := BodyText "later" |}.
Definition notFound : Response := {| status := 404; body := BodyText "missing" |}.

(** A network that answers for [xyz789] after 120 ms. *)
Definition env : Env :=
  {| fetchOutcome := fun url =>
       if String.eqb url "/dashboard/lists/xyz789" then Responds 120 okResponse else Hangs;
     parseFromString := fun html =>
       if String.eqb html "later" then laterDoc else [] |}.



(** The sample page with a sidebar in which the two list links sit in one
    list item and share its badge, which shows 1. *)
Definition sharedDoc : Document :=
  [Element 1 "html" []
     [Element 2 "body" []
        [Element 3 "aside" []
           [Element 4 "ul" []
              [Element 10 "li" []
                 [Element 11 "a" [("href", "/dashboard/lists/abc123")] [TextNode "Reading"];
                  Element 12 "a" [("href", "/dashboard/lists/xyz789")] [TextNode "Later"];
                  badge 13 "1"]]];
         mainRegion]]].

Definition sharedPage : Page :=
  {| document := sharedDoc; pathname := "/dashboard/lists/abc123";
     getComputedStyle := style |}.

(** The descriptor of "Reading" on that page. *)
Definition sharedReading : ListInfo :=
  {| listId := "abc123"; name := "Reading"; link := 11%nat;
     countBadge := 13%nat; currentCount := 1 |}.

(** A sidebar whose links lead below a list page: to a sub-page, and to a
    list nested under another list. *)
Definition editDoc : Document :=
  [Element 1 "html" []
     [Element 2 "body" []
        [Element 3 "aside" []
           [Element 4 "ul" []
              [item 10 "/dashboard/lists/abc123/edit" "Reading" "2";
               item 20 "/dashboard/lists/abc123/lists/def456" "Nested" "x"]]]]].

(** The descriptors that the scan of the sample page yields. *)
Definition reading : ListInfo :=
  {| listId := "abc123"; name := "Reading"; link := 11%nat;
     countBadge := 12%nat; currentCount := 2 |}.
Definition later : ListInfo :=
  {| listId := "xyz789"; name := "Later"; link := 21%nat;
     countBadge := 22%nat; currentCount := 8 |}.

(** A resolution that throws for the first list and answers 5 for the other. *)
Definition flakyResolve (id : string) : Completion (option Z) :=
  if String.eqb id "abc123" then Rejected (OtherError "boom") else Fulfilled (Some 5).

End Sample.

(* ===================================================================== *)
(** ** The mutation observer                                              *)
(* ===================================================================== *)

(** [mutation.type] *)
Inductive MutationType : Type :=
| ChildList
| Attributes
| CharacterData.

(** The part of a [MutationRecord] that the observer reads. *)
Record MutationRecord : Type := {
  mutationType : MutationType;
  addedNodes : list Node
}.

(** [node.querySelector('aside') || node.querySelector('main') ||
     node.matches('aside, main')] *)
Definition bringsRegion (node : Node) : bool :=
  isSome (DOM.querySelector asideSelector node)
  || isSome (DOM.querySelector mainSelector node)
  || (DOM.matches asideSelector node || DOM.matches mainSelector node).

(** The body of [mutation.addedNodes.forEach]: only element nodes are
    looked at. *)
Definition addedNodeStep (significantChange : bool) (node : Node) : bool :=
  if DOM.isElement node then
    if bringsRegion node then true else significantChange
  else significantChange.

(** The body of [mutations.forEach]. *)
Definition mutationStep (significantChange : bool) (mutation : MutationRecord) : bool :=
  match mutationType mutation with
  | ChildList =>
      if (0 <? List.length (addedNodes mutation))%nat
      then fold_left addedNodeStep (addedNodes mutation) significantChange
      else significantChange
  | _ => significantChange
  end.

(** [let significantChange = false; mutations.forEach(...)] *)
Definition significantChange (mutations : list MutationRecord) : bool :=
  fold_left mutationStep mutations false.

(** The callback of the [MutationObserver] set up by [setupObserver].
    [currentUrl] is the variable of the enclosing scope, [href] is
    [window.location.href] when the callback runs.  The result is the new
    value of [currentUrl] and the delays of the timeouts that the callback
    sets, each of which calls [updateAllListCounts]. *)
Definition observerCallback (currentUrl href : string) (mutations : list MutationRecord)
  : string * list Z :=
  let urlChanged := negb (String.eqb href currentUrl) in
  (if urlChanged then href else currentUrl,
   (if urlChanged then [1000] else [])
   ++ (if significantChange mutations then [1000] else [])).

(** The record that the browser queues for [el.textContent = s] on an
    attached element: the old children are removed and one text node is
    added (none when [s] is empty; no record when nothing changes).  A
    write to a detached element is not seen by the observer. *)
Definition writeRecord (k : nat) (s : string) (doc : Document) : list MutationRecord :=
  match DOM.getElementByUid k doc with
  | Some el =>
      match s, DOM.childrenOf el with
      | EmptyString, [] => []
      | EmptyString, _ :: _ => [{| mutationType := ChildList; addedNodes := [] |}]
      | String _ _, _ => [{| mutationType := ChildList; addedNodes := [TextNode s] |}]
      end
  | None => []
  end.

Definition eventRecords (doc : Document) (e : Event) : list MutationRecord :=
  match e with
  | EvWrite badge text => writeRecord badge text doc
  | _ => []
  end.

(** The records queued by a sequence of events, each against the document
    as the events before it have left it. *)
Fixpoint runRecords (evs : list Event) (doc : Document) : list MutationRecord :=
  match evs with
  | [] => []
  | e :: evs' => eventRecords doc e ++ runRecords evs' (applyEvent doc e)
  end.

(* ===================================================================== *)
(** ** The message listener                                               *)
(* ===================================================================== *)

(** A message to the content script. *)
Record Request : Type := {
  action : string
}.

(** The listener added to [chrome.runtime.onMessage]: the new world and the
    status passed to [sendResponse], if it is called. *)
Definition onMessage (env : Env) (now : Z) (order : list nat) (request : Request)
                     (w : World) : World * option string :=
  if String.eqb (action request) "refreshCounts"
  then (fire RefreshMessage env now order w, Some "refreshed")
  else (w, None).

(* ===================================================================== *)
(** ** A sequence of calls of the run entry point                         *)
(* ===================================================================== *)

(** One call of [updateAllListCounts]: what the clock, the network and the
    page are when it is made, and how its updates settle. *)
Record Call : Type := {
  callEnv : Env;
  callNow : Z;
  callOrder : list nat;
  callPage : Page
}.

(** The runs of a sequence of calls on one counter. *)
Fixpoint runCalls (calls : list Call) (c : Counter) : list Run :=
  match calls with
  | [] => []
  | k :: rest =>
      let r := updateAllListCounts (callEnv k) (callNow k) (callOrder k) c (callPage k) in
      r :: runCalls rest (counterAfter r)
  end.

Definition isResolution (e : Event) : bool :=
  match e with
  | EvCountLive => true
  | EvFetch _ => true
  | _ => false
  end.

(** The run got past its readiness checks: it counted, fetched or wrote. *)
Definition proceeded (r : Run) : bool :=
  existsb (fun e => isResolution e || isWrite e) (events r).

(** Two events whose effects on the document do not depend on their
    order: not two writes of different texts into the same element. *)
Definition compatible (a b : Event) : Prop :=
  match a, b with
  | EvWrite k s, EvWrite k' s' => k = k' -> s = s'
  | _, _ => True
  end.

(** The gate is open: the cooldown has elapsed. *)
Definition gateOpen (now : Z) (c : Counter) : bool :=
  negb (now - lastUpdateTime c <? updateCooldown c).

(* ===================================================================== *)
(** ** The popup (popup.js)                                               *)
(* ===================================================================== *)

Module Popup.

(** The refresh button's text and the due times of the pending
    [setTimeout] callbacks. *)
Record State : Type := {
  buttonText : string;
  timers : list Z
}.

(** The message sent to the active tab. *)
Definition request : Request := {| action := "refreshCounts" |}.

(** Every timer callback is [refreshBtn.textContent = 'Refresh Counts'].
    [fireTimers now] runs the callbacks that are due when the clock reads
    [now]. *)
Definition fireTimers (now : Z) (p : State) : State :=
  if existsb (fun due => due <=? now) (timers p)
  then {| buttonText := "Refresh Counts";
          timers := List.filter (fun due => negb (due <=? now)) (timers p) |}
  else p.

(** The click listener, run when the clock reads [now]: the message for
    the content script, the visual feedback and its timeout. *)
Definition click (now : Z) (p : State) : State * Request :=
  let p' := fireTimers now p in
  ({| buttonText := "Refreshed!"; timers := timers p' ++ [now + 1000] |}, request).

(** Clicks at the given times, one after the other. *)
Definition clicks (times : list Z) (p : State) : State :=
  fold_left (fun p t => fst (click t p)) times p.

End Popup.

(* ===================================================================== *)
(** ** More sample data                                                   *)
(* ===================================================================== *)

Module Scenario.

(** A network that serves, for [xyz789], a page without a main region. *)
Definition shellEnv : Env :=
  {| fetchOutcome := fun url =>
       if String.eqb url "/dashboard/lists/xyz789"
       then Responds 80 {| status := 200; body := BodyText "shell" |} else Hangs;
     parseFromString := fun _ => [Element 1 "html" [] [Element 2 "body" [] []]] |}.

(** The sample page with a badge for "Later" that shows no number. *)
Definition unreadPage : Page :=
  {| document :=
       [Element 1 "html" []
          [Element 2 "body" []
             [Element 3 "aside" []
                [Element 4 "ul" []
                   [Sample.item 10 "/dashboard/lists/abc123" " Reading " "2";
                    Sample.item 20 "/dashboard/lists/xyz789" "Later" "n/a"]];
              Sample.mainRegion]]];
     pathname := "/dashboard/lists/abc123";
     getComputedStyle := Sample.style |}.

Definition unreadLater : ListInfo :=
  {| listId := "xyz789"; name := "Later"; link := 21%nat;
     countBadge := 22%nat; currentCount := 0 |}.

(** The user is on the bookmarks overview, not on a list page. *)
Definition overviewPage : Page :=
  {| document := Sample.doc; pathname := "/dashboard/bookmarks";
     getComputedStyle := Sample.style |}.

(** The sample page as the sample run leaves it: both badges corrected. *)
Definition settledPage : Page :=
  withDocument Sample.page
    (documentAfter (updateAllListCounts Sample.env 1700000000000 [0%nat; 1%nat]
                      constructor Sample.page)).

Definition call (now : Z) : Call :=
  {| callEnv := Sample.env; callNow := now; callOrder := [0%nat; 1%nat];
     callPage := Sample.page |}.

(** A mutation that inserts a wrapper holding the main region, one that
    inserts a text node, and one that only changes an attribute. *)
Definition insertsMain : MutationRecord :=
  {| mutationType := ChildList;
     addedNodes := [Element 50 "div" [] [Element 51 "section" [] [Sample.mainRegion]]] |}.
Definition insertsText : MutationRecord :=
  {| mutationType := ChildList; addedNodes := [TextNode "7"] |}.
Definition changesAttribute : MutationRecord :=
  {| mutationType := Attributes; addedNodes := [] |}.

Definition idlePopup : Popup.State :=
  {| Popup.buttonText := "Refresh Counts"; Popup.timers := [] |}.

End Scenario.

(* ===================================================================== *)
(** ** The next scan                                                      *)
(* ===================================================================== *)

(** The element holds text only: none of its children is an element. *)
Definition textOnly (n : Node) : bool :=
  forallb (fun c => negb (DOM.isElement c)) (DOM.childrenOf n).

(** Every element of the document with identity [k] holds text only. *)
Definition leafIn (k : nat) (doc : Document) : Prop :=
  forall e, In e (DOM.docElements doc) -> DOM.hasUid k e = true -> textOnly e = true.

(** The same within the subtree of a node. *)
Definition leafAt (k : nat) (n : Node) : Prop :=
  forall e, In e (DOM.elementsOf n) -> DOM.hasUid k e = true -> textOnly e = true.

(** The descriptor with another displayed count. *)
Definition setCurrentCount (n : Z) (info : ListInfo) : ListInfo :=
  {| listId := listId info; name := name info; link := link info;
     countBadge := countBadge info; currentCount := n |}.

(** The descriptor of a list as the scan finds it once [s] has been
    written into the badge [k]. *)
Definition rescanned (k : nat) (s : string) (info : ListInfo) : ListInfo :=
  if (countBadge info =? k)%nat
  then setCurrentCount (JS.orZero (JS.parseInt (JS.trim s))) info
  else info.

(** A located element after a write: the element and its ancestors. *)
Definition moved (k : nat) (s : string) (x : DOM.Located) : DOM.Located :=
  (DOM.setTextContent k s (fst x), map (DOM.setTextContent k s) (snd x)).

(** The badges of the sidebar are plain: every element that carries the
    identity of a scanned badge holds text only, and none lies in a list
    link of the sidebar. *)
Definition plainBadges (doc : Document) : Prop :=
  forall info, In info (findAllListLinks doc) ->
    leafIn (countBadge info) doc
    /\ (forall l, In l (sidebarLinks doc) -> inside (countBadge info) (fst l) = false).

(** No scanned badge lies in the main region. *)
Definition badgesOutsideMain (doc : Document) : Prop :=
  forall info main,
    In info (findAllListLinks doc) ->
    DOM.docQuerySelector mainSelector doc = Some main ->
    inside (countBadge info) main = false.

(** The two conditions, decided on the lists of the document's elements. *)
Definition plainBadgesb (doc : Document) : bool :=
  forallb (fun info =>
             forallb (fun e => implb (DOM.hasUid (countBadge info) e) (textOnly e))
                     (DOM.docElements doc)
             && forallb (fun l => negb (inside (countBadge info) (fst l)))
                        (sidebarLinks doc))
          (findAllListLinks doc).

Definition badgesOutsideMainb (doc : Document) : bool :=
  match DOM.docQuerySelector mainSelector doc with
  | Some main => forallb (fun info => negb (inside (countBadge info) main))
                         (findAllListLinks doc)
  | None => true
  end.

(** The descriptor of a list as the scan finds it after a sequence of
    events. *)
Definition rescannedAfter (ws : list Event) (info : ListInfo) : ListInfo :=
  fold_left (fun i e => match e with
                        | EvWrite k s => rescanned k s i
                        | _ => i
                        end) ws info.

(** The descriptor of a list as the next scan finds it when the list has
    resolved to [resolved] and its update has settled. *)
Definition shown (resolved : Completion (option Z)) (info : ListInfo) : ListInfo :=
  match resolved with
  | Fulfilled (Some n) => setCurrentCount n info
  | _ => info
  end.
(* ===================================================================== *)
(** ** The string primitives at work                                      *)
(* ===================================================================== *)

Example trim_strips_both_ends : JS.trim "  12 " = "12".
Proof. reflexivity. Qed.

Example split_list_href :
  JS.split "/lists/" "/dashboard/lists/abc123" = ["/dashboard"; "abc123"].
Proof. reflexivity. Qed.

Example split_without_separator : JS.split "/lists/" "/dashboard" = ["/dashboard"].
Proof. reflexivity. Qed.

Example split_twice :
  JS.split "/lists/" "/dashboard/lists/a/lists/b" = ["/dashboard"; "a"; "b"].
Proof. reflexivity. Qed.

Example parseInt_prefix : JS.parseInt "12abc" = Some 12.
Proof. reflexivity. Qed.

Example parseInt_nan : JS.parseInt "abc" = None.
Proof. reflexivity. Qed.

Example parseInt_hex : JS.parseInt "0x1f" = Some 31.
Proof. reflexivity. Qed.

Example parseInt_negative : JS.parseInt "-7" = Some (-7).
Proof. reflexivity. Qed.

Example toString_decimal : JS.toString 15 = "15" /\ JS.toString 0 = "0".
Proof. split; reflexivity. Qed.

Example toLowerCase_ascii : JS.toLowerCase "ArChIVED x" = "archived x".
Proof. reflexivity. Qed.

Example sample_scan : findAllListLinks Sample.doc = [Sample.reading; Sample.later].
Proof. reflexivity. Qed.

Example sample_counts :
  countBookmarksInDocument Sample.doc = 2
  /\ countVisibleBookmarks Sample.page = Some 1
  /\ countBookmarksInDocument Sample.laterDoc = 5.
Proof. repeat split; reflexivity. Qed.

Example sample_run :
  events (updateAllListCounts Sample.env 1700000000000 [0%nat; 1%nat]
            constructor Sample.page)
  = [EvQuerySidebar; EvScan; EvCountLive; EvFetch "/dashboard/lists/xyz789";
     EvWrite 12 "1"; EvWrite 22 "5"].
Proof. reflexivity. Qed.

(* ===================================================================== *)
(** ** Facts about lists and strings                                      *)
(* ===================================================================== *)

Lemma find_In_pred {A : Type} (f : A -> bool) (l : list A) (x : A) :
  find f l = Some x -> In x l /\ f x = true.
Proof.
  induction l as [|y l IH]; simpl; [discriminate|].
  destruct (f y) eqn:E.
  - intros [= ->]. auto.
  - intros H. destruct (IH H). auto.
Qed.

Lemma find_None_all {A : Type} (f : A -> bool) (l : list A) :
  find f l = None -> forall x, In x l -> f x = false.
Proof.
  induction l as [|y l IH]; simpl; [tauto|].
  destruct (f y) eqn:E; [discriminate|].
  intros H x [<-|Hx]; auto.
Qed.

Lemma lowerChar_whitespace (c : ascii) :
  JS.isWhiteSpace (JS.lowerChar c) = JS.isWhiteSpace c.
Proof. destruct c as [[] [] [] [] [] [] [] []]; reflexivity. Qed.

Lemma toLowerCase_trimStart (s : string) :
  JS.toLowerCase (JS.trimStart s) = JS.trimStart (JS.toLowerCase s).
Proof.
  induction s as [|c s IH]; simpl; [reflexivity|].
  rewrite lowerChar_whitespace. destruct (JS.isWhiteSpace c); simpl; auto.
Qed.

Lemma toLowerCase_trimEnd (s : string) :
  JS.toLowerCase (JS.trimEnd s) = JS.trimEnd (JS.toLowerCase s).
Proof.
  induction s as [|c s IH]; simpl; [reflexivity|].
  rewrite <- IH, lowerChar_whitespace.
  destruct (JS.trimEnd s); simpl; [destruct (JS.isWhiteSpace c)|]; reflexivity.
Qed.

(** Lower-casing and trimming commute. *)
Lemma toLowerCase_trim (s : string) :
  JS.toLowerCase (JS.trim s) = JS.trim (JS.toLowerCase s).
Proof. unfold JS.trim. now rewrite toLowerCase_trimEnd, toLowerCase_trimStart. Qed.

Lemma startsWith_nil (s : string) : JS.startsWith EmptyString s = true.
Proof. destruct s; reflexivity. Qed.

Lemma startsWith_cons (a c : ascii) (n s : string) :
  JS.startsWith (String a n) (String c s) = true <-> a = c /\ JS.startsWith n s = true.
Proof.
  unfold JS.startsWith; simpl. destruct (ascii_dec a c) as [->|Hne].
  - tauto.
  - split; [discriminate|]. intros [H _]. contradiction.
Qed.

Lemma includes_trimStart (needle s : string) :
  needle <> EmptyString -> noWhiteSpace needle = true ->
  JS.includes needle s = true -> JS.includes needle (JS.trimStart s) = true.
Proof.
  intros Hne Hws. destruct needle as [|a n]; [congruence|]. simpl in Hws.
  apply andb_prop in Hws as [Ha _]. apply negb_true_iff in Ha.
  induction s as [|c s IH]; [auto|].
  intros H. cbn [JS.trimStart]. destruct (JS.isWhiteSpace c) eqn:Ec; [|exact H].
  cbn [JS.includes] in H. apply orb_prop in H as [H|H].
  - apply startsWith_cons in H as [-> _]. congruence.
  - auto.
Qed.

Lemma startsWith_trimEnd (needle s : string) :
  needle <> EmptyString -> noWhiteSpace needle = true ->
  JS.startsWith needle s = true -> JS.startsWith needle (JS.trimEnd s) = true.
Proof.
  revert needle. induction s as [|c s IH]; intros needle Hne Hws H.
  - destruct needle; [congruence|discriminate H].
  - destruct needle as [|a n]; [congruence|].
    apply startsWith_cons in H as [-> Hn]. simpl in Hws.
    apply andb_prop in Hws as [Hc Hn']. apply negb_true_iff in Hc.
    cbn [JS.trimEnd]. destruct n as [|b n].
    + destruct (JS.trimEnd s); [rewrite Hc|]; apply startsWith_cons;
        split; auto using startsWith_nil.
    + assert (Hr : JS.startsWith (String b n) (JS.trimEnd s) = true)
        by (apply IH; [discriminate|assumption|assumption]).
      destruct (JS.trimEnd s) as [|d r]; [discriminate Hr|].
      apply startsWith_cons. auto.
Qed.

Lemma includes_cons (needle : string) (c : ascii) (s : string) :
  JS.includes needle s = true -> JS.includes needle (String c s) = true.
Proof. intros H. cbn [JS.includes]. rewrite H. apply orb_true_r. Qed.

Lemma includes_trimEnd (needle s : string) :
  needle <> EmptyString -> noWhiteSpace needle = true ->
  JS.includes needle s = true -> JS.includes needle (JS.trimEnd s) = true.
Proof.
  intros Hne Hws. induction s as [|c s IH]; intros H.
  - destruct needle; [congruence|discriminate H].
  - assert (Hcase : JS.startsWith needle (String c s) = true \/ JS.includes needle s = true).
    { cbn [JS.includes] in H. apply orb_prop in H. exact H. }
    destruct Hcase as [Hp|Hi].
    + apply (startsWith_trimEnd _ _ Hne Hws) in Hp.
      destruct (JS.trimEnd (String c s)); cbn [JS.includes]; rewrite Hp; reflexivity.
    + specialize (IH Hi). cbn [JS.trimEnd].
      destruct (JS.trimEnd s) as [|d r] eqn:Er.
      * destruct needle; [congruence|discriminate IH].
      * apply includes_cons. exact IH.
Qed.

(** Trimming cannot remove an occurrence of a word without white space. *)
Lemma includes_trim (needle s : string) :
  needle <> EmptyString -> noWhiteSpace needle = true ->
  JS.includes needle s = true -> JS.includes needle (JS.trim s) = true.
Proof.
  intros Hne Hws H. unfold JS.trim.
  apply includes_trimEnd; auto. apply includes_trimStart; auto.
Qed.

(* ===================================================================== *)
(** ** The page counter                                                   *)
(* ===================================================================== *)

Lemma documentCardStep_cases (v : Z) (card : Node) :
  documentCardStep v card = v \/ documentCardStep v card = v + 1.
Proof.
  unfold documentCardStep.
  destruct (isCandidate card); [destruct (negb (isArchivedInDocument card))|]; auto.
Qed.

Lemma visibleCardStep_cases (style : nat -> ComputedStyle) (v : Z) (card : Node) :
  visibleCardStep style v card = v \/ visibleCardStep style v card = v + 1.
Proof.
  unfold visibleCardStep.
  destruct (isCandidate card);
    [destruct (negb (isArchivedVisible (styleOfNode style card) card))|]; auto.
Qed.

(** A card that is not a candidate leaves both tallies alone. *)
Lemma not_candidate_not_counted (style : nat -> ComputedStyle) (v : Z) (card : Node) :
  isCandidate card = false ->
  documentCardStep v card = v /\ visibleCardStep style v card = v.
Proof. intros H. unfold documentCardStep, visibleCardStep. now rewrite H. Qed.

Lemma counted_is_candidate (style : nat -> ComputedStyle) (v : Z) (card : Node) :
  documentCardStep v card <> v \/ visibleCardStep style v card <> v ->
  isCandidate card = true.
Proof.
  intros H. destruct (isCandidate card) eqn:E; [reflexivity|].
  destruct (not_candidate_not_counted style v card E). tauto.
Qed.

Lemma hasExternalLink_sound (card a : Node) :
  hasExternalLink card = Some a ->
  In a (DOM.descendants card) /\ isExternalAnchor a.
Proof.
  unfold hasExternalLink, DOM.querySelector. intros H.
  apply find_In_pred in H as [Hin Hm]. split; [exact Hin|].
  unfold DOM.matches in Hm. cbn [externalLinkSelector DOM.selTag DOM.selAttr] in Hm.
  apply andb_prop in Hm as [Hm Hattr]. apply andb_prop in Hm as [Hm _].
  apply andb_prop in Hm as [_ Htag]. apply String.eqb_eq in Htag.
  split; [exact Htag|]. cbn [DOM.attrTestHolds] in Hattr.
  destruct (DOM.getAttribute "href" a) as [href|]; [|discriminate].
  exists href. auto.
Qed.

Lemma candidate_shape (card : Node) :
  isCandidate card = true ->
  (exists a, hasExternalLink card = Some a /\ In a (DOM.descendants card) /\ isExternalAnchor a)
  /\ 10 < textLength (cardText card) < 200.
Proof.
  unfold isCandidate. intros H.
  apply andb_prop in H as [H Hhi]. apply andb_prop in H as [Hlink Hlo].
  apply Z.ltb_lt in Hhi, Hlo. split; [|lia].
  destruct (hasExternalLink card) as [a|] eqn:E; [|discriminate].
  exists a. split; [reflexivity|]. now apply hasExternalLink_sound.
Qed.

Lemma length_out_of_range_not_candidate (card : Node) :
  textLength (cardText card) <= 10 \/ 200 <= textLength (cardText card) ->
  isCandidate card = false.
Proof.
  intros H. unfold isCandidate.
  destruct (10 <? textLength (cardText card)) eqn:Elo;
    destruct (textLength (cardText card) <? 200) eqn:Ehi;
    rewrite ?andb_false_r; try reflexivity.
  apply Z.ltb_lt in Elo, Ehi. lia.
Qed.

Lemma documentCardStep_shift (v : Z) (card : Node) :
  documentCardStep v card = v + documentCardStep 0 card.
Proof.
  unfold documentCardStep.
  destruct (isCandidate card); destruct (negb (isArchivedInDocument card)); lia.
Qed.

Lemma visibleCardStep_shift (style : nat -> ComputedStyle) (v : Z) (card : Node) :
  visibleCardStep style v card = v + visibleCardStep style 0 card.
Proof.
  unfold visibleCardStep.
  destruct (isCandidate card);
    destruct (negb (isArchivedVisible (styleOfNode style card) card)); lia.
Qed.

(** Each tally is the number of cards on which its step adds one. *)
Lemma fold_documentCardStep (cards : list Node) (v : Z) :
  fold_left documentCardStep cards v =
  v + Z.of_nat (List.length (List.filter (fun c => documentCardStep 0 c =? 1) cards)).
Proof.
  revert v. induction cards as [|c cards IH]; intros v; [simpl; lia|].
  cbn [fold_left List.filter]. rewrite IH, (documentCardStep_shift v c).
  destruct (documentCardStep_cases 0 c) as [E0|E0]; rewrite E0.
  - change (0 =? 1) with false. cbn iota. lia.
  - change (0 + 1 =? 1) with true. cbn iota. cbn [List.length].
    rewrite Nat2Z.inj_succ. lia.
Qed.

Lemma fold_visibleCardStep (style : nat -> ComputedStyle) (cards : list Node) (v : Z) :
  fold_left (visibleCardStep style) cards v =
  v + Z.of_nat (List.length (List.filter (fun c => visibleCardStep style 0 c =? 1) cards)).
Proof.
  revert v. induction cards as [|c cards IH]; intros v; [simpl; lia|].
  cbn [fold_left List.filter]. rewrite IH, (visibleCardStep_shift style v c).
  destruct (visibleCardStep_cases style 0 c) as [E0|E0]; rewrite E0.
  - change (0 =? 1) with false. cbn iota. lia.
  - change (0 + 1 =? 1) with true. cbn iota. cbn [List.length].
    rewrite Nat2Z.inj_succ. lia.
Qed.

Lemma countBookmarksInDocument_fold (doc : Document) :
  countBookmarksInDocument doc = fold_left documentCardStep (bookmarkCards doc) 0.
Proof.
  unfold countBookmarksInDocument, bookmarkCards.
  destruct (DOM.docQuerySelector mainSelector doc); reflexivity.
Qed.

Lemma countVisibleBookmarks_fold (p : Page) (main : Node) :
  DOM.docQuerySelector mainSelector (document p) = Some main ->
  countVisibleBookmarks p =
  Some (fold_left (visibleCardStep (getComputedStyle p)) (bookmarkCards (document p)) 0).
Proof.
  intros H. unfold countVisibleBookmarks, bookmarkCards. now rewrite H.
Qed.

Lemma filter_length_le_implied {A : Type} (f g : A -> bool) (l : list A) :
  (forall x, f x = true -> g x = true) ->
  (List.length (List.filter f l) <= List.length (List.filter g l))%nat.
Proof.
  intros H. induction l as [|x l IH]; simpl; [lia|].
  destruct (f x) eqn:Ef.
  - rewrite (H x Ef). simpl. lia.
  - destruct (g x); simpl; lia.
Qed.

Lemma step_one_is_candidate_doc (c : Node) :
  (documentCardStep 0 c =? 1) = true -> isCandidate c = true.
Proof.
  intros H. apply Z.eqb_eq in H. unfold documentCardStep in H.
  destruct (isCandidate c); [reflexivity|discriminate].
Qed.

Lemma step_one_is_candidate_visible (style : nat -> ComputedStyle) (c : Node) :
  (visibleCardStep style 0 c =? 1) = true -> isCandidate c = true.
Proof.
  intros H. apply Z.eqb_eq in H.
  apply (counted_is_candidate style 0 c). right. lia.
Qed.

(** C3, as stated, fails: the script tests only whether the [href] of some
    anchor begins with the four characters [http].  The sample card whose
    only link is the relative destination [http-tips/first-steps] holds no
    scheme-prefixed link and is counted by both functions. *)
Lemma relative_http_link_is_counted :
  ~ (forall (style : nat -> ComputedStyle) (card : Node) (validBookmarks : Z),
       documentCardStep validBookmarks card <> validBookmarks \/
       visibleCardStep style validBookmarks card <> validBookmarks ->
       hasSchemePrefixedLink card = true).
Proof.
  intros H.
  assert (Hcounted : documentCardStep 0 Sample.relativeCard <> 0 \/
                     visibleCardStep Sample.style 0 Sample.relativeCard <> 0)
    by (left; vm_compute; discriminate).
  specialize (H Sample.style Sample.relativeCard 0 Hcounted).
  vm_compute in H. discriminate H.
Qed.

(** C3, amended.  A card adds to the tally of [countBookmarksInDocument]
    or of [countVisibleBookmarks] only if it holds an anchor whose [href]
    begins with [http] and its trimmed text is longer than 10 and shorter
    than 200 code units; a card whose trimmed text has length at most 10 or
    at least 200 adds to neither tally, whatever else it carries.  Hence
    neither function returns more than the number of such candidates among
    the cards it enumerates. *)
Theorem only_valid_candidates_are_counted
    (style : nat -> ComputedStyle) (card : Node) (validBookmarks : Z) :
  (documentCardStep validBookmarks card <> validBookmarks \/
   visibleCardStep style validBookmarks card <> validBookmarks ->
     (exists a, hasExternalLink card = Some a /\
                In a (DOM.descendants card) /\ isExternalAnchor a)
     /\ 10 < textLength (cardText card) < 200)
  /\ (textLength (cardText card) <= 10 \/ 200 <= textLength (cardText card) ->
        documentCardStep validBookmarks card = validBookmarks /\
        visibleCardStep style validBookmarks card = validBookmarks)
  /\ (forall doc : Document,
        0 <= countBookmarksInDocument doc
          <= Z.of_nat (List.length (List.filter isCandidate (bookmarkCards doc))))
  /\ (forall (p : Page) (n : Z),
        countVisibleBookmarks p = Some n ->
        0 <= n <= Z.of_nat (List.length (List.filter isCandidate (bookmarkCards (document p))))).
Proof.
  split; [|split; [|split]].
  - intros H. apply candidate_shape. exact (counted_is_candidate style _ _ H).
  - intros H. apply not_candidate_not_counted.
    now apply length_out_of_range_not_candidate.
  - intros doc. rewrite countBookmarksInDocument_fold, fold_documentCardStep.
    pose proof (filter_length_le_implied _ isCandidate (bookmarkCards doc)
                  step_one_is_candidate_doc). lia.
  - intros p n Hn. unfold countVisibleBookmarks in Hn.
    destruct (DOM.docQuerySelector mainSelector (document p)) as [m|] eqn:Em;
      [|discriminate].
    injection Hn as <-.
    change (DOM.querySelectorAll cardSelector m) with
      (match Some m with Some main => DOM.querySelectorAll cardSelector main
                       | None => [] end).
    rewrite <- Em. fold (bookmarkCards (document p)).
    rewrite fold_visibleCardStep.
    pose proof (filter_length_le_implied _ isCandidate (bookmarkCards (document p))
                  (step_one_is_candidate_visible (getComputedStyle p))). lia.
Qed.

(** The short and the over-long sample cards are not counted although each
    links out and carries no archive marker; the good one is counted and is
    a valid candidate. *)
Lemma only_valid_candidates_are_counted_witness :
  (documentCardStep 0 Sample.shortCard = 0 /\
   visibleCardStep Sample.style 0 Sample.shortCard = 0)
  /\ (documentCardStep 0 Sample.longCard = 0 /\
      visibleCardStep Sample.style 0 Sample.longCard = 0)
  /\ 10 < textLength (cardText Sample.goodCard) < 200.
Proof.
  split; [|split].
  - apply (only_valid_candidates_are_counted Sample.style Sample.shortCard 0).
    left. vm_compute. discriminate.
  - apply (only_valid_candidates_are_counted Sample.style Sample.longCard 0).
    right. vm_compute. discriminate.
  - apply (only_valid_candidates_are_counted Sample.style Sample.goodCard 0).
    left. vm_compute. discriminate.
Defined.

(* ===================================================================== *)
(** ** The bookmark classifier                                            *)
(* ===================================================================== *)

(** The live classifier is the document classifier plus the style signals. *)
Lemma isArchivedVisible_split (st : ComputedStyle) (card : Node) :
  isArchivedVisible st card = isArchivedInDocument card || styleArchived st.
Proof.
  unfold isArchivedVisible, isArchivedInDocument, styleArchived.
  destruct (JS.includes "archived" (JS.toLowerCase (cardText card)));
    destruct (JS.includes "archived" (JS.toLowerCase (DOM.className card)));
    destruct (opacityBelowOne st); destruct (display st =? "none")%string;
    destruct (DOM.hasAttribute "data-archived" card); reflexivity.
Qed.

Lemma archived_not_counted_document (v : Z) (card : Node) :
  isArchivedInDocument card = true -> documentCardStep v card = v.
Proof.
  intros H. unfold documentCardStep. rewrite H. now destruct (isCandidate card).
Qed.

Lemma archived_not_counted_visible (style : nat -> ComputedStyle) (v : Z) (card : Node) :
  isArchivedVisible (styleOfNode style card) card = true ->
  visibleCardStep style v card = v.
Proof.
  intros H. unfold visibleCardStep. rewrite H. now destruct (isCandidate card).
Qed.

Lemma raw_text_archived (card : Node) :
  JS.includes "archived" (JS.toLowerCase (DOM.textContent card)) = true ->
  JS.includes "archived" (JS.toLowerCase (cardText card)) = true.
Proof.
  intros H. unfold cardText. rewrite toLowerCase_trim.
  apply includes_trim; [discriminate|reflexivity|exact H].
Qed.

(** C4.  A card whose text contains "archived" in any letter case (before
    or after trimming), whose class attribute contains "archived" in any
    letter case, or which carries the [data-archived] attribute is
    classified archived by both classifiers, whatever the computed style,
    and adds to neither tally, whether or not it is a valid candidate. *)
Theorem archived_entries_are_never_counted
    (style : nat -> ComputedStyle) (card : Node) (validBookmarks : Z) :
  JS.includes "archived" (JS.toLowerCase (DOM.textContent card)) = true \/
  JS.includes "archived" (JS.toLowerCase (cardText card)) = true \/
  JS.includes "archived" (JS.toLowerCase (DOM.className card)) = true \/
  DOM.hasAttribute "data-archived" card = true ->
  isArchivedInDocument card = true
  /\ (forall st : ComputedStyle, isArchivedVisible st card = true)
  /\ documentCardStep validBookmarks card = validBookmarks
  /\ visibleCardStep style validBookmarks card = validBookmarks.
Proof.
  intros H.
  assert (Hdoc : isArchivedInDocument card = true).
  { unfold isArchivedInDocument.
    destruct H as [H|[H|[H|H]]].
    - apply raw_text_archived in H. now rewrite H.
    - now rewrite H.
    - rewrite H. apply orb_true_iff. left. apply orb_true_r.
    - rewrite H. apply orb_true_r. }
  assert (Hvis : forall st, isArchivedVisible st card = true)
    by (intros st; now rewrite isArchivedVisible_split, Hdoc).
  split; [exact Hdoc|]. split; [exact Hvis|]. split.
  - now apply archived_not_counted_document.
  - apply archived_not_counted_visible. apply Hvis.
Qed.

(** The three marked sample cards are candidates and yet not counted. *)
Lemma archived_entries_are_never_counted_witness :
  (isCandidate Sample.archivedTextCard = true /\
   documentCardStep 0 Sample.archivedTextCard = 0 /\
   visibleCardStep Sample.style 0 Sample.archivedTextCard = 0)
  /\ documentCardStep 0 Sample.archivedClassCard = 0
  /\ visibleCardStep Sample.style 0 Sample.archivedAttrCard = 0.
Proof.
  split; [split; [reflexivity|]|split].
  - apply (archived_entries_are_never_counted Sample.style Sample.archivedTextCard 0).
    left. reflexivity.
  - apply (archived_entries_are_never_counted Sample.style Sample.archivedClassCard 0).
    right. right. left. reflexivity.
  - apply (archived_entries_are_never_counted Sample.style Sample.archivedAttrCard 0).
    right. right. right. reflexivity.
Defined.

(* ===================================================================== *)
(** ** A missing main region                                              *)
(* ===================================================================== *)


Lemma finishUpdate_null (info : ListInfo) (doc : Document) :
  finishUpdate info (Fulfilled None) doc = (doc, [], Fulfilled tt).
Proof. reflexivity. Qed.



(* ===================================================================== *)
(** ** Which path resolves a list                                         *)
(* ===================================================================== *)

Lemma hidden_not_counted (style : nat -> ComputedStyle) (v : Z) (card : Node) :
  hiddenByStyle style card = true -> visibleCardStep style v card = v.
Proof.
  intros H. apply archived_not_counted_visible.
  rewrite isArchivedVisible_split. unfold hiddenByStyle in H. rewrite H.
  apply orb_true_r.
Qed.

Lemma shown_counted_alike (style : nat -> ComputedStyle) (v : Z) (card : Node) :
  hiddenByStyle style card = false ->
  visibleCardStep style v card = documentCardStep v card.
Proof.
  intros H. unfold visibleCardStep, documentCardStep.
  rewrite isArchivedVisible_split. unfold hiddenByStyle in H. rewrite H.
  now rewrite orb_false_r.
Qed.

(** The live tally is the document tally over the cards that no style
    signal hides. *)
Lemma fold_visible_as_document (style : nat -> ComputedStyle) (cards : list Node) (v : Z) :
  fold_left (visibleCardStep style) cards v =
  fold_left documentCardStep
            (List.filter (fun c => negb (hiddenByStyle style c)) cards) v.
Proof.
  revert v. induction cards as [|c cards IH]; intros v; [reflexivity|].
  cbn [fold_left List.filter]. destruct (hiddenByStyle style c) eqn:E; cbn [negb].
  - rewrite (hidden_not_counted _ _ _ E). apply IH.
  - cbn [fold_left]. rewrite (shown_counted_alike _ _ _ E). apply IH.
Qed.

Lemma filter_all_true {A : Type} (f : A -> bool) (l : list A) :
  (forall x, In x l -> f x = true) -> List.filter f l = l.
Proof.
  induction l as [|x l IH]; intros H; [reflexivity|].
  cbn [List.filter]. rewrite (H x (or_introl eq_refl)). f_equal.
  apply IH. intros y Hy. apply H. now right.
Qed.

(** C6, as stated, fails: with no style signal in play the two counting
    functions still differ on a page without a main region. *)
Lemma counting_paths_differ_without_main :
  ~ (forall p : Page,
       (forall card, In card (bookmarkCards (document p)) ->
                     hiddenByStyle (getComputedStyle p) card = false) ->
       countVisibleBookmarks p = Some (countBookmarksInDocument (document p))).
Proof.
  intros H. specialize (H Sample.pageWithoutMain).
  assert (Hno : forall card, In card (bookmarkCards (document Sample.pageWithoutMain)) ->
                hiddenByStyle (getComputedStyle Sample.pageWithoutMain) card = false)
    by (intros card []).
  specialize (H Hno). vm_compute in H. discriminate H.
Qed.

Lemma isCurrentList_iff (p : Page) (id : string) :
  isCurrentList p id = true <-> listIdOf (pathname p) = Some id.
Proof.
  unfold isCurrentList. destruct (listIdOf (pathname p)) as [cur|].
  - rewrite String.eqb_eq. split; [now intros ->|now intros [= ->]].
  - split; discriminate.
Qed.

Lemma fetch_success (env : Env) (id : string) (latency : Z) (r : Response) (html : string) :
  fetchOutcome env (listUrl id) = Responds latency r ->
  latency < fetchTimeout -> ok r = true -> body r = BodyText html ->
  fetchListBookmarkCount env id =
  Fulfilled (Some (countBookmarksInDocument (parseFromString env html))).
Proof.
  intros Ho Hl Hok Hb. unfold fetchListBookmarkCount, fetchWithSignal. rewrite Ho.
  apply Z.ltb_lt in Hl. rewrite Hl. cbn [andThen]. rewrite Hok. cbn [negb].
  unfold responseText. rewrite Hb. reflexivity.
Qed.

(** C6, amended.  A list is resolved from the live page exactly when its
    [listId] is the one extracted from the current path, and by fetching
    and counting the parsed response otherwise - on every page, with or
    without a main region.  The two classifiers differ only in the style
    signals.  On a page that has a main region the live count is the
    document count taken over the cards that no style signal hides, and the
    two counts coincide when no card is hidden; on a page without a main
    region the live count is [null] and the document count is 0. *)
Theorem resolution_paths (env : Env) (p : Page) (id : string) :
  (isCurrentList p id = true <-> listIdOf (pathname p) = Some id)
  /\ (isCurrentList p id = true ->
        getUnarchivedCountForList env p id = Fulfilled (countVisibleBookmarks p) /\
        resolutionEvents p id = [EvCountLive])
  /\ (isCurrentList p id = false ->
        getUnarchivedCountForList env p id = fetchListBookmarkCount env id /\
        resolutionEvents p id = [EvFetch (listUrl id)] /\
        forall latency r html,
          fetchOutcome env (listUrl id) = Responds latency r ->
          latency < fetchTimeout -> ok r = true -> body r = BodyText html ->
          fetchListBookmarkCount env id =
          Fulfilled (Some (countBookmarksInDocument (parseFromString env html))))
  /\ (forall st card,
        isArchivedVisible st card = isArchivedInDocument card || styleArchived st)
  /\ (forall main,
        DOM.docQuerySelector mainSelector (document p) = Some main ->
        countVisibleBookmarks p =
          Some (fold_left documentCardStep
                  (List.filter (fun c => negb (hiddenByStyle (getComputedStyle p) c))
                               (bookmarkCards (document p))) 0)
        /\ ((forall card, In card (bookmarkCards (document p)) ->
                          hiddenByStyle (getComputedStyle p) card = false) ->
            countVisibleBookmarks p = Some (countBookmarksInDocument (document p))))
  /\ (DOM.docQuerySelector mainSelector (document p) = None ->
      countVisibleBookmarks p = None /\ countBookmarksInDocument (document p) = 0).
Proof.
  split; [apply isCurrentList_iff|].
  split; [|split; [|split; [|split]]].
  - intros H. unfold getUnarchivedCountForList, resolutionEvents. now rewrite H.
  - intros H. unfold getUnarchivedCountForList, resolutionEvents. rewrite H.
    split; [reflexivity|]. split; [reflexivity|]. intros. eapply fetch_success; eauto.
  - apply isArchivedVisible_split.
  - intros main Hmain.
    assert (Hlive : countVisibleBookmarks p =
                    Some (fold_left documentCardStep
                            (List.filter (fun c => negb (hiddenByStyle (getComputedStyle p) c))
                                         (bookmarkCards (document p))) 0)).
    { rewrite (countVisibleBookmarks_fold p main Hmain). f_equal.
      apply fold_visible_as_document. }
    split; [exact Hlive|].
    intros Hshown. rewrite Hlive, countBookmarksInDocument_fold. f_equal. f_equal.
    apply filter_all_true. intros c Hc. now rewrite (Hshown c Hc).
  - intros Hnone. unfold countVisibleBookmarks, countBookmarksInDocument.
    now rewrite Hnone.
Qed.

(** On the sample page the list being viewed is counted live, to 1; the
    other list is fetched and counted to 5.  Before the main region is
    rendered the live count is [null] and the document count 0. *)
Lemma resolution_paths_witness :
  getUnarchivedCountForList Sample.env Sample.page "abc123" = Fulfilled (Some 1)
  /\ getUnarchivedCountForList Sample.env Sample.page "xyz789" = Fulfilled (Some 5)
  /\ countVisibleBookmarks Sample.page = Some 1
  /\ (countVisibleBookmarks Sample.pageWithoutMain = None /\
      countBookmarksInDocument (document Sample.pageWithoutMain) = 0).
Proof.
  destruct (resolution_paths Sample.env Sample.page "abc123")
    as (_ & Hcur & _ & _ & Hmain & _).
  destruct (resolution_paths Sample.env Sample.page "xyz789")
    as (_ & _ & Hother & _).
  destruct (resolution_paths Sample.env Sample.pageWithoutMain "abc123")
    as (_ & _ & _ & _ & _ & Hnone).
  split; [|split; [|split]].
  - destruct (Hcur eq_refl) as [-> _]. reflexivity.
  - destruct (Hother eq_refl) as (-> & _ & Hfetch).
    rewrite (Hfetch 120 Sample.okResponse "later" eq_refl eq_refl eq_refl eq_refl).
    reflexivity.
  - destruct (Hmain Sample.mainRegion eq_refl) as [-> _]. reflexivity.
  - exact (Hnone eq_refl).
Defined.

(* ===================================================================== *)
(** ** The remote fetcher                                                 *)
(* ===================================================================== *)

Lemma fetch_never_rejects (env : Env) (id : string) (e : JSError) :
  fetchListBookmarkCount env id <> Rejected e.
Proof.
  unfold fetchListBookmarkCount.
  destruct (fetchWithSignal (fetchOutcome env (listUrl id))) as [response|e'|];
    cbn [andThen tryCatch]; try discriminate.
  destruct (negb (ok response)); cbn [tryCatch]; [discriminate|].
  destruct (responseText response); cbn [andThen tryCatch]; discriminate.
Qed.







(* ===================================================================== *)
(** ** The cooldown gate                                                  *)
(* ===================================================================== *)

(** The three early exits of [updateAllListCounts], then the run proper. *)
Ltac run_cases :=
  unfold updateAllListCountsWith;
  match goal with
  | |- context [?now - lastUpdateTime ?c <? updateCooldown ?c] =>
      destruct (now - lastUpdateTime c <? updateCooldown c); [reflexivity|]
  end;
  match goal with
  | |- context [DOM.docQuerySelector asideSelector ?doc] =>
      destruct (DOM.docQuerySelector asideSelector doc); [|reflexivity];
      destruct (List.length (findAllListLinks doc) =? 0)%nat; [reflexivity|]
  end.

Section Gate.

Variable resolve : string -> Completion (option Z).
Variable resolveEvents : string -> list Event.

Lemma gate_closed (now : Z) (order : list nat) (c : Counter) (doc : Document) :
  now - lastUpdateTime c < updateCooldown c ->
  updateAllListCountsWith resolve resolveEvents now order c doc = idleRun c doc [].
Proof.
  intros H. unfold updateAllListCountsWith. apply Z.ltb_lt in H. now rewrite H.
Qed.

Lemma reconcile_counter (now : Z) (order : list nat) (c : Counter) (doc : Document)
      (listLinks : list ListInfo) :
  counterAfter (reconcile resolve resolveEvents now order c doc listLinks)
  = setLastUpdateTime now c.
Proof.
  unfold reconcile.
  destruct (settleAll order (startUpdates resolve listLinks) doc) as [[d w] r].
  reflexivity.
Qed.

Lemma gate_open_counter (now : Z) (order : list nat) (c : Counter) (doc : Document) :
  updateCooldown c <= now - lastUpdateTime c ->
  counterAfter (updateAllListCountsWith resolve resolveEvents now order c doc)
  = if pageReady doc then setLastUpdateTime now c else c.
Proof.
  intros H. unfold updateAllListCountsWith, pageReady.
  apply Z.ltb_ge in H. rewrite H.
  destruct (DOM.docQuerySelector asideSelector doc); cbn [isSome andb]; [|reflexivity].
  destruct (List.length (findAllListLinks doc) =? 0)%nat; cbn [negb]; [reflexivity|].
  apply reconcile_counter.
Qed.

Lemma gate_open_events (now : Z) (order : list nat) (c : Counter) (doc : Document) :
  updateCooldown c <= now - lastUpdateTime c ->
  exists rest,
    events (updateAllListCountsWith resolve resolveEvents now order c doc)
    = EvQuerySidebar :: rest.
Proof.
  intros H. unfold updateAllListCountsWith. apply Z.ltb_ge in H. rewrite H.
  destruct (DOM.docQuerySelector asideSelector doc); [|cbn; eauto].
  destruct (List.length (findAllListLinks doc) =? 0)%nat; [cbn; eauto|].
  unfold reconcile.
  destruct (settleAll order (startUpdates resolve (findAllListLinks doc)) doc) as [[d w] r].
  cbn. eauto.
Qed.

Lemma run_keeps_cooldown (now : Z) (order : list nat) (c : Counter) (doc : Document) :
  updateCooldown (counterAfter (updateAllListCountsWith resolve resolveEvents now order c doc))
  = updateCooldown c.
Proof. run_cases. now rewrite reconcile_counter. Qed.

Lemma run_keeps_listCounts (now : Z) (order : list nat) (c : Counter) (doc : Document) :
  listCounts (counterAfter (updateAllListCountsWith resolve resolveEvents now order c doc))
  = listCounts c.
Proof. run_cases. now rewrite reconcile_counter. Qed.

End Gate.

(** C2.  A call of [updateAllListCounts] made less than [updateCooldown]
    (10000 ms) after [lastUpdateTime] returns at once: counter and document
    are unchanged and nothing is queried, scanned, fetched or written.  The
    first call on a fresh counter passes the gate (the clock reads at least
    10000 ms past the epoch).  A call that passes the gate sets
    [lastUpdateTime] to the current time exactly when the page is ready
    (sidebar present, at least one list found), whatever the lists resolve
    to and in whatever order they settle; and a further call made within
    the cooldown of such a run changes nothing and writes nothing. *)
Theorem cooldown_gate (env : Env) (now : Z) (order : list nat) (c : Counter) (p : Page) :
  (now - lastUpdateTime c < updateCooldown c ->
     updateAllListCounts env now order c p = idleRun c (document p) [])
  /\ (updateCooldown constructor = 10000 /\
      (updateCooldown constructor <= now ->
       exists rest,
         events (updateAllListCounts env now order constructor p) = EvQuerySidebar :: rest))
  /\ (updateCooldown c <= now - lastUpdateTime c ->
      (pageReady (document p) = false ->
         counterAfter (updateAllListCounts env now order c p) = c)
      /\ (pageReady (document p) = true ->
          (forall resolve resolveEvents order',
             counterAfter (updateAllListCountsWith resolve resolveEvents now order' c
                             (document p)) = setLastUpdateTime now c)
          /\ forall env' now' order' p',
               now' - now < updateCooldown c ->
               updateAllListCounts env' now' order'
                 (counterAfter (updateAllListCounts env now order c p)) p'
               = idleRun (setLastUpdateTime now c) (document p') [])).
Proof.
  split; [|split; [split; [reflexivity|]|]].
  - apply gate_closed.
  - intros H. apply gate_open_events. cbn [lastUpdateTime constructor] in *. lia.
  - intros Hopen. split.
    + intros Hnr. unfold updateAllListCounts. rewrite gate_open_counter by exact Hopen.
      now rewrite Hnr.
    + intros Hr. split.
      * intros resolve resolveEvents order'.
        rewrite gate_open_counter by exact Hopen. now rewrite Hr.
      * intros env' now' order' p' Hnear. unfold updateAllListCounts at 2.
        rewrite gate_open_counter by exact Hopen. rewrite Hr.
        apply gate_closed. cbn [lastUpdateTime updateCooldown setLastUpdateTime]. exact Hnear.
Qed.

(** Two calls two seconds apart on the sample page: the first runs, the
    second does nothing. *)
Lemma cooldown_gate_witness :
  lastUpdateTime (counterAfter
    (updateAllListCounts Sample.env 1700000000000 [0%nat; 1%nat] constructor Sample.page))
  = 1700000000000
  /\ events (updateAllListCounts Sample.env 1700000002000 [0%nat; 1%nat]
       (counterAfter
          (updateAllListCounts Sample.env 1700000000000 [0%nat; 1%nat] constructor Sample.page))
       Sample.page) = [].
Proof.
  destruct (cooldown_gate Sample.env 1700000000000 [0%nat; 1%nat] constructor Sample.page)
    as (_ & _ & H).
  assert (Hopen : updateCooldown constructor <= 1700000000000 - lastUpdateTime constructor)
    by (vm_compute; discriminate).
  destruct (H Hopen) as [_ Hready]. destruct (Hready eq_refl) as [Hset Hnext].
  split.
  - unfold updateAllListCounts. rewrite Hset. reflexivity.
  - rewrite (Hnext Sample.env 1700000002000 [0%nat; 1%nat] Sample.page); [reflexivity|].
    vm_compute. reflexivity.
Defined.

(* ===================================================================== *)
(** ** Facts about the DOM                                                *)
(* ===================================================================== *)

Lemma Node_induction (P : Node -> Prop) :
  (forall d, P (TextNode d)) ->
  (forall u t a cs, Forall P cs -> P (Element u t a cs)) ->
  forall n, P n.
Proof.
  intros Htext Helem.
  refine (fix IH (n : Node) : P n :=
            match n with
            | TextNode d => Htext d
            | Element u t a cs =>
                Helem u t a cs
                  ((fix all (l : list Node) : Forall P l :=
                      match l with
                      | [] => List.Forall_nil P
                      | c :: l' => List.Forall_cons P c l' (IH c) (all l')
                      end) cs)
            end).
Qed.

Lemma elementsOf_trans (x y z : Node) :
  In y (DOM.elementsOf x) -> In z (DOM.elementsOf y) -> In z (DOM.elementsOf x).
Proof.
  revert y z. induction x as [d|u t a cs IH] using Node_induction; intros y z Hy Hz.
  - destruct Hy.
  - cbn [DOM.elementsOf] in Hy. destruct Hy as [<-|Hy]; [exact Hz|].
    cbn [DOM.elementsOf]. right. apply in_flat_map in Hy as (c & Hc & Hy).
    apply in_flat_map. exists c. split; [exact Hc|].
    rewrite List.Forall_forall in IH. exact (IH c Hc y z Hy Hz).
Qed.

Lemma descendants_elementsOf (x z : Node) :
  In z (DOM.descendants x) -> In z (DOM.elementsOf x).
Proof.
  destruct x as [d|u t a cs]; [intros []|].
  unfold DOM.descendants. cbn [DOM.childrenOf DOM.elementsOf]. now right.
Qed.

Lemma locate_fst (anc : list Node) (x : Node) :
  map fst (DOM.locate anc x) = DOM.elementsOf x.
Proof.
  revert anc. induction x as [d|u t a cs IH] using Node_induction; intros anc.
  - reflexivity.
  - cbn [DOM.locate DOM.elementsOf map fst]. f_equal.
    generalize (Element u t a cs :: anc). intros anc'.
    induction cs as [|c cs IHcs]; [reflexivity|].
    inversion IH as [|? ? Hc Hcs]; subst.
    cbn [flat_map]. rewrite map_app, Hc. f_equal. exact (IHcs Hcs).
Qed.

Lemma docLocated_fst (doc : Document) :
  map fst (DOM.docLocated doc) = DOM.docElements doc.
Proof.
  unfold DOM.docLocated, DOM.docElements.
  induction doc as [|x doc IH]; [reflexivity|].
  cbn [flat_map]. rewrite map_app, locate_fst. f_equal. exact IH.
Qed.

(** The ancestors recorded for a located element were either given or are
    elements of the traversed tree. *)
Lemma locate_ancestors (anc : list Node) (x : Node) (l : DOM.Located) :
  In l (DOM.locate anc x) ->
  In (fst l) (DOM.elementsOf x) /\
  forall a, In a (snd l) -> In a anc \/ In a (DOM.elementsOf x).
Proof.
  revert anc l. induction x as [d|u t a cs IH] using Node_induction; intros anc l Hl.
  - destruct Hl.
  - cbn [DOM.locate] in Hl. destruct Hl as [<-|Hl].
    + cbn [fst snd DOM.elementsOf]. split; [now left|]. intros b Hb. now left.
    + apply in_flat_map in Hl as (c & Hc & Hl). rewrite List.Forall_forall in IH.
      destruct (IH c Hc _ _ Hl) as [Hfst Hanc]. cbn [DOM.elementsOf]. split.
      * right. apply in_flat_map. eauto.
      * intros b Hb. destruct (Hanc b Hb) as [[<-|Hb']|Hb'].
        -- right. now left.
        -- now left.
        -- right. right. apply in_flat_map. eauto.
Qed.

(** What is located below a located element is located by the same
    traversal. *)
Lemma locate_below (anc : list Node) (x : Node) (l l' : DOM.Located) :
  In l (DOM.locate anc x) -> In l' (DOM.locatedDescendants l) ->
  In l' (DOM.locate anc x).
Proof.
  revert anc l l'. induction x as [d|u t a cs IH] using Node_induction;
    intros anc l l' Hl Hl'.
  - destruct Hl.
  - cbn [DOM.locate] in Hl |- *. destruct Hl as [<-|Hl].
    + right. exact Hl'.
    + right. apply in_flat_map in Hl as (c & Hc & Hl). rewrite List.Forall_forall in IH.
      apply in_flat_map. exists c. split; [exact Hc|]. exact (IH c Hc _ _ _ Hl Hl').
Qed.

Lemma docLocated_below (doc : Document) (l l' : DOM.Located) :
  In l (DOM.docLocated doc) -> In l' (DOM.locatedDescendants l) ->
  In l' (DOM.docLocated doc).
Proof.
  unfold DOM.docLocated. intros Hl Hl'.
  apply in_flat_map in Hl as (x & Hx & Hl). apply in_flat_map.
  exists x. split; [exact Hx|]. eapply locate_below; eauto.
Qed.

(** A located element and all its ancestors are elements of the document. *)
Lemma docLocated_attached (doc : Document) (l : DOM.Located) (n : Node) :
  In l (DOM.docLocated doc) -> In n (fst l :: snd l) -> In n (DOM.docElements doc).
Proof.
  unfold DOM.docLocated, DOM.docElements. intros Hl Hn.
  apply in_flat_map in Hl as (x & Hx & Hl).
  destruct (locate_ancestors _ _ _ Hl) as [Hfst Hanc].
  apply in_flat_map. exists x. split; [exact Hx|].
  destruct Hn as [<-|Hn]; [exact Hfst|].
  destruct (Hanc n Hn) as [[]|H]. exact H.
Qed.

Lemma docElements_below (doc : Document) (x z : Node) :
  In x (DOM.docElements doc) -> In z (DOM.descendants x) -> In z (DOM.docElements doc).
Proof.
  unfold DOM.docElements. intros Hx Hz.
  apply in_flat_map in Hx as (r & Hr & Hx). apply in_flat_map.
  exists r. split; [exact Hr|].
  eapply elementsOf_trans; [exact Hx|]. now apply descendants_elementsOf.
Qed.

Lemma find_app {A : Type} (f : A -> bool) (l1 l2 : list A) :
  find f (l1 ++ l2) = match find f l1 with
                      | Some x => Some x
                      | None => find f l2
                      end.
Proof.
  induction l1 as [|x l1 IH]; [reflexivity|].
  cbn [app find]. destruct (f x); auto.
Qed.

Lemma find_exists {A : Type} (f : A -> bool) (l : list A) (x : A) :
  In x l -> f x = true -> exists y, find f l = Some y.
Proof.
  induction l as [|z l IH]; [intros []|].
  intros [->|Hx] Hf; cbn [find].
  - rewrite Hf. eauto.
  - destruct (f z); eauto.
Qed.

(** Reading an element back after a write to it. *)
Lemma find_after_set (k : nat) (s : string) (n : Node) :
  find (DOM.hasUid k) (DOM.elementsOf (DOM.setTextContent k s n))
  = option_map (DOM.setTextContent k s) (find (DOM.hasUid k) (DOM.elementsOf n)).
Proof.
  induction n as [d|u t a cs IH] using Node_induction; [reflexivity|].
  cbn [DOM.setTextContent]. destruct (u =? k)%nat eqn:E.
  - cbn [DOM.elementsOf find DOM.hasUid DOM.uidOf]. rewrite E.
    cbn [option_map DOM.setTextContent]. rewrite E. reflexivity.
  - cbn [DOM.elementsOf find DOM.hasUid DOM.uidOf]. rewrite E.
    induction cs as [|c cs IHcs]; [reflexivity|].
    inversion IH as [|? ? Hc Hcs]; subst.
    cbn [map flat_map]. rewrite !find_app, Hc, (IHcs Hcs).
    destruct (find (DOM.hasUid k) (DOM.elementsOf c)); reflexivity.
Qed.

Lemma getElementByUid_after_write (k : nat) (s : string) (doc : Document) :
  DOM.getElementByUid k (DOM.writeText k s doc)
  = option_map (DOM.setTextContent k s) (DOM.getElementByUid k doc).
Proof.
  unfold DOM.getElementByUid, DOM.writeText, DOM.docElements.
  induction doc as [|x doc IH]; [reflexivity|].
  cbn [map flat_map]. rewrite !find_app, find_after_set, IH.
  destruct (find (DOM.hasUid k) (DOM.elementsOf x)); reflexivity.
Qed.

Lemma append_empty_r (s : string) : (s ++ "")%string = s.
Proof.
  induction s as [|c s IH]; [reflexivity|].
  change (String c (s ++ "")%string = String c s). now rewrite IH.
Qed.

Lemma textContent_after_set (k : nat) (s : string) (b : Node) :
  DOM.uidOf b = Some k -> DOM.textContent (DOM.setTextContent k s b) = s.
Proof.
  destruct b as [d|u t a cs]; [discriminate|].
  intros [= ->]. cbn [DOM.setTextContent]. rewrite Nat.eqb_refl.
  destruct s as [|c s]; [reflexivity|].
  change (String c (s ++ "")%string = String c s). now rewrite append_empty_r.
Qed.

Lemma getElementByUid_uid (k : nat) (doc : Document) (b : Node) :
  DOM.getElementByUid k doc = Some b -> DOM.uidOf b = Some k /\ In b (DOM.docElements doc).
Proof.
  unfold DOM.getElementByUid. intros H. apply find_In_pred in H as [Hin Hb].
  split; [|exact Hin]. unfold DOM.hasUid in Hb.
  destruct (DOM.uidOf b) as [u|]; [|discriminate].
  apply Nat.eqb_eq in Hb. now subst.
Qed.

(** Writing to an attached element makes its text the written string. *)
Lemma written_text_is_read_back (k : nat) (s : string) (doc : Document) (b : Node) :
  In b (DOM.docElements doc) -> DOM.uidOf b = Some k ->
  exists b', DOM.getElementByUid k (DOM.writeText k s doc) = Some b' /\
             DOM.uidOf b' = Some k /\ DOM.textContent b' = s.
Proof.
  intros Hin Hu.
  destruct (find_exists (DOM.hasUid k) (DOM.docElements doc) b Hin) as [b0 Hb0].
  { unfold DOM.hasUid. rewrite Hu. apply Nat.eqb_refl. }
  assert (Hget : DOM.getElementByUid k doc = Some b0) by exact Hb0.
  destruct (getElementByUid_uid _ _ _ Hget) as [Hu0 _].
  exists (DOM.setTextContent k s b0). rewrite getElementByUid_after_write, Hget.
  split; [reflexivity|]. split.
  - destruct b0 as [d|u t a cs]; [discriminate|]. cbn [DOM.setTextContent].
    destruct (u =? k)%nat; exact Hu0.
  - now apply textContent_after_set.
Qed.

(* ===================================================================== *)
(** ** The directory scan: where descriptors come from                    *)
(* ===================================================================== *)

Lemma fold_pushScanned (links : list DOM.Located) (acc : list ListInfo) :
  fold_left pushScanned links acc = acc ++ flat_map descriptorsOf links.
Proof.
  revert acc. induction links as [|l links IH]; intros acc.
  - cbn. now rewrite app_nil_r.
  - cbn [fold_left flat_map]. rewrite IH. unfold pushScanned, descriptorsOf.
    destruct (scanLink l); [now rewrite <- app_assoc|reflexivity].
Qed.

(** The scan yields, in document order, the descriptor of every sidebar
    link that is not skipped. *)
Lemma findAllListLinks_flat_map (doc : Document) :
  findAllListLinks doc = flat_map descriptorsOf (sidebarLinks doc).
Proof.
  unfold findAllListLinks, sidebarLinks.
  destruct (DOM.docQuerySelectorLocated asideSelector doc); [|reflexivity].
  apply fold_pushScanned.
Qed.

Lemma scanned_from_link (doc : Document) (info : ListInfo) :
  In info (findAllListLinks doc) ->
  exists l, In l (sidebarLinks doc) /\ scanLink l = Some info.
Proof.
  rewrite findAllListLinks_flat_map. intros H.
  apply in_flat_map in H as (l & Hl & H). exists l. split; [exact Hl|].
  unfold descriptorsOf in H. destruct (scanLink l) as [i|]; [|destruct H].
  destruct H as [->|[]]. reflexivity.
Qed.

Lemma sidebarLinks_located (doc : Document) (l : DOM.Located) :
  In l (sidebarLinks doc) -> In l (DOM.docLocated doc).
Proof.
  unfold sidebarLinks, DOM.docQuerySelectorLocated.
  destruct (find (fun x => DOM.matches asideSelector (fst x)) (DOM.docLocated doc))
    as [sidebar|] eqn:E; [|intros []].
  apply find_In_pred in E as [Hside _]. unfold DOM.querySelectorAllLocated.
  intros H. apply filter_In in H as [H _]. eapply docLocated_below; eauto.
Qed.

Lemma matches_element (sel : DOM.Selector) (n : Node) :
  DOM.matches sel n = true -> exists u, DOM.uidOf n = Some u.
Proof.
  destruct n as [d|u t a cs]; [discriminate|]. cbn. eauto.
Qed.

Lemma scanLink_Some (l : DOM.Located) (info : ListInfo) :
  scanLink l = Some info ->
  exists href badge,
    DOM.getAttribute "href" (fst l) = Some href
    /\ listIdOf href = Some (listId info) /\ listId info <> EmptyString
    /\ badgeOf l = Some badge
    /\ info = {| listId := listId info;
                 name := JS.trim (DOM.textContent (fst l));
                 link := uidOrZero (fst l);
                 countBadge := uidOrZero badge;
                 currentCount :=
                   JS.orZero (JS.parseInt (JS.trim (DOM.textContent badge))) |}.
Proof.
  unfold scanLink, badgeOf.
  destruct (DOM.getAttribute "href" (fst l)) as [href|]; [|discriminate].
  destruct (listIdOf href) as [[|c id]|] eqn:Eid; try discriminate;
    destruct (DOM.closest liSelector l) as [li|]; try discriminate;
    destruct (DOM.querySelector badgeSelector li) as [badge|]; try discriminate.
  intros [= <-]. exists href, badge. cbn [listId].
  split; [reflexivity|]. split; [exact Eid|]. split; [discriminate|].
  split; reflexivity.
Qed.

Lemma badgeOf_attached (doc : Document) (l : DOM.Located) (badge : Node) :
  In l (DOM.docLocated doc) -> badgeOf l = Some badge ->
  In badge (DOM.docElements doc) /\ DOM.matches badgeSelector badge = true.
Proof.
  unfold badgeOf, DOM.closest, DOM.querySelector. intros Hl H.
  destruct (find (DOM.matches liSelector) (fst l :: snd l)) as [li|] eqn:Eli; [|discriminate].
  apply find_In_pred in Eli as [Hli _]. apply find_In_pred in H as [Hb Hm].
  split; [|exact Hm]. eapply docElements_below; [|exact Hb].
  eapply docLocated_attached; eauto.
Qed.

(** The badge of every scanned descriptor is an element of the scanned
    document, and [currentCount] is its text read as an integer. *)
Lemma scanned_badge (doc : Document) (info : ListInfo) :
  In info (findAllListLinks doc) ->
  exists badge,
    In badge (DOM.docElements doc)
    /\ DOM.matches badgeSelector badge = true
    /\ DOM.uidOf badge = Some (countBadge info)
    /\ currentCount info = JS.orZero (JS.parseInt (JS.trim (DOM.textContent badge))).
Proof.
  intros H. apply scanned_from_link in H as (l & Hl & Hscan).
  apply scanLink_Some in Hscan as (href & badge & _ & _ & _ & Hb & Hinfo).
  destruct (badgeOf_attached doc l badge (sidebarLinks_located _ _ Hl) Hb) as [Hin Hm].
  exists badge. split; [exact Hin|]. split; [exact Hm|].
  destruct (matches_element _ _ Hm) as [u Hu].
  rewrite Hinfo. cbn [countBadge currentCount]. unfold uidOrZero. rewrite Hu. auto.
Qed.

(* ===================================================================== *)
(** ** Settling the updates of a run                                      *)
(* ===================================================================== *)

Lemma finishUpdate_writeBack (info : ListInfo) (resolved : Completion (option Z))
      (doc : Document) :
  finishUpdate info resolved doc
  = (applyEvents (writeBack info resolved) doc, writeBack info resolved,
     if settles resolved then Fulfilled tt else Unsettled).
Proof.
  unfold finishUpdate, writeBack. destruct resolved as [[n|]|e|]; try reflexivity.
  destruct (negb (n =? currentCount info)); reflexivity.
Qed.

Lemma applyEvents_app (e1 e2 : list Event) (doc : Document) :
  applyEvents (e1 ++ e2) doc = applyEvents e2 (applyEvents e1 doc).
Proof. unfold applyEvents. apply fold_left_app. Qed.

Section Settling.

Variable pending : list Pending.

Lemma settle_fold (order : list nat) (doc : Document) (evs : list Event)
      (rs : list (Completion unit)) :
  fold_left (settleStep pending) order (doc, evs, rs)
  = (applyEvents (flat_map (writesAt pending) order) doc,
     evs ++ flat_map (writesAt pending) order,
     rs ++ flat_map (resultAt pending) order).
Proof.
  revert doc evs rs. induction order as [|i order IH]; intros doc evs rs.
  - cbn. now rewrite !app_nil_r.
  - cbn [fold_left flat_map].
    assert (Hstep : settleStep pending (doc, evs, rs) i
                    = (applyEvents (writesAt pending i) doc,
                       evs ++ writesAt pending i, rs ++ resultAt pending i)).
    { unfold settleStep, writesAt, resultAt.
      destruct (nth_error pending i) as [[info resolved]|].
      - cbn [fst snd]. destruct (settles resolved) eqn:Es.
        + now rewrite finishUpdate_writeBack, Es.
        + destruct resolved; try discriminate Es. cbn. now rewrite !app_nil_r.
      - cbn. now rewrite !app_nil_r. }
    rewrite Hstep, IH. now rewrite applyEvents_app, <- !app_assoc.
Qed.

Lemma settleAll_spec (order : list nat) (doc : Document) :
  settleAll order pending doc
  = (applyEvents (flat_map (writesAt pending) order) doc,
     flat_map (writesAt pending) order, flat_map (resultAt pending) order).
Proof. unfold settleAll. now rewrite settle_fold. Qed.

End Settling.

Lemma flat_map_positions {A B : Type} (g : option A -> list B) (pre l : list A) :
  flat_map (fun i => g (nth_error (pre ++ l) i)) (seq (List.length pre) (List.length l))
  = flat_map (fun x => g (Some x)) l.
Proof.
  revert pre. induction l as [|x l IH]; intros pre; [reflexivity|].
  cbn [List.length seq flat_map]. f_equal.
  - rewrite nth_error_app2 by lia. now rewrite Nat.sub_diag.
  - specialize (IH (pre ++ [x])). rewrite <- app_assoc in IH. cbn [app] in IH.
    rewrite <- IH. rewrite length_app. cbn [List.length].
    now replace (List.length pre + 1)%nat with (S (List.length pre)) by lia.
Qed.

Lemma flat_map_all_positions {A B : Type} (g : option A -> list B) (l : list A) :
  flat_map (fun i => g (nth_error l i)) (seq 0 (List.length l))
  = flat_map (fun x => g (Some x)) l.
Proof. exact (flat_map_positions g [] l). Qed.

Lemma flat_map_startUpdates {B : Type} (resolve : string -> Completion (option Z))
      (g : Pending -> list B) (listLinks : list ListInfo) :
  flat_map g (startUpdates resolve listLinks)
  = flat_map (fun info => g (info, resolve (listId info))) listLinks.
Proof.
  unfold startUpdates. induction listLinks as [|i l IH]; [reflexivity|].
  cbn [map flat_map]. now rewrite IH.
Qed.

Lemma length_startUpdates (resolve : string -> Completion (option Z))
      (listLinks : list ListInfo) :
  List.length (startUpdates resolve listLinks) = List.length listLinks.
Proof. unfold startUpdates. apply length_map. Qed.

Lemma results_all_fulfilled (pending : list Pending) (order : list nat) :
  Forall (fun s => s = Fulfilled tt) (flat_map (resultAt pending) order).
Proof.
  apply List.Forall_forall. intros s Hs. apply in_flat_map in Hs as (i & _ & Hs).
  unfold resultAt in Hs. destruct (nth_error pending i) as [q|]; [|destruct Hs].
  destruct (settles (snd q)); [|destruct Hs].
  destruct Hs as [<-|[]]. reflexivity.
Qed.

Lemma length_flat_map_if {A B : Type} (f : A -> bool) (b : B) (l : list A) :
  List.length (flat_map (fun x => if f x then [b] else []) l)
  = List.length (List.filter f l).
Proof.
  induction l as [|x l IH]; [reflexivity|].
  cbn [flat_map List.filter]. rewrite length_app, IH. now destruct (f x).
Qed.

Lemma all_fulfilled_tally (rs : list (Completion unit)) :
  Forall (fun s => s = Fulfilled tt) rs ->
  List.length (List.filter isFulfilled rs) = List.length rs /\
  List.length (List.filter (fun p => negb (isFulfilled p)) rs) = O.
Proof.
  induction 1 as [|s rs Hs _ [IH1 IH2]]; [split; reflexivity|].
  subst s. cbn. rewrite IH1, IH2. split; reflexivity.
Qed.

(** What a run that got past the readiness checks does, when every started
    update settles exactly once. *)
Lemma reconcile_spec (resolve : string -> Completion (option Z))
      (resolveEvents : string -> list Event) (now : Z) (order : list nat)
      (c : Counter) (doc : Document) (listLinks : list ListInfo) :
  completeOrder (List.length listLinks) order ->
  exists writes,
    Permutation writes
      (flat_map (fun info => writeBack info (resolve (listId info))) listLinks)
    /\ events (reconcile resolve resolveEvents now order c doc listLinks)
       = [EvQuerySidebar; EvScan]
         ++ flat_map (fun info => resolveEvents (listId info)) listLinks ++ writes
    /\ documentAfter (reconcile resolve resolveEvents now order c doc listLinks)
       = applyEvents writes doc
    /\ Forall (fun s => s = Fulfilled tt)
              (settled (reconcile resolve resolveEvents now order c doc listLinks))
    /\ List.length (settled (reconcile resolve resolveEvents now order c doc listLinks))
       = List.length (List.filter (fun info => settles (resolve (listId info))) listLinks).
Proof.
  intros Horder. unfold reconcile. rewrite settleAll_spec.
  cbn [events documentAfter settled].
  set (pending := startUpdates resolve listLinks).
  assert (Hlen : List.length pending = List.length listLinks)
    by apply length_startUpdates.
  unfold completeOrder in Horder. rewrite <- Hlen in Horder.
  exists (flat_map (writesAt pending) order). split; [|split; [|split; [|split]]].
  - rewrite (Permutation_flat_map (writesAt pending) Horder).
    pose proof (flat_map_all_positions (A:=Pending)
                  (fun o => match o with
                            | Some p => writeBack (fst p) (snd p)
                            | None => []
                            end) pending) as Hpos.
    cbn beta in Hpos. unfold writesAt. rewrite Hpos.
    unfold pending. rewrite flat_map_startUpdates. reflexivity.
  - reflexivity.
  - reflexivity.
  - apply results_all_fulfilled.
  - rewrite (Permutation_length (Permutation_flat_map (resultAt pending) Horder)).
    pose proof (flat_map_all_positions (A:=Pending)
                  (fun o : option Pending =>
                     match o with
                     | Some q => if settles (snd q) then [Fulfilled tt] else []
                     | None => []
                     end)
                  pending) as Hpos.
    cbn beta in Hpos. unfold resultAt. rewrite Hpos.
    unfold pending. rewrite flat_map_startUpdates. cbn [snd].
    apply (length_flat_map_if (fun info => settles (resolve (listId info)))).
Qed.

Lemma ready_run (resolve : string -> Completion (option Z))
      (resolveEvents : string -> list Event) (now : Z) (order : list nat)
      (c : Counter) (doc : Document) :
  updateCooldown c <= now - lastUpdateTime c -> pageReady doc = true ->
  updateAllListCountsWith resolve resolveEvents now order c doc
  = reconcile resolve resolveEvents now order c doc (findAllListLinks doc).
Proof.
  intros Hopen Hready. unfold updateAllListCountsWith, pageReady in *.
  apply Z.ltb_ge in Hopen. rewrite Hopen.
  destruct (DOM.docQuerySelector asideSelector doc); [|discriminate].
  destruct (List.length (findAllListLinks doc) =? 0)%nat; [discriminate|reflexivity].
Qed.

(** Every scanned list is resolved and written back within the run. *)
Lemma every_list_is_settled
    (resolve : string -> Completion (option Z)) (resolveEvents : string -> list Event)
    (now : Z) (order : list nat) (c : Counter) (doc : Document) :
  updateCooldown c <= now - lastUpdateTime c ->
  pageReady doc = true ->
  completeOrder (List.length (findAllListLinks doc)) order ->
  forall info, In info (findAllListLinks doc) ->
    incl (resolveEvents (listId info))
         (events (updateAllListCountsWith resolve resolveEvents now order c doc)) /\
    incl (writeBack info (resolve (listId info)))
         (events (updateAllListCountsWith resolve resolveEvents now order c doc)).
Proof.
  intros Hopen Hready Horder info Hinfo.
  rewrite (ready_run _ _ _ _ _ _ Hopen Hready).
  destruct (reconcile_spec resolve resolveEvents now order c doc _ Horder)
    as (writes & Hperm & Hev & _).
  rewrite Hev. split; intros e He.
  - apply in_or_app. right. apply in_or_app. left. apply in_flat_map.
    exists info. split; assumption.
  - apply in_or_app. right. apply in_or_app. right.
    apply (Permutation_in (l:=flat_map (fun info => writeBack info (resolve (listId info)))
                                       (findAllListLinks doc)) e).
    + symmetry. exact Hperm.
    + apply in_flat_map. exists info. split; assumption.
Qed.

(** C8.  In a run that got past the gate and the readiness checks, and in
    which the updates settle in any order, the resolution of every
    discovered list is started, the write-back of every list is performed
    and is determined by that list's own resolution alone - whatever the
    other lists resolve to, rejections included - and every update
    promise whose resolution settles is fulfilled, so the run reports no
    failure.  An update that settles performs its write-back even when
    other updates never settle (their resolution stays pending, or they
    are missing from the settling order). *)
Theorem resolutions_are_independent
    (resolve : string -> Completion (option Z)) (resolveEvents : string -> list Event)
    (now : Z) (order : list nat) (c : Counter) (doc : Document) :
  updateCooldown c <= now - lastUpdateTime c ->
  pageReady doc = true ->
  completeOrder (List.length (findAllListLinks doc)) order ->
  let r := updateAllListCountsWith resolve resolveEvents now order c doc in
  (forall info, In info (findAllListLinks doc) ->
     incl (resolveEvents (listId info)) (events r) /\
     incl (writeBack info (resolve (listId info))) (events r))
  /\ (exists writes,
        Permutation writes
          (flat_map (fun info => writeBack info (resolve (listId info)))
                    (findAllListLinks doc))
        /\ events r = [EvQuerySidebar; EvScan]
                      ++ flat_map (fun info => resolveEvents (listId info))
                                  (findAllListLinks doc)
                      ++ writes
        /\ documentAfter r = applyEvents writes doc)
  /\ Forall (fun s => s = Fulfilled tt) (settled r)
  /\ successful r
     = List.length (List.filter (fun info => settles (resolve (listId info)))
                                (findAllListLinks doc))
  /\ ((forall info, In info (findAllListLinks doc) ->
                    settles (resolve (listId info)) = true) ->
      successful r = List.length (findAllListLinks doc))
  /\ failed r = O
  /\ (forall order' i info,
        In i order' -> nth_error (findAllListLinks doc) i = Some info ->
        incl (writeBack info (resolve (listId info)))
             (events (updateAllListCountsWith resolve resolveEvents now order' c doc))).
Proof.
  intros Hopen Hready Horder r. subst r.
  assert (Hany : forall order' i info,
            In i order' -> nth_error (findAllListLinks doc) i = Some info ->
            incl (writeBack info (resolve (listId info)))
                 (events (updateAllListCountsWith resolve resolveEvents now order' c doc))).
  { intros order' i info Hi Hnth e He.
    rewrite (ready_run _ _ _ _ _ _ Hopen Hready). unfold reconcile.
    rewrite settleAll_spec. cbn [events].
    apply in_or_app. right. apply in_or_app. right.
    apply in_flat_map. exists i. split; [exact Hi|].
    assert (Hp : nth_error (startUpdates resolve (findAllListLinks doc)) i
                 = Some (info, resolve (listId info)))
      by (exact (map_nth_error (fun info => (info, resolve (listId info))) _ _ Hnth)).
    unfold writesAt. rewrite Hp. exact He. }
  rewrite (ready_run _ _ _ _ _ _ Hopen Hready).
  destruct (reconcile_spec resolve resolveEvents now order c doc _ Horder)
    as (writes & Hperm & Hev & Hdoc & Hall & Hlen).
  assert (Hsucc : successful (reconcile resolve resolveEvents now order c doc
                                         (findAllListLinks doc))
                  = List.length (List.filter (fun info => settles (resolve (listId info)))
                                             (findAllListLinks doc))).
  { unfold successful. destruct (all_fulfilled_tally _ Hall) as [-> _]. exact Hlen. }
  split; [|split; [|split; [|split; [|split; [|split]]]]]; [| | | | | |exact Hany].
  - intros info Hinfo.
    pose proof (every_list_is_settled resolve resolveEvents now order c doc
                  Hopen Hready Horder info Hinfo) as H.
    rewrite (ready_run _ _ _ _ _ _ Hopen Hready) in H. exact H.
  - exists writes. auto.
  - exact Hall.
  - exact Hsucc.
  - intros Hsettle. rewrite Hsucc. f_equal. now apply filter_all_true.
  - unfold failed. now destruct (all_fulfilled_tally _ Hall) as [_ ->].
Qed.

(** With a resolution that throws for "Reading", the badge of "Later" is
    still written and no update promise rejects. *)
Lemma resolutions_are_independent_witness :
  let r := updateAllListCountsWith Sample.flakyResolve (resolutionEvents Sample.page)
             1700000000000 [1%nat; 0%nat] constructor Sample.doc in
  In (EvWrite 22 "5") (events r) /\ failed r = O.
Proof.
  assert (Hopen : updateCooldown constructor <= 1700000000000 - lastUpdateTime constructor)
    by (vm_compute; discriminate).
  assert (Horder : completeOrder (List.length (findAllListLinks Sample.doc)) [1%nat; 0%nat])
    by (apply perm_swap).
  destruct (resolutions_are_independent Sample.flakyResolve (resolutionEvents Sample.page)
              1700000000000 [1%nat; 0%nat] constructor Sample.doc Hopen eq_refl Horder)
    as (Hlists & _ & _ & _ & _ & Hfailed & _).
  split; [|exact Hfailed].
  assert (Hin : In Sample.later (findAllListLinks Sample.doc))
    by (vm_compute; right; left; reflexivity).
  destruct (Hlists Sample.later Hin) as [_ Hwrite].
  apply Hwrite. left. reflexivity.
Defined.

(* ===================================================================== *)
(** ** Write-back                                                         *)
(* ===================================================================== *)

Lemma find_map {A B : Type} (f : B -> bool) (g : A -> B) (l : list A) :
  find f (map g l) = option_map g (find (fun x => f (g x)) l).
Proof.
  induction l as [|x l IH]; [reflexivity|].
  cbn [map find]. destruct (f (g x)); [reflexivity|exact IH].
Qed.

(** The two ways in which the script looks for the sidebar agree. *)
Lemma docQuerySelector_located (sel : DOM.Selector) (doc : Document) :
  DOM.docQuerySelector sel doc = option_map fst (DOM.docQuerySelectorLocated sel doc).
Proof.
  unfold DOM.docQuerySelector, DOM.docQuerySelectorLocated.
  rewrite <- docLocated_fst. apply find_map.
Qed.

Lemma scanned_page_ready (doc : Document) (info : ListInfo) :
  In info (findAllListLinks doc) -> pageReady doc = true.
Proof.
  intros H. unfold pageReady. rewrite docQuerySelector_located.
  destruct (findAllListLinks doc) as [|i l] eqn:E; [destruct H|].
  cbn [List.length Nat.eqb negb]. rewrite andb_true_r.
  unfold findAllListLinks in E.
  destruct (DOM.docQuerySelectorLocated asideSelector doc); [reflexivity|discriminate].
Qed.

Lemma reconcile_events (resolve : string -> Completion (option Z))
      (resolveEvents : string -> list Event) (now : Z) (order : list nat)
      (c : Counter) (doc : Document) (listLinks : list ListInfo) :
  exists writes,
    events (reconcile resolve resolveEvents now order c doc listLinks)
    = [EvQuerySidebar; EvScan]
      ++ flat_map (fun info => resolveEvents (listId info)) listLinks ++ writes.
Proof.
  unfold reconcile. rewrite settleAll_spec. cbn [events]. eauto.
Qed.

(** *** Writes to other elements *)

Lemma existsb_flat_map_false {A B : Type} (f : B -> bool) (g : A -> list B) (l : list A) :
  existsb f (flat_map g l) = false -> forall x, In x l -> existsb f (g x) = false.
Proof.
  induction l as [|y l IH]; [intros _ x []|].
  cbn [flat_map]. rewrite existsb_app. intros H x [<-|Hx].
  - now apply orb_false_elim in H as [H _].
  - apply orb_false_elim in H as [_ H]. now apply IH.
Qed.

Lemma uidOf_setTextContent (j : nat) (s : string) (n : Node) :
  DOM.uidOf (DOM.setTextContent j s n) = DOM.uidOf n.
Proof. destruct n as [d|u t a cs]; [reflexivity|]. cbn. now destruct (u =? j)%nat. Qed.

Lemma hasUid_setTextContent (x j : nat) (s : string) (n : Node) :
  DOM.hasUid x (DOM.setTextContent j s n) = DOM.hasUid x n.
Proof. unfold DOM.hasUid. now rewrite uidOf_setTextContent. Qed.

(** A write to [j] does not change a subtree that holds no [j]. *)
Lemma setTextContent_outside (j : nat) (s : string) (n : Node) :
  inside j n = false -> DOM.setTextContent j s n = n.
Proof.
  induction n as [d|u t a cs IH] using Node_induction; [reflexivity|].
  unfold inside. cbn [DOM.elementsOf existsb DOM.hasUid DOM.uidOf]. intros H.
  apply orb_false_elim in H as [Hu Hcs]. cbn [DOM.setTextContent]. rewrite Hu. f_equal.
  rewrite List.Forall_forall in IH.
  induction cs as [|c cs IHcs]; [reflexivity|].
  cbn [map]. f_equal.
  - apply IH; [now left|]. apply (existsb_flat_map_false _ _ _ Hcs c). now left.
  - apply IHcs.
    + intros x Hx. apply IH. now right.
    + cbn [flat_map] in Hcs. rewrite existsb_app in Hcs.
      now apply orb_false_elim in Hcs as [_ Hcs].
Qed.

Lemma find_none_inside (k : nat) (n : Node) :
  inside k n = false -> find (DOM.hasUid k) (DOM.elementsOf n) = None.
Proof.
  unfold inside. induction (DOM.elementsOf n) as [|e l IH]; [reflexivity|].
  cbn [existsb find]. intros H. apply orb_false_elim in H as [-> H]. auto.
Qed.

(** Every element of the tree after a write is the image of an element of
    the tree before it. *)
Lemma elements_after_set (j : nat) (s : string) (n e' : Node) :
  In e' (DOM.elementsOf (DOM.setTextContent j s n)) ->
  exists e, In e (DOM.elementsOf n) /\ e' = DOM.setTextContent j s e.
Proof.
  induction n as [d|u t a cs IH] using Node_induction; [intros []|].
  cbn [DOM.setTextContent]. destruct (u =? j)%nat eqn:E.
  - intros H. exists (Element u t a cs). split; [now left|].
    cbn [DOM.setTextContent]. rewrite E.
    cbn [DOM.elementsOf] in H. destruct H as [<-|H]; [reflexivity|].
    destruct s; destruct H.
  - cbn [DOM.elementsOf]. intros [<-|H].
    + exists (Element u t a cs). split; [now left|].
      cbn [DOM.setTextContent]. now rewrite E.
    + apply in_flat_map in H as (c' & Hc' & H).
      apply in_map_iff in Hc' as (c & <- & Hc).
      rewrite List.Forall_forall in IH. destruct (IH c Hc H) as (e & He & ->).
      exists e. split; [|reflexivity]. right. apply in_flat_map. eauto.
Qed.

Lemma docElements_after_write (j : nat) (s : string) (doc : Document) (e' : Node) :
  In e' (DOM.docElements (DOM.writeText j s doc)) ->
  exists e, In e (DOM.docElements doc) /\ e' = DOM.setTextContent j s e.
Proof.
  unfold DOM.docElements, DOM.writeText. intros H.
  apply in_flat_map in H as (x' & Hx' & H). apply in_map_iff in Hx' as (x & <- & Hx).
  destruct (elements_after_set _ _ _ _ H) as (e & He & ->).
  exists e. split; [|reflexivity]. apply in_flat_map. eauto.
Qed.

Lemma inside_after_set (x j : nat) (s : string) (e : Node) :
  inside x e = false -> inside x (DOM.setTextContent j s e) = false.
Proof.
  unfold inside. intros H.
  destruct (existsb (DOM.hasUid x) (DOM.elementsOf (DOM.setTextContent j s e))) eqn:E;
    [|reflexivity].
  apply existsb_exists in E as (e' & He' & Hu).
  destruct (elements_after_set _ _ _ _ He') as (e0 & He0 & ->).
  rewrite hasUid_setTextContent in Hu.
  assert (existsb (DOM.hasUid x) (DOM.elementsOf e) = true)
    by (apply existsb_exists; eauto).
  congruence.
Qed.

(** Elements that are apart stay apart under any write. *)
Lemma apart_after_write (j' k j : nat) (s : string) (doc : Document) :
  apart j' k doc -> apart j' k (DOM.writeText j s doc).
Proof.
  intros H e' He'. destruct (docElements_after_write _ _ _ _ He') as (e & He & ->).
  rewrite !hasUid_setTextContent. destruct (H e He) as [H1 H2].
  split; intros Hu; apply inside_after_set; auto.
Qed.

Lemma find_after_set_other (j k : nat) (s : string) (n : Node) :
  (forall e, In e (DOM.elementsOf n) -> DOM.hasUid j e = true -> inside k e = false) ->
  find (DOM.hasUid k) (DOM.elementsOf (DOM.setTextContent j s n))
  = option_map (DOM.setTextContent j s) (find (DOM.hasUid k) (DOM.elementsOf n)).
Proof.
  induction n as [d|u t a cs IH] using Node_induction; [reflexivity|].
  intros H. cbn [DOM.setTextContent]. destruct (u =? j)%nat eqn:E.
  - assert (Hin : inside k (Element u t a cs) = false).
    { apply H; [now left|]. unfold DOM.hasUid. cbn. exact E. }
    rewrite (find_none_inside _ _ Hin). cbn [option_map].
    apply find_none_inside. unfold inside in *.
    cbn [DOM.elementsOf existsb DOM.hasUid DOM.uidOf] in *.
    apply orb_false_elim in Hin as [-> _]. now destruct s.
  - cbn [DOM.elementsOf find DOM.hasUid DOM.uidOf].
    destruct (u =? k)%nat eqn:Ek.
    + cbn [option_map DOM.setTextContent]. now rewrite E.
    + assert (Hcs : forall c, In c cs -> forall e, In e (DOM.elementsOf c) ->
                    DOM.hasUid j e = true -> inside k e = false).
      { intros c Hc e He. apply H. right. apply in_flat_map. eauto. }
      clear H. rewrite List.Forall_forall in IH.
      induction cs as [|c cs IHcs]; [reflexivity|].
      cbn [map flat_map]. rewrite !find_app.
      rewrite (IH c (or_introl eq_refl) (Hcs c (or_introl eq_refl))).
      destruct (find (DOM.hasUid k) (DOM.elementsOf c)); [reflexivity|].
      apply IHcs; intros; [apply IH|eapply Hcs]; try (right; eassumption); eauto.
Qed.

(** A write to an element that is apart from [k] leaves [k] as it is. *)
Lemma getElementByUid_other_write (j k : nat) (s : string) (doc : Document) :
  apart j k doc ->
  DOM.getElementByUid k (DOM.writeText j s doc) = DOM.getElementByUid k doc.
Proof.
  intros Hapart.
  assert (Hmap : DOM.getElementByUid k (DOM.writeText j s doc)
                 = option_map (DOM.setTextContent j s) (DOM.getElementByUid k doc)).
  { unfold DOM.getElementByUid, DOM.writeText.
    assert (H : forall x e, In x doc -> In e (DOM.elementsOf x) ->
                DOM.hasUid j e = true -> inside k e = false).
    { intros x e Hx He. apply (Hapart e). unfold DOM.docElements.
      apply in_flat_map. eauto. }
    clear Hapart. unfold DOM.docElements.
    induction doc as [|x doc IH]; [reflexivity|].
    cbn [map flat_map]. rewrite !find_app.
    rewrite (find_after_set_other j k s x (fun e => H x e (or_introl eq_refl))).
    destruct (find (DOM.hasUid k) (DOM.elementsOf x)); [reflexivity|].
    apply IH. intros y e Hy. apply H. now right. }
  rewrite Hmap. destruct (DOM.getElementByUid k doc) as [b|] eqn:Eb; [|reflexivity].
  cbn [option_map]. f_equal. apply setTextContent_outside.
  unfold DOM.getElementByUid in Eb. apply find_In_pred in Eb as [Hin Hu].
  exact (proj2 (Hapart b Hin) Hu).
Qed.

Lemma self_inside (k : nat) (b : Node) :
  DOM.hasUid k b = true -> inside k b = true.
Proof.
  destruct b as [d|u t a cs]; [discriminate|].
  unfold inside. cbn [DOM.elementsOf existsb]. now intros ->.
Qed.

Lemma attached_not_apart_from_itself (k : nat) (doc : Document) (b : Node) :
  DOM.getElementByUid k doc = Some b -> ~ apart k k doc.
Proof.
  intros Hget Hapart. unfold DOM.getElementByUid in Hget.
  apply find_In_pred in Hget as [Hin Hu].
  pose proof (proj1 (Hapart b Hin) Hu) as H. rewrite (self_inside _ _ Hu) in H.
  discriminate.
Qed.

(** The text of element [k] after a sequence of events in which every
    write either puts [s0] into [k] or goes to an element apart from [k]. *)
Lemma badge_after_events (k : nat) (s0 : string) (ws : list Event) :
  forall (d : Document) (b : Node),
    DOM.getElementByUid k d = Some b ->
    (forall j s, In (EvWrite j s) ws -> (j = k /\ s = s0) \/ apart j k d) ->
    (existsb (isWriteTo k) ws = true ->
       exists b', DOM.getElementByUid k (applyEvents ws d) = Some b'
                  /\ DOM.textContent b' = s0)
    /\ (existsb (isWriteTo k) ws = false ->
        DOM.getElementByUid k (applyEvents ws d) = DOM.getElementByUid k d).
Proof.
  induction ws as [|ev ws IH]; intros d b Hget Hws.
  - split; [discriminate|reflexivity].
  - assert (Hrest : forall d', (forall j, apart j k d -> apart j k d') ->
                    forall j s, In (EvWrite j s) ws -> (j = k /\ s = s0) \/ apart j k d').
    { intros d' Hd' j s Hin. destruct (Hws j s (or_intror Hin)) as [H|H]; eauto. }
    unfold applyEvents. cbn [fold_left existsb]. fold (applyEvents ws (applyEvent d ev)).
    destruct ev as [| | |url|j s]; cbn [applyEvent isWriteTo orb];
      try (apply (IH d b Hget); intros j' s' Hin; apply Hws; now right).
    destruct (Hws j s (or_introl eq_refl)) as [[-> ->]|Hapart].
    + rewrite Nat.eqb_refl. cbn [orb].
      assert (Hget1 : DOM.getElementByUid k (DOM.writeText k s0 d)
                      = Some (DOM.setTextContent k s0 b))
        by (now rewrite getElementByUid_after_write, Hget).
      assert (Htext : DOM.textContent (DOM.setTextContent k s0 b) = s0)
        by (apply textContent_after_set; exact (proj1 (getElementByUid_uid _ _ _ Hget))).
      destruct (IH _ _ Hget1
                  (Hrest _ (fun j' H => apart_after_write j' k k s0 d H))) as [IH1 IH2].
      split; [|discriminate]. intros _.
      destruct (existsb (isWriteTo k) ws); [now apply IH1|].
      rewrite (IH2 eq_refl). eauto.
    + assert (Hne : (j =? k)%nat = false).
      { apply Nat.eqb_neq. intros ->. exact (attached_not_apart_from_itself _ _ _ Hget Hapart). }
      rewrite Hne. cbn [orb].
      assert (Hget1 : DOM.getElementByUid k (DOM.writeText j s d) = Some b)
        by (now rewrite getElementByUid_other_write).
      destruct (IH _ _ Hget1
                  (Hrest _ (fun j' H => apart_after_write j' k j s d H))) as [IH1 IH2].
      split; [exact IH1|]. intros H. rewrite (IH2 H), Hget1. now rewrite Hget.
Qed.

Lemma writeBack_target (info : ListInfo) (resolved : Completion (option Z))
      (j : nat) (s : string) :
  In (EvWrite j s) (writeBack info resolved) ->
  j = countBadge info /\
  exists n, resolved = Fulfilled (Some n) /\ n <> currentCount info /\ s = JS.toString n.
Proof.
  unfold writeBack. destruct resolved as [[n|]|e|]; try (intros []).
  destruct (n =? currentCount info) eqn:E; cbn [negb]; [intros []|].
  intros [[= <- <-]|[]]. apply Z.eqb_neq in E. eauto.
Qed.

(** What a run leaves in the badge of a list whose badge is apart from the
    badges of the other lists. *)
Lemma run_badge (resolve : string -> Completion (option Z))
      (resolveEvents : string -> list Event) (now : Z) (order : list nat)
      (c : Counter) (doc : Document) (info : ListInfo) :
  updateCooldown c <= now - lastUpdateTime c ->
  completeOrder (List.length (findAllListLinks doc)) order ->
  In info (findAllListLinks doc) ->
  (forall info', In info' (findAllListLinks doc) ->
                 info' = info \/ apart (countBadge info') (countBadge info) doc) ->
  let after :=
    documentAfter (updateAllListCountsWith resolve resolveEvents now order c doc) in
  (forall n, resolve (listId info) = Fulfilled (Some n) -> n <> currentCount info ->
     exists b', DOM.getElementByUid (countBadge info) after = Some b'
                /\ DOM.textContent b' = JS.toString n)
  /\ (resolve (listId info) = Fulfilled (Some (currentCount info)) \/
      resolve (listId info) = Fulfilled None ->
      DOM.getElementByUid (countBadge info) after
      = DOM.getElementByUid (countBadge info) doc).
Proof.
  intros Hopen Horder Hinfo Halone after. subst after.
  rewrite (ready_run _ _ _ _ _ _ Hopen (scanned_page_ready _ _ Hinfo)).
  destruct (reconcile_spec resolve resolveEvents now order c doc _ Horder)
    as (writes & Hperm & _ & -> & _).
  destruct (scanned_badge doc info Hinfo) as (badge & Hin & _ & Hu & _).
  destruct (find_exists (DOM.hasUid (countBadge info)) (DOM.docElements doc) badge Hin)
    as [b Hget]; [unfold DOM.hasUid; rewrite Hu; apply Nat.eqb_refl|].
  assert (Hfrom : forall j s, In (EvWrite j s) writes ->
            exists info', In info' (findAllListLinks doc) /\
                          In (EvWrite j s) (writeBack info' (resolve (listId info')))).
  { intros j s Hw. apply (Permutation_in _ Hperm) in Hw.
    apply in_flat_map in Hw. exact Hw. }
  split.
  - intros n Hn Hne.
    assert (Hws : forall j s, In (EvWrite j s) writes ->
              (j = countBadge info /\ s = JS.toString n)
              \/ apart j (countBadge info) doc).
    { intros j s Hw. destruct (Hfrom j s Hw) as (info' & Hin' & Hev).
      apply writeBack_target in Hev as (-> & n' & Hn' & _ & ->).
      destruct (Halone info' Hin') as [->|Hap]; [left|now right].
      split; [reflexivity|]. congruence. }
    destruct (badge_after_events _ _ writes doc b Hget Hws) as [H _]. apply H.
    apply existsb_exists. exists (EvWrite (countBadge info) (JS.toString n)).
    split; [|apply Nat.eqb_refl].
    apply (Permutation_in (l:=flat_map (fun info => writeBack info (resolve (listId info)))
                                       (findAllListLinks doc))); [now symmetry|].
    apply in_flat_map. exists info. split; [exact Hinfo|].
    rewrite Hn. unfold writeBack. apply Z.eqb_neq in Hne. rewrite Hne. now left.
  - intros Hsame.
    assert (Hnone : writeBack info (resolve (listId info)) = []).
    { destruct Hsame as [-> | ->]; cbn [writeBack]; [|reflexivity].
      now rewrite Z.eqb_refl. }
    assert (Hws : forall j s, In (EvWrite j s) writes ->
              (j = countBadge info /\ s = EmptyString)
              \/ apart j (countBadge info) doc).
    { intros j s Hw. destruct (Hfrom j s Hw) as (info' & Hin' & Hev).
      destruct (Halone info' Hin') as [->|Hap].
      - rewrite Hnone in Hev. destruct Hev.
      - apply writeBack_target in Hev as (-> & _). now right. }
    destruct (badge_after_events _ _ writes doc b Hget Hws) as [_ H]. apply H.
    destruct (existsb (isWriteTo (countBadge info)) writes) eqn:E; [|reflexivity].
    apply existsb_exists in E as (ev & Hev & Hto).
    destruct ev as [| | |url|j s]; try discriminate. cbn [isWriteTo] in Hto.
    apply Nat.eqb_eq in Hto. subst j.
    destruct (Hws _ _ Hev) as [[_ ->]|Hap].
    + destruct (Hfrom _ _ Hev) as (info' & Hin' & Hev').
      destruct (Halone info' Hin') as [->|Hap].
      * rewrite Hnone in Hev'. destruct Hev'.
      * apply writeBack_target in Hev' as (Heq & _).
        rewrite <- Heq in Hap. destruct (attached_not_apart_from_itself _ _ _ Hget Hap).
    + destruct (attached_not_apart_from_itself _ _ _ Hget Hap).
Qed.

Lemma apartb_sound (j k : nat) (doc : Document) :
  apartb j k doc = true -> apart j k doc.
Proof.
  unfold apartb, apart. rewrite forallb_forall. intros H e He.
  specialize (H e He). apply andb_prop in H as [H1 H2].
  split; intros Hu; rewrite Hu in *; cbn [implb] in *.
  - now apply negb_true_iff in H1.
  - now apply negb_true_iff in H2.
Qed.

(** C1, as stated, fails when two lists share a badge element.  On the
    sample page whose two list links sit in one list item, "Reading"
    resolves to the count 1 that the shared badge displays, so its badge
    should be left unchanged; but "Later" resolves to 5 and its update
    writes 5 into the same badge. *)
Lemma shared_badge_is_overwritten :
  ~ (forall (env : Env) (p : Page) (now : Z) (order : list nat) (c : Counter)
            (info : ListInfo),
       updateCooldown c <= now - lastUpdateTime c ->
       completeOrder (List.length (findAllListLinks (document p))) order ->
       In info (findAllListLinks (document p)) ->
       getUnarchivedCountForList env p (listId info)
       = Fulfilled (Some (currentCount info)) ->
       DOM.getElementByUid (countBadge info)
                           (documentAfter (updateAllListCounts env now order c p))
       = DOM.getElementByUid (countBadge info) (document p)).
Proof.
  intros H.
  assert (Hopen : updateCooldown constructor <= 1700000000000 - lastUpdateTime constructor)
    by (vm_compute; discriminate).
  assert (Horder : completeOrder (List.length (findAllListLinks (document Sample.sharedPage)))
                                 [0%nat; 1%nat]) by (vm_compute; reflexivity).
  assert (Hin : In Sample.sharedReading (findAllListLinks (document Sample.sharedPage)))
    by (vm_compute; left; reflexivity).
  specialize (H Sample.env Sample.sharedPage 1700000000000 [0%nat; 1%nat] constructor
                Sample.sharedReading Hopen Horder Hin eq_refl).
  vm_compute in H. discriminate H.
Qed.

(** C1, amended.  For a list found by the scan, whose badge is an element
    of the scanned document and whose [currentCount] is that badge's text
    read as an integer: when its count resolves to an integer other than
    [currentCount], the update sets the badge's text to that integer in
    decimal, and the badge read back from the document shows it; when the
    count resolves to [currentCount] or to [null], the update leaves the
    document as it is and writes nothing.  In a run, this write-back is
    among the run's events for every scanned list; and when the badge is
    apart from the badges of the other lists, the badge reads the resolved
    integer after the run in the first case and is the very element it was
    before the run in the second. *)
Theorem write_back (doc : Document) (info : ListInfo) (resolved : Completion (option Z)) :
  In info (findAllListLinks doc) ->
  (exists badge,
      In badge (DOM.docElements doc)
      /\ DOM.uidOf badge = Some (countBadge info)
      /\ currentCount info = JS.orZero (JS.parseInt (JS.trim (DOM.textContent badge))))
  /\ (forall n, resolved = Fulfilled (Some n) -> n <> currentCount info ->
        finishUpdate info resolved doc
        = (DOM.writeText (countBadge info) (JS.toString n) doc,
           [EvWrite (countBadge info) (JS.toString n)], Fulfilled tt)
        /\ exists b',
             DOM.getElementByUid (countBadge info)
                                 (DOM.writeText (countBadge info) (JS.toString n) doc)
             = Some b'
             /\ DOM.textContent b' = JS.toString n)
  /\ (resolved = Fulfilled (Some (currentCount info)) \/ resolved = Fulfilled None ->
      finishUpdate info resolved doc = (doc, [], Fulfilled tt))
  /\ (forall env p now order c,
        document p = doc ->
        updateCooldown c <= now - lastUpdateTime c ->
        completeOrder (List.length (findAllListLinks doc)) order ->
        incl (writeBack info (getUnarchivedCountForList env p (listId info)))
             (events (updateAllListCounts env now order c p))
        /\ ((forall info', In info' (findAllListLinks doc) ->
               info' = info \/ apart (countBadge info') (countBadge info) doc) ->
            let after := documentAfter (updateAllListCounts env now order c p) in
            (forall n,
               getUnarchivedCountForList env p (listId info) = Fulfilled (Some n) ->
               n <> currentCount info ->
               exists b', DOM.getElementByUid (countBadge info) after = Some b'
                          /\ DOM.textContent b' = JS.toString n)
            /\ (getUnarchivedCountForList env p (listId info)
                  = Fulfilled (Some (currentCount info))
                \/ getUnarchivedCountForList env p (listId info) = Fulfilled None ->
                DOM.getElementByUid (countBadge info) after
                = DOM.getElementByUid (countBadge info) doc))).
Proof.
  intros Hinfo.
  destruct (scanned_badge doc info Hinfo) as (badge & Hin & _ & Hu & Hcur).
  split; [exists badge; auto|]. split; [|split].
  - intros n -> Hne. unfold finishUpdate.
    apply Z.eqb_neq in Hne. rewrite Hne. cbn [negb]. split; [reflexivity|].
    destruct (written_text_is_read_back (countBadge info) (JS.toString n) doc badge Hin Hu)
      as (b' & Hget & _ & Htext).
    exists b'. auto.
  - intros [->| ->]; unfold finishUpdate; [|reflexivity].
    now rewrite Z.eqb_refl.
  - intros env p now order c Hdoc Hopen Horder. subst doc.
    pose proof (scanned_page_ready _ _ Hinfo) as Hready.
    destruct (every_list_is_settled (getUnarchivedCountForList env p)
                (resolutionEvents p) now order c (document p) Hopen Hready Horder
                info Hinfo) as [_ H].
    split; [exact H|]. intros Halone.
    exact (run_badge (getUnarchivedCountForList env p) (resolutionEvents p) now order c
             (document p) info Hopen Horder Hinfo Halone).
Qed.

(** On the sample page "Reading" shows 2 and resolves to 1: its badge then
    reads "1", also after a whole run in which "Later" is written first.
    "Later" resolving to [null] leaves the page alone. *)
Lemma write_back_witness :
  (exists b', DOM.getElementByUid 12 (DOM.writeText 12 "1" Sample.doc) = Some b'
              /\ DOM.textContent b' = "1")
  /\ finishUpdate Sample.later (Fulfilled None) Sample.doc = (Sample.doc, [], Fulfilled tt)
  /\ (exists b',
        DOM.getElementByUid 12
          (documentAfter (updateAllListCounts Sample.env 1700000000000 [1%nat; 0%nat]
                            constructor Sample.page)) = Some b'
        /\ DOM.textContent b' = "1").
Proof.
  assert (Hreading : In Sample.reading (findAllListLinks Sample.doc))
    by (vm_compute; left; reflexivity).
  assert (Hlater : In Sample.later (findAllListLinks Sample.doc))
    by (vm_compute; right; left; reflexivity).
  destruct (write_back Sample.doc Sample.reading (Fulfilled (Some 1)) Hreading)
    as (_ & Hwrite & _ & Hrun).
  destruct (write_back Sample.doc Sample.later (Fulfilled None) Hlater)
    as (_ & _ & Hkeep & _).
  assert (Hne : 1 <> currentCount Sample.reading) by (vm_compute; discriminate).
  split; [|split].
  - destruct (Hwrite 1 eq_refl Hne) as [_ H]. exact H.
  - apply Hkeep. right. reflexivity.
  - assert (Hopen : updateCooldown constructor <= 1700000000000 - lastUpdateTime constructor)
      by (vm_compute; discriminate).
    assert (Horder : completeOrder (List.length (findAllListLinks Sample.doc))
                                   [1%nat; 0%nat]) by (apply perm_swap).
    destruct (Hrun Sample.env Sample.page 1700000000000 [1%nat; 0%nat] constructor
                eq_refl Hopen Horder) as [_ Hafter].
    assert (Halone : forall info', In info' (findAllListLinks Sample.doc) ->
              info' = Sample.reading
              \/ apart (countBadge info') (countBadge Sample.reading) Sample.doc).
    { intros info' Hin. vm_compute in Hin. destruct Hin as [<-|[<-|[]]].
      - left. reflexivity.
      - right. apply apartb_sound. vm_compute. reflexivity. }
    destruct (Hafter Halone) as [Hshown _]. exact (Hshown 1 eq_refl Hne).
Defined.

(* ===================================================================== *)
(** ** The unused cache                                                   *)
(* ===================================================================== *)

Lemma fire_keeps_listCounts (t : Trigger) (env : Env) (now : Z) (order : list nat)
      (w : World) :
  listCounts (counter (fire t env now order w)) = listCounts (counter w).
Proof. unfold fire, updateAllListCounts. cbn [counter]. apply run_keeps_listCounts. Qed.

Lemma step_keeps_listCounts (w w' : World) :
  step w w' -> listCounts (counter w') = listCounts (counter w).
Proof.
  intros [t env now order w0|w0 p']; [apply fire_keeps_listCounts|reflexivity].
Qed.

Lemma reachable_listCounts_empty (w : World) :
  reachable w -> listCounts (counter w) = ∅.
Proof.
  induction 1 as [p|w w' _ IH Hstep]; [reflexivity|].
  now rewrite (step_keeps_listCounts _ _ Hstep).
Qed.

(** The run does not look at the cache: with any other cache content it
    does the same. *)
Lemma run_ignores_listCounts (resolve : string -> Completion (option Z))
      (resolveEvents : string -> list Event) (now : Z) (order : list nat)
      (c : Counter) (doc : Document) (m : gmap string Z) :
  updateAllListCountsWith resolve resolveEvents now order (withListCounts m c) doc
  = let r := updateAllListCountsWith resolve resolveEvents now order c doc in
    {| counterAfter := withListCounts m (counterAfter r);
       documentAfter := documentAfter r;
       events := events r;
       settled := settled r |}.
Proof.
  cbv zeta. unfold updateAllListCountsWith at 1.
  cbn [withListCounts lastUpdateTime updateCooldown]. run_cases.
  unfold reconcile.
  destruct (settleAll order (startUpdates resolve (findAllListLinks doc)) doc) as [[d w] r].
  reflexivity.
Qed.

Lemma writesAt_startUpdates (resolve : string -> Completion (option Z))
      (listLinks : list ListInfo) (i : nat) :
  writesAt (startUpdates resolve listLinks) i
  = match nth_error listLinks i with
    | Some info => writeBack info (resolve (listId info))
    | None => []
    end.
Proof.
  unfold writesAt, startUpdates. rewrite nth_error_map.
  now destruct (nth_error listLinks i).
Qed.

(** What a run past the gate does on a ready page, spelt out with the two
    counting paths: the events of the resolutions in scan order, then the
    write-backs in settling order, each computed from the page and the
    network of this very run. *)
Lemma run_recomputes (env : Env) (now : Z) (order : list nat) (c : Counter) (p : Page) :
  updateCooldown c <= now - lastUpdateTime c ->
  pageReady (document p) = true ->
  let listLinks := findAllListLinks (document p) in
  let recount (info : ListInfo) :=
    if isCurrentList p (listId info)
    then Fulfilled (countVisibleBookmarks p)
    else fetchListBookmarkCount env (listId info) in
  let writes :=
    flat_map (fun i => match nth_error listLinks i with
                       | Some info => writeBack info (recount info)
                       | None => []
                       end) order in
  events (updateAllListCounts env now order c p)
  = [EvQuerySidebar; EvScan]
    ++ map (fun info => if isCurrentList p (listId info)
                        then EvCountLive else EvFetch (listUrl (listId info))) listLinks
    ++ writes
  /\ documentAfter (updateAllListCounts env now order c p) = applyEvents writes (document p).
Proof.
  intros Hopen Hready. cbv zeta. unfold updateAllListCounts.
  rewrite (ready_run _ _ _ _ _ _ Hopen Hready). unfold reconcile.
  rewrite settleAll_spec. cbn [events documentAfter].
  assert (Hw : flat_map (writesAt (startUpdates (getUnarchivedCountForList env p)
                                     (findAllListLinks (document p)))) order
               = flat_map (fun i => match nth_error (findAllListLinks (document p)) i with
                                    | Some info =>
                                        writeBack info
                                          (if isCurrentList p (listId info)
                                           then Fulfilled (countVisibleBookmarks p)
                                           else fetchListBookmarkCount env (listId info))
                                    | None => []
                                    end) order).
  { apply flat_map_ext. intros i. rewrite writesAt_startUpdates.
    destruct (nth_error (findAllListLinks (document p)) i) as [info|]; [|reflexivity].
    unfold getUnarchivedCountForList. now destruct (isCurrentList p (listId info)). }
  rewrite Hw. split; [|reflexivity]. f_equal. f_equal. clear Hw.
  induction (findAllListLinks (document p)) as [|info l IH]; [reflexivity|].
  cbn [flat_map map]. rewrite IH. unfold resolutionEvents.
  now destruct (isCurrentList p (listId info)).
Qed.

(** C10.  [listCounts] is empty in every world the script can reach; no
    run changes it; no run reads it - with any other content of the cache
    the run makes the same document, the same events and the same
    results; and every run that passes the gate on a ready page recomputes
    the count of every list it discovers: it takes a live count or issues
    a fetch for each of them, and what it writes, and so the document it
    leaves, is the write-back of the counts that [countVisibleBookmarks]
    and [fetchListBookmarkCount] yield on the page and the network of this
    run, whatever the counter holds. *)
Theorem listCounts_is_never_used :
  (forall w, reachable w -> listCounts (counter w) = ∅)
  /\ (forall env now order c p,
        listCounts (counterAfter (updateAllListCounts env now order c p)) = listCounts c)
  /\ (forall env now order c p (m : gmap string Z),
        updateAllListCounts env now order (withListCounts m c) p
        = let r := updateAllListCounts env now order c p in
          {| counterAfter := withListCounts m (counterAfter r);
             documentAfter := documentAfter r;
             events := events r;
             settled := settled r |})
  /\ (forall env now order c p,
        updateCooldown c <= now - lastUpdateTime c ->
        pageReady (document p) = true ->
        let listLinks := findAllListLinks (document p) in
        let recount (info : ListInfo) :=
          if isCurrentList p (listId info)
          then Fulfilled (countVisibleBookmarks p)
          else fetchListBookmarkCount env (listId info) in
        let writes :=
          flat_map (fun i => match nth_error listLinks i with
                             | Some info => writeBack info (recount info)
                             | None => []
                             end) order in
        events (updateAllListCounts env now order c p)
        = [EvQuerySidebar; EvScan]
          ++ map (fun info => if isCurrentList p (listId info)
                              then EvCountLive else EvFetch (listUrl (listId info)))
                 listLinks
          ++ writes
        /\ documentAfter (updateAllListCounts env now order c p)
           = applyEvents writes (document p)).
Proof.
  split; [exact reachable_listCounts_empty|]. split; [|split].
  - intros. apply run_keeps_listCounts.
  - intros. apply run_ignores_listCounts.
  - intros env now order c p Hopen Hready. exact (run_recomputes env now order c p Hopen Hready).
Qed.

(** After a refresh of the sample page the cache is still empty; the run
    counted "Reading" live and fetched "Later" although both had been
    shown before, and wrote the two counts it found, 1 and 5. *)
Lemma listCounts_is_never_used_witness :
  listCounts (counter (fire RefreshMessage Sample.env 1700000000000 [0%nat; 1%nat]
                         {| counter := constructor; page := Sample.page |})) = ∅
  /\ events (updateAllListCounts Sample.env 1700000000000 [0%nat; 1%nat]
               constructor Sample.page)
     = [EvQuerySidebar; EvScan; EvCountLive; EvFetch "/dashboard/lists/xyz789";
        EvWrite 12 "1"; EvWrite 22 "5"].
Proof.
  destruct listCounts_is_never_used as (Hempty & _ & _ & Hfresh).
  split.
  - apply Hempty. eapply reachable_step; [apply reachable_init|apply step_fire].
  - assert (Hopen : updateCooldown constructor <= 1700000000000 - lastUpdateTime constructor)
      by (vm_compute; discriminate).
    destruct (Hfresh Sample.env 1700000000000 [0%nat; 1%nat] constructor Sample.page
                Hopen eq_refl) as [Hev _].
    rewrite Hev. reflexivity.
Defined.

(* ===================================================================== *)
(** ** Splitting at the list-path segment                                 *)
(* ===================================================================== *)

Lemma append_assoc (a b c : string) : ((a ++ b) ++ c)%string = (a ++ (b ++ c))%string.
Proof.
  induction a as [|x a IH]; [reflexivity|].
  change (String x ((a ++ b) ++ c)%string = String x (a ++ (b ++ c))%string).
  now rewrite IH.
Qed.

Lemma startsWith_append (sep s : string) :
  JS.startsWith sep s = true -> s = (sep ++ JS.dropChars (String.length sep) s)%string.
Proof.
  revert s. induction sep as [|a n IH]; intros s H; [reflexivity|].
  destruct s as [|c s]; [discriminate H|].
  apply startsWith_cons in H as [-> H].
  change (String c s = String c (n ++ JS.dropChars (String.length n) s)%string).
  now rewrite <- (IH s H).
Qed.

Lemma cutAtFirst_unfold (sep s : string) :
  JS.cutAtFirst sep s =
  if JS.startsWith sep s then Some (EmptyString, JS.dropChars (String.length sep) s)
  else match s with
       | EmptyString => None
       | String c s' =>
           match JS.cutAtFirst sep s' with
           | Some (before, after) => Some (String c before, after)
           | None => None
           end
       end.
Proof. destruct s; reflexivity. Qed.

(** [cutAtFirst] cuts at an occurrence of the separator, and no occurrence
    begins before the cut. *)
Lemma cutAtFirst_Some (sep s before after : string) :
  JS.cutAtFirst sep s = Some (before, after) ->
  s = (before ++ sep ++ after)%string
  /\ forall b1 b2, before = (b1 ++ b2)%string -> b2 <> EmptyString ->
                   JS.startsWith sep (b2 ++ sep ++ after)%string = false.
Proof.
  revert before. induction s as [|c s IH]; intros before H; rewrite cutAtFirst_unfold in H.
  - destruct (JS.startsWith sep "") eqn:E; [|discriminate].
    injection H as <- <-. split; [now apply startsWith_append|].
    intros [|x b1] b2 Hb Hne;
      [change (EmptyString = b2) in Hb; congruence
      |change (EmptyString = String x (b1 ++ b2)%string) in Hb; discriminate].
  - destruct (JS.startsWith sep (String c s)) eqn:E.
    + injection H as <- <-. split; [now apply startsWith_append|].
      intros [|x b1] b2 Hb Hne;
        [change (EmptyString = b2) in Hb; congruence
        |change (EmptyString = String x (b1 ++ b2)%string) in Hb; discriminate].
    + destruct (JS.cutAtFirst sep s) as [[b a]|] eqn:Ecut; [|discriminate].
      injection H as <- <-. destruct (IH b eq_refl) as [Hs Hfirst]. split.
      * change (String c s = String c (b ++ sep ++ a)%string). now rewrite <- Hs.
      * intros [|x b1] b2 Hb Hne.
        -- change (String c b = b2) in Hb. subst b2.
           change (JS.startsWith sep (String c (b ++ sep ++ a)%string) = false).
           now rewrite <- Hs.
        -- change (String c b = String x (b1 ++ b2)%string) in Hb.
           injection Hb as -> Hb. exact (Hfirst b1 b2 Hb Hne).
Qed.

Lemma cutAtFirst_None (sep s : string) :
  JS.cutAtFirst sep s = None <-> JS.includes sep s = false.
Proof.
  induction s as [|c s IH]; rewrite cutAtFirst_unfold; cbn [JS.includes].
  - destruct (JS.startsWith sep ""); cbn; split; congruence.
  - destruct (JS.startsWith sep (String c s)); cbn [orb]; [split; discriminate|].
    rewrite <- IH. destruct (JS.cutAtFirst sep s) as [[b a]|]; split; congruence.
Qed.

Lemma length_append (a b : string) :
  String.length (a ++ b)%string = (String.length a + String.length b)%nat.
Proof.
  induction a as [|c a IH]; [reflexivity|].
  change (S (String.length (a ++ b)%string) = S (String.length a + String.length b)).
  now rewrite IH.
Qed.

Lemma cutAtFirst_shorter (sep s before after : string) :
  sep <> EmptyString -> JS.cutAtFirst sep s = Some (before, after) ->
  (String.length after < String.length s)%nat.
Proof.
  intros Hsep H. destruct (cutAtFirst_Some _ _ _ _ H) as [-> _].
  rewrite !length_append. destruct sep; [congruence|]. cbn [String.length]. lia.
Qed.

(** The fuel of [split] never runs out: any fuel above the length of the
    string gives the same list. *)
Lemma splitFuel_enough (sep : string) (fuel fuel' : nat) (s : string) :
  sep <> EmptyString ->
  (String.length s < fuel)%nat -> (String.length s < fuel')%nat ->
  JS.splitFuel fuel sep s = JS.splitFuel fuel' sep s.
Proof.
  intros Hsep. revert fuel' s. induction fuel as [|fuel IH]; intros fuel' s H H'; [lia|].
  destruct fuel' as [|fuel']; [lia|]. cbn [JS.splitFuel].
  destruct (JS.cutAtFirst sep s) as [[b a]|] eqn:E; [|reflexivity].
  pose proof (cutAtFirst_shorter _ _ _ _ Hsep E). f_equal. apply IH; lia.
Qed.

(** [href.split('/lists/')[1]] is what lies between the first occurrence
    of the separator and the next one, or the end of the string. *)
Lemma listIdOf_cut (href : string) :
  listIdOf href =
  match JS.cutAtFirst "/lists/" href with
  | None => None
  | Some (_, rest) =>
      Some (match JS.cutAtFirst "/lists/" rest with
            | Some (id, _) => id
            | None => rest
            end)
  end.
Proof.
  unfold listIdOf, JS.split. cbn [JS.splitFuel].
  destruct (JS.cutAtFirst "/lists/" href) as [[pre rest]|] eqn:E; [|reflexivity].
  destruct href as [|c href]; [discriminate E|].
  cbn [String.length JS.splitFuel nth_error].
  destruct (JS.cutAtFirst "/lists/" rest) as [[id more]|]; reflexivity.
Qed.

Lemma includes_slash (s : string) :
  JS.includes "/lists/" s = true -> JS.includes "/" s = true.
Proof.
  induction s as [|c s IH]; [discriminate|].
  cbn [JS.includes]. intros H. apply orb_prop in H as [H|H].
  - apply startsWith_cons in H as [<- _].
    replace (JS.startsWith "/" (String "/" s)) with true; [reflexivity|].
    symmetry. apply startsWith_cons. split; [reflexivity|apply startsWith_nil].
  - rewrite (IH H). apply orb_true_r.
Qed.

Lemma includes_after (x y : string) :
  JS.includes "/" (x ++ String "/" y)%string = true.
Proof.
  induction x as [|c x IH].
  - change (JS.includes "/" (String "/" y) = true). cbn [JS.includes].
    replace (JS.startsWith "/" (String "/" y)) with true; [reflexivity|].
    symmetry. apply startsWith_cons. split; [reflexivity|apply startsWith_nil].
  - change (JS.includes "/" (String c (x ++ String "/" y)%string) = true).
    cbn [JS.includes]. rewrite IH. apply orb_true_r.
Qed.

Lemma trailing_after_last_slash (x id : string) :
  JS.includes "/" id = false -> trailingPathSegment (x ++ String "/" id)%string = id.
Proof.
  intros Hid. induction x as [|c x IH].
  - change (trailingPathSegment (String "/" id) = id).
    cbn [trailingPathSegment]. rewrite Hid. reflexivity.
  - change (trailingPathSegment (String c (x ++ String "/" id)%string) = id).
    cbn [trailingPathSegment]. now rewrite includes_after.
Qed.

(** When nothing but one slash-free segment follows the first [/lists/],
    the script's list id is the trailing path segment. *)
Lemma listIdOf_trailing (href pre rest : string) :
  JS.cutAtFirst "/lists/" href = Some (pre, rest) ->
  JS.includes "/" rest = false ->
  listIdOf href = Some rest /\ trailingPathSegment href = rest.
Proof.
  intros Hcut Hrest. split.
  - rewrite listIdOf_cut, Hcut.
    destruct (JS.cutAtFirst "/lists/" rest) as [[id more]|] eqn:E; [|reflexivity].
    assert (Hinc : JS.includes "/lists/" rest = true).
    { destruct (JS.includes "/lists/" rest) eqn:Ei; [reflexivity|].
      apply cutAtFirst_None in Ei. congruence. }
    apply includes_slash in Hinc. congruence.
  - destruct (cutAtFirst_Some _ _ _ _ Hcut) as [-> _].
    change ("/lists/" ++ rest)%string with ("/lists" ++ String "/" rest)%string.
    rewrite <- append_assoc. now apply trailing_after_last_slash.
Qed.

(* ===================================================================== *)
(** ** The directory scan                                                 *)
(* ===================================================================== *)

Lemma sidebarLinks_iff (doc : Document) (l : DOM.Located) :
  In l (sidebarLinks doc) <->
  exists sidebar,
    DOM.docQuerySelectorLocated asideSelector doc = Some sidebar
    /\ In l (DOM.locatedDescendants sidebar)
    /\ DOM.matches listLinkSelector (fst l) = true.
Proof.
  unfold sidebarLinks.
  destruct (DOM.docQuerySelectorLocated asideSelector doc) as [sidebar|].
  - unfold DOM.querySelectorAllLocated. rewrite filter_In. split.
    + intros [H1 H2]. exists sidebar. auto.
    + intros (s & [= <-] & H1 & H2). auto.
  - split; [intros []|]. intros (s & H & _). discriminate.
Qed.

Lemma listLink_shape (n : Node) :
  DOM.matches listLinkSelector n = true ->
  DOM.tagOf n = "a" /\
  exists href, DOM.getAttribute "href" n = Some href /\ JS.includes "/lists/" href = true.
Proof.
  unfold DOM.matches. cbn [listLinkSelector DOM.selTag DOM.selAttr DOM.selClasses].
  intros H. apply andb_prop in H as [H Hattr]. apply andb_prop in H as [H _].
  apply andb_prop in H as [_ Htag]. apply String.eqb_eq in Htag.
  split; [exact Htag|]. cbn [DOM.attrTestHolds] in Hattr.
  destruct (DOM.getAttribute "href" n) as [href|]; [|discriminate]. eauto.
Qed.

Lemma scanLink_eq (l : DOM.Located) (href : string) :
  DOM.getAttribute "href" (fst l) = Some href ->
  scanLink l =
  match listIdOf href, badgeOf l with
  | Some (String c id), Some badge => Some (describe l (String c id) badge)
  | _, _ => None
  end.
Proof.
  intros H. unfold scanLink, badgeOf, describe. rewrite H.
  destruct (listIdOf href) as [[|c id]|]; destruct (DOM.closest liSelector l) as [li|];
    try reflexivity; destruct (DOM.querySelector badgeSelector li); reflexivity.
Qed.

Lemma descriptorsOf_at_most_one (l : DOM.Located) :
  (List.length (descriptorsOf l) <= 1)%nat.
Proof. unfold descriptorsOf. destruct (scanLink l); cbn; lia. Qed.

(** C9, as stated, fails: the list id that the scan extracts is not always
    the trailing path segment of the link's destination.  For a link to
    [/dashboard/lists/abc123/edit] it is [abc123/edit], not [edit]; for a
    link to [/dashboard/lists/abc123/lists/def456] it is [abc123], not
    [def456]. *)
Lemma listId_is_not_the_trailing_segment :
  ~ (forall doc info,
       In info (findAllListLinks doc) ->
       exists l href,
         In l (sidebarLinks doc) /\ scanLink l = Some info
         /\ DOM.getAttribute "href" (fst l) = Some href
         /\ listId info = trailingPathSegment href)
  /\ map listId (findAllListLinks Sample.editDoc) = ["abc123/edit"; "abc123"]
  /\ trailingPathSegment "/dashboard/lists/abc123/edit" = "edit"
  /\ trailingPathSegment "/dashboard/lists/abc123/lists/def456" = "def456".
Proof.
  split; [|split; [|split]]; try reflexivity.
  intros H.
  assert (Hin : In (describe (hd (TextNode "", []) (sidebarLinks Sample.editDoc))
                             "abc123/edit" (Sample.badge 12 "2"))
                   (findAllListLinks Sample.editDoc))
    by (vm_compute; left; reflexivity).
  destruct (H _ _ Hin) as (l & href & Hl & Hscan & Hhref & Hid).
  vm_compute in Hl. destruct Hl as [<-|[<-|[]]].
  - vm_compute in Hhref. injection Hhref as <-. vm_compute in Hid. discriminate Hid.
  - vm_compute in Hscan. discriminate Hscan.
Qed.

(** C9, amended.  The scan yields, in document order, at most one
    descriptor for every [a] element below the sidebar whose [href]
    contains [/lists/] and none for other elements.  The link's [listId]
    is the text that follows the first [/lists/] of the [href], up to the
    next [/lists/] if there is one; it is the trailing path segment when
    nothing but one slash-free segment follows that first [/lists/].
    [name] is the link's trimmed text, [countBadge] the first badge below
    the nearest enclosing [li], and [currentCount] the badge's trimmed text
    read by [parseInt], or 0 when that is [NaN].  A link is skipped
    exactly when its list id is undefined or empty or no badge is found. *)
Theorem directory_scan (doc : Document) :
  findAllListLinks doc = flat_map descriptorsOf (sidebarLinks doc)
  /\ (forall l,
        In l (sidebarLinks doc) <->
        exists sidebar,
          DOM.docQuerySelectorLocated asideSelector doc = Some sidebar
          /\ In l (DOM.locatedDescendants sidebar)
          /\ DOM.matches listLinkSelector (fst l) = true)
  /\ (forall l,
        In l (sidebarLinks doc) ->
        exists href pre rest,
          DOM.tagOf (fst l) = "a"
          /\ DOM.getAttribute "href" (fst l) = Some href
          /\ JS.cutAtFirst "/lists/" href = Some (pre, rest)
          /\ href = (pre ++ "/lists/" ++ rest)%string
          /\ listIdOf href = Some (match JS.cutAtFirst "/lists/" rest with
                                   | Some (id, _) => id
                                   | None => rest
                                   end)
          /\ (JS.includes "/" rest = false ->
              listIdOf href = Some rest /\ trailingPathSegment href = rest)
          /\ scanLink l = match listIdOf href, badgeOf l with
                          | Some (String c id), Some badge =>
                              Some (describe l (String c id) badge)
                          | _, _ => None
                          end
          /\ (List.length (descriptorsOf l) <= 1)%nat)
  /\ (forall info,
        In info (findAllListLinks doc) ->
        listId info <> EmptyString
        /\ exists badge,
             In badge (DOM.docElements doc)
             /\ DOM.matches badgeSelector badge = true
             /\ DOM.uidOf badge = Some (countBadge info)
             /\ currentCount info
                = JS.orZero (JS.parseInt (JS.trim (DOM.textContent badge)))
             /\ (JS.parseInt (JS.trim (DOM.textContent badge)) = None ->
                 currentCount info = 0)).
Proof.
  split; [apply findAllListLinks_flat_map|]. split; [apply sidebarLinks_iff|]. split.
  - intros l Hl. apply sidebarLinks_iff in Hl as (sidebar & _ & _ & Hm).
    destruct (listLink_shape _ Hm) as (Htag & href & Hhref & Hinc).
    destruct (JS.cutAtFirst "/lists/" href) as [[pre rest]|] eqn:Ecut.
    2:{ apply cutAtFirst_None in Ecut. congruence. }
    exists href, pre, rest. split; [exact Htag|]. split; [exact Hhref|].
    split; [exact Ecut|]. split; [exact (proj1 (cutAtFirst_Some _ _ _ _ Ecut))|].
    split; [now rewrite listIdOf_cut, Ecut|].
    split; [intros Hrest; now apply (listIdOf_trailing href pre rest)|].
    split; [now apply scanLink_eq|apply descriptorsOf_at_most_one].
  - intros info Hinfo. split.
    + apply scanned_from_link in Hinfo as (l & _ & Hscan).
      apply scanLink_Some in Hscan as (href & badge & _ & _ & Hne & _). exact Hne.
    + destruct (scanned_badge doc info Hinfo) as (badge & Hin & Hm & Hu & Hcur).
      exists badge. repeat (split; [assumption|]).
      intros Hnan. rewrite Hcur, Hnan. reflexivity.
Qed.

(** On the sample page the scan finds "Reading" and "Later"; the badge of
    the nested link in the other sample reads "x", which counts as 0. *)
Lemma directory_scan_witness :
  findAllListLinks Sample.doc = [Sample.reading; Sample.later]
  /\ listId Sample.later <> EmptyString
  /\ map currentCount (findAllListLinks Sample.editDoc) = [2; 0].
Proof.
  destruct (directory_scan Sample.doc) as (Hscan & _ & _ & Hinfo).
  split; [rewrite Hscan; reflexivity|]. split; [|reflexivity].
  assert (Hlater : In Sample.later (findAllListLinks Sample.doc))
    by (vm_compute; right; left; reflexivity).
  exact (proj1 (Hinfo Sample.later Hlater)).
Defined.

(* ===================================================================== *)
(** ** Reading back a written count                                       *)
(* ===================================================================== *)

Lemma trimEnd_noWhiteSpace (s : string) : noWhiteSpace s = true -> JS.trimEnd s = s.
Proof.
  induction s as [|c s IH]; [reflexivity|].
  cbn [noWhiteSpace JS.trimEnd]. intros H. apply andb_prop in H as [Hc Hs].
  apply negb_true_iff in Hc. rewrite (IH Hs), Hc. now destruct s.
Qed.

Lemma trim_noWhiteSpace (s : string) : noWhiteSpace s = true -> JS.trim s = s.
Proof.
  intros H. unfold JS.trim.
  assert (Hs : JS.trimStart s = s).
  { destruct s as [|c s]; [reflexivity|]. cbn [noWhiteSpace JS.trimStart] in *.
    apply andb_prop in H as [Hc _]. apply negb_true_iff in Hc. now rewrite Hc. }
  rewrite Hs. now apply trimEnd_noWhiteSpace.
Qed.

Lemma digits_noWhiteSpace (d : Decimal.uint) :
  noWhiteSpace (NilEmpty.string_of_uint d) = true.
Proof. induction d; cbn [NilEmpty.string_of_uint noWhiteSpace]; try reflexivity; exact IHd. Qed.

(** One step of [parseDigits] on a decimal digit. *)
Ltac read_digit :=
  cbn [JS.parseDigits NilEmpty.string_of_uint];
  match goal with
  | |- context [JS.digitValue 10 ?c] =>
      let v := eval vm_compute in (JS.digitValue 10 c) in
      change (JS.digitValue 10 c) with v
  end;
  cbn iota.

(** Reading a run of decimal digits with a positive value already read. *)
Lemma parseDigits_acc (d : Decimal.uint) (acc : positive) :
  JS.parseDigits 10 (Some (Zpos acc)) (NilEmpty.string_of_uint d)
  = Some (Zpos (Pos.of_uint_acc d acc)).
Proof.
  revert acc. induction d; intros acc; cbn [Pos.of_uint_acc]; [reflexivity|..];
    read_digit;
    match goal with
    | |- JS.parseDigits 10 (Some ?z) _ = Some (Zpos (Pos.of_uint_acc _ ?p)) =>
        replace z with (Zpos p) by lia
    end;
    apply IHd.
Qed.

(** Reading a run of decimal digits from the start. *)
Lemma parseDigits_zero (d : Decimal.uint) :
  JS.parseDigits 10 (Some 0) (NilEmpty.string_of_uint d) = Some (Z.of_N (Pos.of_uint d)).
Proof.
  induction d; cbn [Pos.of_uint]; [reflexivity|..]; read_digit;
    [exact IHd|..]; apply parseDigits_acc.
Qed.

Lemma parseDigits_start (d : Decimal.uint) :
  d <> Decimal.Nil ->
  JS.parseDigits 10 None (NilEmpty.string_of_uint d) = Some (Z.of_N (Pos.of_uint d)).
Proof.
  intros Hd. rewrite <- parseDigits_zero. destruct d; [congruence|..]; reflexivity.
Qed.

(** [parseInt] reads a run of decimal digits as the number it denotes. *)
Lemma parseInt_digits (d : Decimal.uint) :
  d <> Decimal.Nil ->
  JS.parseInt (NilEmpty.string_of_uint d) = Some (Z.of_N (Pos.of_uint d)).
Proof.
  intros Hd. rewrite <- (parseDigits_start d Hd).
  assert (Hgen : JS.parseInt (NilEmpty.string_of_uint d)
                 = match JS.parseDigits 10 None (NilEmpty.string_of_uint d) with
                   | Some v => Some (1 * v)
                   | None => None
                   end).
  { destruct d as [|d|d|d|d|d|d|d|d|d|d]; [congruence|..]; try reflexivity.
    destruct d; reflexivity. }
  rewrite Hgen, (parseDigits_start d Hd). f_equal. lia.
Qed.

(** [parseInt(n.toString())] is [n] for a count. *)
Lemma parseInt_toString (n : Z) :
  0 <= n -> JS.parseInt (JS.trim (JS.toString n)) = Some n.
Proof.
  intros Hn. destruct n as [|p|p]; [reflexivity| |lia].
  unfold JS.toString. cbn [Z.to_int NilZero.string_of_int].
  pose proof (DecimalPos.Unsigned.to_uint_nonnil p) as Hnil.
  assert (Hs : NilZero.string_of_uint (Pos.to_uint p)
               = NilEmpty.string_of_uint (Pos.to_uint p))
    by (unfold NilZero.string_of_uint; destruct (Pos.to_uint p); congruence).
  rewrite Hs, (trim_noWhiteSpace _ (digits_noWhiteSpace _)), (parseInt_digits _ Hnil).
  now rewrite DecimalPos.Unsigned.of_to.
Qed.

Lemma countBookmarksInDocument_nonneg (doc : Document) :
  0 <= countBookmarksInDocument doc.
Proof. rewrite countBookmarksInDocument_fold, fold_documentCardStep. lia. Qed.

Lemma countVisibleBookmarks_main (p : Page) (n : Z) :
  countVisibleBookmarks p = Some n ->
  exists main, DOM.docQuerySelector mainSelector (document p) = Some main.
Proof.
  unfold countVisibleBookmarks.
  destruct (DOM.docQuerySelector mainSelector (document p)); [eauto|discriminate].
Qed.

Lemma countVisibleBookmarks_nonneg (p : Page) (n : Z) :
  countVisibleBookmarks p = Some n -> 0 <= n.
Proof.
  intros H. destruct (countVisibleBookmarks_main p n H) as [main Hmain].
  rewrite (countVisibleBookmarks_fold p main Hmain), fold_visibleCardStep in H.
  injection H as <-. lia.
Qed.

(** A fetched count is the count of some parsed response body. *)
Lemma fetch_result (env : Env) (id : string) (n : Z) :
  fetchListBookmarkCount env id = Fulfilled (Some n) ->
  exists html, n = countBookmarksInDocument (parseFromString env html).
Proof.
  unfold fetchListBookmarkCount.
  destruct (fetchWithSignal (fetchOutcome env (listUrl id))) as [response|e|];
    cbn [andThen tryCatch]; try discriminate.
  destruct (negb (ok response)); cbn [tryCatch]; [discriminate|].
  unfold responseText. destruct (body response) as [html| |]; cbn [andThen tryCatch];
    try discriminate.
  intros [= <-]. eauto.
Qed.

(** A resolved count is never negative. *)
Lemma resolved_nonneg (env : Env) (p : Page) (id : string) (n : Z) :
  getUnarchivedCountForList env p id = Fulfilled (Some n) -> 0 <= n.
Proof.
  unfold getUnarchivedCountForList. destruct (isCurrentList p id).
  - intros [= H]. exact (countVisibleBookmarks_nonneg p n H).
  - intros H. destruct (fetch_result env id n H) as [html ->].
    apply countBookmarksInDocument_nonneg.
Qed.

Lemma resolution_never_rejects (env : Env) (p : Page) (id : string) (e : JSError) :
  getUnarchivedCountForList env p id <> Rejected e.
Proof.
  unfold getUnarchivedCountForList. destruct (isCurrentList p id); [discriminate|].
  apply fetch_never_rejects.
Qed.

(** X1.  When an update writes a resolved count into the badge of a scanned
    list, the badge element read back from the document has that count in
    decimal as its text, and this text parses, the way the scan parses a
    badge, to exactly that count. *)
Theorem written_count_is_read_back (env : Env) (p : Page) (info : ListInfo) (n : Z) :
  In info (findAllListLinks (document p)) ->
  getUnarchivedCountForList env p (listId info) = Fulfilled (Some n) ->
  n <> currentCount info ->
  exists b',
    DOM.getElementByUid (countBadge info) (fst (fst (updateListCount env p info))) = Some b'
    /\ DOM.textContent b' = JS.toString n
    /\ JS.orZero (JS.parseInt (JS.trim (DOM.textContent b'))) = n.
Proof.
  intros Hinfo Hres Hne.
  destruct (scanned_badge _ _ Hinfo) as (badge & Hin & _ & Hu & _).
  destruct (written_text_is_read_back (countBadge info) (JS.toString n) (document p)
              badge Hin Hu) as (b' & Hget & _ & Htext).
  exists b'. unfold updateListCount. rewrite Hres. unfold finishUpdate.
  apply Z.eqb_neq in Hne. rewrite Hne. cbn [negb fst].
  split; [exact Hget|]. split; [exact Htext|].
  rewrite Htext, (parseInt_toString n (resolved_nonneg _ _ _ _ Hres)). reflexivity.
Qed.

(** "Reading" shows 2 and resolves to 1; the badge then parses to 1. *)
Lemma written_count_is_read_back_witness :
  exists b',
    DOM.getElementByUid 12 (fst (fst (updateListCount Sample.env Sample.page Sample.reading)))
    = Some b'
    /\ DOM.textContent b' = "1"
    /\ JS.orZero (JS.parseInt (JS.trim (DOM.textContent b'))) = 1.
Proof.
  assert (Hin : In Sample.reading (findAllListLinks (document Sample.page)))
    by (vm_compute; left; reflexivity).
  assert (Hne : 1 <> currentCount Sample.reading) by (vm_compute; discriminate).
  exact (written_count_is_read_back Sample.env Sample.page Sample.reading 1
           Hin eq_refl Hne).
Defined.

(* ===================================================================== *)
(** ** The shape of a run                                                 *)
(* ===================================================================== *)

(** What any call of the run entry point returns, for any settling order. *)
Lemma run_shape (resolve : string -> Completion (option Z))
      (resolveEvents : string -> list Event) (now : Z) (order : list nat)
      (c : Counter) (doc : Document) :
  updateAllListCountsWith resolve resolveEvents now order c doc
  = if gateOpen now c && pageReady doc then
      let pending := startUpdates resolve (findAllListLinks doc) in
      {| counterAfter := setLastUpdateTime now c;
         documentAfter := applyEvents (flat_map (writesAt pending) order) doc;
         events := [EvQuerySidebar; EvScan]
                   ++ flat_map (fun info => resolveEvents (listId info))
                               (findAllListLinks doc)
                   ++ flat_map (writesAt pending) order;
         settled := flat_map (resultAt pending) order |}
    else
      idleRun c doc
        (if gateOpen now c then
           if isSome (DOM.docQuerySelector asideSelector doc)
           then [EvQuerySidebar; EvScan] else [EvQuerySidebar]
         else []).
Proof.
  unfold updateAllListCountsWith, gateOpen, pageReady.
  destruct (now - lastUpdateTime c <? updateCooldown c); [reflexivity|].
  destruct (DOM.docQuerySelector asideSelector doc); [|reflexivity].
  destruct (List.length (findAllListLinks doc) =? 0)%nat; [reflexivity|].
  cbn [negb isSome andb]. unfold reconcile. now rewrite settleAll_spec.
Qed.

Lemma writesAt_from (resolve : string -> Completion (option Z))
      (listLinks : list ListInfo) (order : list nat) (e : Event) :
  In e (flat_map (writesAt (startUpdates resolve listLinks)) order) ->
  exists info, In info listLinks /\ In e (writeBack info (resolve (listId info))).
Proof.
  intros H. apply in_flat_map in H as (i & _ & H). unfold writesAt in H.
  destruct (nth_error (startUpdates resolve listLinks) i) as [[info r]|] eqn:E;
    [|destruct H].
  apply nth_error_In in E. unfold startUpdates in E.
  apply in_map_iff in E as (info' & [= -> <-] & Hin). eauto.
Qed.

Lemma writeBack_only_writes (info : ListInfo) (resolved : Completion (option Z)) (e : Event) :
  In e (writeBack info resolved) -> exists k s, e = EvWrite k s.
Proof.
  unfold writeBack. destruct resolved as [[n|]|err|]; try (intros []).
  destruct (negb (n =? currentCount info)); [|intros []].
  intros [<-|[]]. eauto.
Qed.

Lemma resolutionEvents_no_write (p : Page) (id : string) (k : nat) (s : string) :
  ~ In (EvWrite k s) (resolutionEvents p id).
Proof.
  unfold resolutionEvents. destruct (isCurrentList p id); intros [H|[]]; discriminate.
Qed.

(** Every write of a run is the write-back of a scanned list. *)
Lemma run_write_from (env : Env) (now : Z) (order : list nat) (c : Counter) (p : Page)
      (k : nat) (s : string) :
  In (EvWrite k s) (events (updateAllListCounts env now order c p)) ->
  exists info,
    In info (findAllListLinks (document p))
    /\ In (EvWrite k s)
          (writeBack info (getUnarchivedCountForList env p (listId info))).
Proof.
  unfold updateAllListCounts. rewrite run_shape.
  destruct (gateOpen now c && pageReady (document p)).
  - cbn [events]. intros H. apply in_app_or in H as [[H|[H|[]]]|H]; try discriminate.
    apply in_app_or in H as [H|H].
    + apply in_flat_map in H as (info & _ & H).
      destruct (resolutionEvents_no_write _ _ _ _ H).
    + now apply writesAt_from in H.
  - cbn [events idleRun]. destruct (gateOpen now c); [|intros []].
    destruct (isSome (DOM.docQuerySelector asideSelector (document p)));
      intros H; repeat (destruct H as [H|H]; try discriminate); destruct H.
Qed.

(** X3.  Whatever the settling order, a run writes nothing but the decimal
    text of a resolved, non-negative count that differs from the displayed
    one, and only into the badge of a list found by its scan - an element
    of the scanned document that matches the badge selector. *)
Theorem run_writes_only_resolved_counts
    (env : Env) (now : Z) (order : list nat) (c : Counter) (p : Page)
    (k : nat) (s : string) :
  In (EvWrite k s) (events (updateAllListCounts env now order c p)) ->
  exists info n badge,
    In info (findAllListLinks (document p))
    /\ k = countBadge info
    /\ getUnarchivedCountForList env p (listId info) = Fulfilled (Some n)
    /\ n <> currentCount info /\ 0 <= n /\ s = JS.toString n
    /\ In badge (DOM.docElements (document p))
    /\ DOM.uidOf badge = Some k
    /\ DOM.matches badgeSelector badge = true.
Proof.
  intros H. apply run_write_from in H as (info & Hinfo & Hw).
  apply writeBack_target in Hw as (-> & n & Hn & Hne & ->).
  destruct (scanned_badge _ _ Hinfo) as (badge & Hin & Hm & Hu & _).
  exists info, n, badge. repeat (split; [assumption || reflexivity|]).
  split; [exact (resolved_nonneg _ _ _ _ Hn)|]. auto.
Qed.

(** The write into badge 22 in the sample run is the count 5 of "Later". *)
Lemma run_writes_only_resolved_counts_witness :
  exists info n badge,
    In info (findAllListLinks (document Sample.page))
    /\ 22%nat = countBadge info
    /\ getUnarchivedCountForList Sample.env Sample.page (listId info) = Fulfilled (Some n)
    /\ n <> currentCount info /\ 0 <= n /\ "5" = JS.toString n
    /\ In badge (DOM.docElements (document Sample.page))
    /\ DOM.uidOf badge = Some 22%nat
    /\ DOM.matches badgeSelector badge = true.
Proof.
  apply (run_writes_only_resolved_counts Sample.env 1700000000000 [0%nat; 1%nat]
           constructor Sample.page 22 "5").
  vm_compute. do 5 right. left. reflexivity.
Defined.

(** X2.  A run in which every discovered list resolves to the count it
    already displays, or to [null], performs no write and returns the
    document as it was, whatever the settling order. *)
Theorem up_to_date_run_changes_nothing
    (env : Env) (now : Z) (order : list nat) (c : Counter) (p : Page) :
  (forall info, In info (findAllListLinks (document p)) ->
     getUnarchivedCountForList env p (listId info) = Fulfilled (Some (currentCount info))
     \/ getUnarchivedCountForList env p (listId info) = Fulfilled None) ->
  documentAfter (updateAllListCounts env now order c p) = document p
  /\ forall k s, ~ In (EvWrite k s) (events (updateAllListCounts env now order c p)).
Proof.
  intros Hsame.
  assert (Hnone : forall info, In info (findAllListLinks (document p)) ->
            writeBack info (getUnarchivedCountForList env p (listId info)) = []).
  { intros info Hinfo. destruct (Hsame info Hinfo) as [-> | ->]; cbn [writeBack];
      [now rewrite Z.eqb_refl|reflexivity]. }
  split.
  - unfold updateAllListCounts. rewrite run_shape.
    destruct (gateOpen now c && pageReady (document p)); [|reflexivity].
    cbn [documentAfter].
    assert (Hw : flat_map (writesAt (startUpdates (getUnarchivedCountForList env p)
                                       (findAllListLinks (document p)))) order = []).
    { destruct (flat_map _ order) as [|e l] eqn:E; [reflexivity|].
      assert (He : In e (e :: l)) by now left. rewrite <- E in He.
      apply writesAt_from in He as (info & Hinfo & He).
      rewrite (Hnone info Hinfo) in He. destruct He. }
    now rewrite Hw.
  - intros k s H. apply run_write_from in H as (info & Hinfo & H).
    rewrite (Hnone info Hinfo) in H. destruct H.
Qed.

(** A second run on the page that the sample run has corrected changes
    nothing. *)
Lemma up_to_date_run_changes_nothing_witness :
  documentAfter (updateAllListCounts Sample.env 1700000020000 [1%nat; 0%nat]
                   constructor Scenario.settledPage)
  = document Scenario.settledPage.
Proof.
  apply (up_to_date_run_changes_nothing Sample.env 1700000020000 [1%nat; 0%nat]
           constructor Scenario.settledPage).
  intros info Hin. vm_compute in Hin. destruct Hin as [<-|[<-|[]]]; left; reflexivity.
Defined.

(* ===================================================================== *)
(** ** Live count against document count                                  *)
(* ===================================================================== *)

Lemma filter_filter_length {A : Type} (f g : A -> bool) (l : list A) :
  (List.length (List.filter g (List.filter f l)) <= List.length (List.filter g l))%nat.
Proof.
  induction l as [|x l IH]; [reflexivity|].
  cbn [List.filter]. destruct (f x); cbn [List.filter]; destruct (g x);
    cbn [List.length]; lia.
Qed.

(** X13.  On the same page the live count never exceeds the count that the
    document counter gives: the style signals can only take cards away. *)
Theorem live_count_at_most_document_count (p : Page) (n : Z) :
  countVisibleBookmarks p = Some n ->
  0 <= n <= countBookmarksInDocument (document p).
Proof.
  intros H. split; [exact (countVisibleBookmarks_nonneg p n H)|].
  destruct (countVisibleBookmarks_main p n H) as [main Hmain].
  rewrite (countVisibleBookmarks_fold p main Hmain) in H. injection H as <-.
  rewrite fold_visible_as_document, countBookmarksInDocument_fold,
    !fold_documentCardStep.
  pose proof (filter_filter_length
                (fun c => negb (hiddenByStyle (getComputedStyle p) c))
                (fun c => documentCardStep 0 c =? 1)
                (bookmarkCards (document p))). lia.
Qed.

(** On the sample page one counted card is faded: 1 live against 2. *)
Lemma live_count_at_most_document_count_witness :
  0 <= 1 <= countBookmarksInDocument (document Sample.page).
Proof. exact (live_count_at_most_document_count Sample.page 1 eq_refl). Defined.

(* ===================================================================== *)
(** ** The rate limit over a sequence of calls                            *)
(* ===================================================================== *)

(** Only a run that passed the gate and found the page ready counts,
    fetches or writes; it arms the gate. *)
Lemma proceeded_armed (env : Env) (now : Z) (order : list nat) (c : Counter) (p : Page) :
  proceeded (updateAllListCounts env now order c p) = true ->
  updateCooldown c <= now - lastUpdateTime c
  /\ counterAfter (updateAllListCounts env now order c p) = setLastUpdateTime now c.
Proof.
  unfold updateAllListCounts. rewrite run_shape. unfold gateOpen.
  destruct (now - lastUpdateTime c <? updateCooldown c) eqn:E; cbn [negb andb].
  - discriminate.
  - apply Z.ltb_ge in E. destruct (pageReady (document p)).
    + intros _. split; [exact E|reflexivity].
    + unfold proceeded. cbn [events idleRun].
      destruct (isSome (DOM.docQuerySelector asideSelector (document p))); discriminate.
Qed.

(** [lastUpdateTime] never moves back, and the cooldown never changes. *)
Lemma run_counter_monotone (env : Env) (now : Z) (order : list nat) (c : Counter) (p : Page) :
  0 <= updateCooldown c ->
  lastUpdateTime c <= lastUpdateTime (counterAfter (updateAllListCounts env now order c p))
  /\ updateCooldown (counterAfter (updateAllListCounts env now order c p)) = updateCooldown c.
Proof.
  intros Hcd. unfold updateAllListCounts. rewrite run_shape. unfold gateOpen.
  destruct (now - lastUpdateTime c <? updateCooldown c) eqn:E; cbn [negb andb].
  - cbn [counterAfter idleRun]. split; [lia|reflexivity].
  - apply Z.ltb_ge in E. destruct (pageReady (document p)); cbv zeta;
      cbn [counterAfter idleRun lastUpdateTime updateCooldown setLastUpdateTime];
      (split; [lia|reflexivity]).
Qed.

Lemma later_run_after_cooldown (calls : list Call) :
  forall (c : Counter) (j : nat) (kj : Call) (rj : Run),
    0 <= updateCooldown c ->
    nth_error calls j = Some kj -> nth_error (runCalls calls c) j = Some rj ->
    proceeded rj = true ->
    lastUpdateTime c + updateCooldown c <= callNow kj.
Proof.
  induction calls as [|k calls IH]; intros c j kj rj Hcd Hk Hr Hp.
  - destruct j; discriminate.
  - destruct j as [|j]; cbn [nth_error runCalls] in Hk, Hr.
    + injection Hk as <-. injection Hr as <-.
      destruct (proceeded_armed _ _ _ _ _ Hp) as [H _]. lia.
    + destruct (run_counter_monotone (callEnv k) (callNow k) (callOrder k) c (callPage k) Hcd)
        as [Hmono Hsame].
      assert (Hcd' : 0 <= updateCooldown
                (counterAfter (updateAllListCounts (callEnv k) (callNow k) (callOrder k)
                                 c (callPage k)))) by (rewrite Hsame; exact Hcd).
      pose proof (IH _ j kj rj Hcd' Hk Hr Hp) as H. lia.
Qed.

(** X4.  Over any sequence of calls of [updateAllListCounts] on one
    counter, whatever triggers them and whatever pages and networks they
    meet, any two runs that count, fetch or write lie at least
    [updateCooldown] apart on the clock, and the first of them lies at
    least that far after the initial [lastUpdateTime]. *)
Theorem proceeding_runs_are_spaced (calls : list Call) :
  forall (c : Counter) (i j : nat) (ki kj : Call) (ri rj : Run),
    0 <= updateCooldown c ->
    (i < j)%nat ->
    nth_error calls i = Some ki -> nth_error calls j = Some kj ->
    nth_error (runCalls calls c) i = Some ri ->
    nth_error (runCalls calls c) j = Some rj ->
    proceeded ri = true -> proceeded rj = true ->
    lastUpdateTime c + updateCooldown c <= callNow ki
    /\ callNow ki + updateCooldown c <= callNow kj.
Proof.
  induction calls as [|k calls IH]; intros c i j ki kj ri rj Hcd Hij Hki Hkj Hri Hrj Hpi Hpj.
  - destruct i; discriminate.
  - destruct j as [|j]; [lia|]. cbn [nth_error runCalls] in Hkj, Hrj.
    destruct (run_counter_monotone (callEnv k) (callNow k) (callOrder k) c (callPage k) Hcd)
      as [Hmono Hsame].
    assert (Hcd' : 0 <= updateCooldown
              (counterAfter (updateAllListCounts (callEnv k) (callNow k) (callOrder k)
                               c (callPage k)))) by (rewrite Hsame; exact Hcd).
    destruct i as [|i]; cbn [nth_error runCalls] in Hki, Hri.
    + injection Hki as <-. injection Hri as <-.
      destruct (proceeded_armed _ _ _ _ _ Hpi) as [Hopen Harm].
      split; [lia|].
      pose proof (later_run_after_cooldown calls _ j kj rj Hcd' Hkj Hrj Hpj) as H.
      rewrite Harm in H. cbn [lastUpdateTime updateCooldown setLastUpdateTime] in H. lia.
    + assert (Hij' : (i < j)%nat) by lia.
      destruct (IH _ i j ki kj ri rj Hcd' Hij' Hki Hkj Hri Hrj Hpi Hpj) as [H1 H2]. lia.
Qed.

(** Three calls at 0 s, 2 s and 12 s: the first and the third proceed and
    are 12 s apart. *)
Lemma proceeding_runs_are_spaced_witness :
  lastUpdateTime constructor + updateCooldown constructor <= 1700000000000
  /\ 1700000000000 + updateCooldown constructor <= 1700000012000.
Proof.
  set (calls := [Scenario.call 1700000000000; Scenario.call 1700000002000;
                 Scenario.call 1700000012000]).
  set (idle := idleRun constructor [] []).
  assert (Hcd : 0 <= updateCooldown constructor) by (vm_compute; discriminate).
  assert (E0 : nth_error (runCalls calls constructor) 0
               = Some (nth 0 (runCalls calls constructor) idle))
    by (vm_compute; reflexivity).
  assert (E2 : nth_error (runCalls calls constructor) 2
               = Some (nth 2 (runCalls calls constructor) idle))
    by (vm_compute; reflexivity).
  assert (H0 : proceeded (nth 0 (runCalls calls constructor) idle) = true)
    by (vm_compute; reflexivity).
  assert (H2 : proceeded (nth 2 (runCalls calls constructor) idle) = true)
    by (vm_compute; reflexivity).
  exact (proceeding_runs_are_spaced calls constructor 0 2
           (Scenario.call 1700000000000) (Scenario.call 1700000012000) _ _
           Hcd ltac:(lia) eq_refl eq_refl E0 E2 H0 H2).
Defined.

(* ===================================================================== *)
(** ** Which list is the current one                                      *)
(* ===================================================================== *)

Lemma listIdOf_without_separator (path : string) :
  JS.includes "/lists/" path = false -> listIdOf path = None.
Proof.
  intros H. rewrite listIdOf_cut.
  apply cutAtFirst_None in H. now rewrite H.
Qed.

(** X5.  While the path of the page contains no [/lists/], no list is the
    current one: every list's count is resolved by a fetch, and no run
    takes a live count. *)
Theorem no_live_count_off_list_pages (env : Env) (p : Page) :
  JS.includes "/lists/" (pathname p) = false ->
  (forall id, getUnarchivedCountForList env p id = fetchListBookmarkCount env id)
  /\ (forall now order c,
        ~ In EvCountLive (events (updateAllListCounts env now order c p))).
Proof.
  intros H.
  assert (Hcur : forall id, isCurrentList p id = false)
    by (intros id; unfold isCurrentList; now rewrite (listIdOf_without_separator _ H)).
  split.
  - intros id. unfold getUnarchivedCountForList. now rewrite Hcur.
  - intros now order c. unfold updateAllListCounts. rewrite run_shape.
    destruct (gateOpen now c && pageReady (document p)).
    + cbn [events]. intros Hin.
      apply in_app_or in Hin as [[Hin|[Hin|[]]]|Hin]; try discriminate.
      apply in_app_or in Hin as [Hin|Hin].
      * apply in_flat_map in Hin as (info & _ & Hin).
        unfold resolutionEvents in Hin. rewrite Hcur in Hin.
        destruct Hin as [Hin|[]]. discriminate.
      * apply writesAt_from in Hin as (info & _ & Hin).
        apply writeBack_only_writes in Hin as (k & s & Hin). discriminate.
    + cbn [events idleRun]. destruct (gateOpen now c); [|intros []].
      destruct (isSome (DOM.docQuerySelector asideSelector (document p)));
        intros Hin; repeat (destruct Hin as [Hin|Hin]; try discriminate); destruct Hin.
Qed.

(** On the bookmarks overview also "Reading" is fetched. *)
Lemma no_live_count_off_list_pages_witness :
  getUnarchivedCountForList Sample.env Scenario.overviewPage "abc123"
  = fetchListBookmarkCount Sample.env "abc123".
Proof.
  destruct (no_live_count_off_list_pages Sample.env Scenario.overviewPage eq_refl)
    as [H _].
  exact (H "abc123").
Defined.

(** An occurrence somewhere in a string begins a suffix of it. *)
Lemma includes_suffix (needle s : string) :
  JS.includes needle s = true ->
  exists s1 s2, s = (s1 ++ s2)%string /\ JS.startsWith needle s2 = true.
Proof.
  induction s as [|c s IH]; cbn [JS.includes]; intros H.
  - rewrite orb_false_r in H. exists EmptyString, EmptyString. auto.
  - apply orb_prop in H as [H|H].
    + exists EmptyString, (String c s). auto.
    + destruct (IH H) as (s1 & s2 & -> & H2). exists (String c s1), s2. auto.
Qed.

Lemma startsWith_extend (needle s t : string) :
  JS.startsWith needle s = true -> JS.startsWith needle (s ++ t)%string = true.
Proof.
  revert s. induction needle as [|a n IH]; intros s H; [apply startsWith_nil|].
  destruct s as [|c s]; [discriminate H|].
  apply startsWith_cons in H as [-> H].
  change (JS.startsWith (String c n) (String c (s ++ t)%string) = true).
  apply startsWith_cons. auto.
Qed.

(** The text before the first occurrence of a separator holds none. *)
Lemma cutAtFirst_before_clean (sep s before after : string) :
  sep <> EmptyString -> JS.cutAtFirst sep s = Some (before, after) ->
  JS.includes sep before = false.
Proof.
  intros Hsep Hcut. destruct (cutAtFirst_Some _ _ _ _ Hcut) as [_ Hfirst].
  destruct (JS.includes sep before) eqn:E; [|reflexivity].
  destruct (includes_suffix _ _ E) as (b1 & b2 & Hb & Hstart).
  assert (Hne : b2 <> EmptyString).
  { intros ->. destruct sep; [congruence|discriminate Hstart]. }
  pose proof (Hfirst b1 b2 Hb Hne) as Hno.
  rewrite (startsWith_extend sep b2 (sep ++ after)%string Hstart) in Hno.
  discriminate Hno.
Qed.

Lemma listIdOf_clean (href id : string) :
  listIdOf href = Some id -> JS.includes "/lists/" id = false.
Proof.
  rewrite listIdOf_cut.
  destruct (JS.cutAtFirst "/lists/" href) as [[pre rest]|]; [|discriminate].
  destruct (JS.cutAtFirst "/lists/" rest) as [[b more]|] eqn:E; intros [= <-].
  - apply (cutAtFirst_before_clean "/lists/" rest b more); [discriminate|exact E].
  - now apply cutAtFirst_None.
Qed.

Lemma listIdOf_listUrl (id : string) :
  JS.includes "/lists/" id = false -> listIdOf (listUrl id) = Some id.
Proof.
  intros H. rewrite listIdOf_cut.
  assert (Hcut : JS.cutAtFirst "/lists/" (listUrl id) = Some ("/dashboard", id))
    by (destruct id; reflexivity).
  rewrite Hcut. apply cutAtFirst_None in H. now rewrite H.
Qed.

(** X14.  The list id of a scanned descriptor holds no [/lists/], so the
    scanner's extraction applied to the URL that the fetcher builds from it
    gives the id back: on the page that is fetched for a list, that list
    is the current one. *)
Theorem fetched_url_names_its_list (doc : Document) (info : ListInfo) :
  In info (findAllListLinks doc) ->
  JS.includes "/lists/" (listId info) = false
  /\ listIdOf (listUrl (listId info)) = Some (listId info)
  /\ forall p, pathname p = listUrl (listId info) -> isCurrentList p (listId info) = true.
Proof.
  intros Hinfo. apply scanned_from_link in Hinfo as (l & _ & Hscan).
  apply scanLink_Some in Hscan as (href & badge & _ & Hid & _).
  pose proof (listIdOf_clean _ _ Hid) as Hclean.
  split; [exact Hclean|]. split; [now apply listIdOf_listUrl|].
  intros p Hp. apply isCurrentList_iff. rewrite Hp. now apply listIdOf_listUrl.
Qed.

(** Also for the id cut out of a link to a nested list. *)
Lemma fetched_url_names_its_list_witness :
  listIdOf "/dashboard/lists/abc123" = Some "abc123".
Proof.
  assert (Hin : In (describe (hd (TextNode "", []) (tl (sidebarLinks Sample.editDoc)))
                             "abc123" (Sample.badge 22 "x"))
                   (findAllListLinks Sample.editDoc))
    by (vm_compute; right; left; reflexivity).
  destruct (fetched_url_names_its_list Sample.editDoc _ Hin) as (_ & H & _).
  exact H.
Defined.

(* ===================================================================== *)
(** ** A fetched page without a main region                               *)
(* ===================================================================== *)

(** X6.  When the page fetched for a scanned list arrives in time with a
    success status but its parsed document has no main region, the fetched
    count is 0 - the fetched path has no "unknown" for a page it cannot
    read, unlike the live path.  The update then overwrites the badge with
    "0" exactly when the badge's text, parsed as the scan parses it, is a
    number other than 0; a badge whose text parses to 0 or to no number at
    all (an empty or a non-numeric text) is left as it is. *)
Theorem fetched_page_without_main_zeroes_badge
    (env : Env) (p : Page) (info : ListInfo) (latency : Z) (r : Response) (html : string) :
  In info (findAllListLinks (document p)) ->
  isCurrentList p (listId info) = false ->
  fetchOutcome env (listUrl (listId info)) = Responds latency r ->
  latency < fetchTimeout -> ok r = true -> body r = BodyText html ->
  DOM.docQuerySelector mainSelector (parseFromString env html) = None ->
  let overwritten :=
    (DOM.writeText (countBadge info) "0" (document p),
     [EvFetch (listUrl (listId info)); EvWrite (countBadge info) "0"],
     Fulfilled tt) in
  let untouched := (document p, [EvFetch (listUrl (listId info))], Fulfilled tt) in
  fetchListBookmarkCount env (listId info) = Fulfilled (Some 0)
  /\ (currentCount info <> 0 -> updateListCount env p info = overwritten)
  /\ (currentCount info = 0 -> updateListCount env p info = untouched)
  /\ (exists badge,
        In badge (DOM.docElements (document p))
        /\ DOM.uidOf badge = Some (countBadge info)
        /\ (forall n, JS.parseInt (JS.trim (DOM.textContent badge)) = Some n -> n <> 0 ->
                      updateListCount env p info = overwritten)
        /\ (JS.parseInt (JS.trim (DOM.textContent badge)) = Some 0 \/
            JS.parseInt (JS.trim (DOM.textContent badge)) = None ->
            updateListCount env p info = untouched)).
Proof.
  intros Hinfo Hcur Hout Hlat Hok Hbody Hmain overwritten untouched.
  assert (Hzero : fetchListBookmarkCount env (listId info) = Fulfilled (Some 0)).
  { rewrite (fetch_success env _ latency r html Hout Hlat Hok Hbody).
    unfold countBookmarksInDocument. now rewrite Hmain. }
  assert (Hover : currentCount info <> 0 -> updateListCount env p info = overwritten).
  { intros Hc. unfold updateListCount, getUnarchivedCountForList, resolutionEvents.
    rewrite Hcur, Hzero. unfold finishUpdate.
    assert (H0 : (0 =? currentCount info) = false) by (apply Z.eqb_neq; lia).
    rewrite H0. reflexivity. }
  assert (Hkeep : currentCount info = 0 -> updateListCount env p info = untouched).
  { intros Hc. unfold updateListCount, getUnarchivedCountForList, resolutionEvents.
    rewrite Hcur, Hzero. unfold finishUpdate. rewrite Hc. reflexivity. }
  split; [exact Hzero|]. split; [exact Hover|]. split; [exact Hkeep|].
  destruct (scanned_badge _ _ Hinfo) as (badge & Hin & _ & Hu & Hc).
  exists badge. split; [exact Hin|]. split; [exact Hu|]. split.
  - intros n Hn Hne. apply Hover. rewrite Hc, Hn. exact Hne.
  - intros [Hn|Hn]; apply Hkeep; rewrite Hc, Hn; reflexivity.
Qed.

(** The page served for "Later" is an empty shell: its badge goes from 8
    to 0.  Had the badge read "n/a", it would have been left as it is. *)
Lemma fetched_page_without_main_zeroes_badge_witness :
  updateListCount Scenario.shellEnv Sample.page Sample.later
  = (DOM.writeText 22 "0" Sample.doc,
     [EvFetch "/dashboard/lists/xyz789"; EvWrite 22 "0"], Fulfilled tt)
  /\ updateListCount Scenario.shellEnv Scenario.unreadPage Scenario.unreadLater
     = (document Scenario.unreadPage, [EvFetch "/dashboard/lists/xyz789"], Fulfilled tt).
Proof.
  split.
  - assert (Hin : In Sample.later (findAllListLinks (document Sample.page)))
      by (vm_compute; right; left; reflexivity).
    destruct (fetched_page_without_main_zeroes_badge Scenario.shellEnv Sample.page
                Sample.later 80 {| status := 200; body := BodyText "shell" |} "shell"
                Hin eq_refl eq_refl eq_refl eq_refl eq_refl eq_refl) as (_ & Hw & _).
    apply Hw. vm_compute. discriminate.
  - assert (Hin : In Scenario.unreadLater (findAllListLinks (document Scenario.unreadPage)))
      by (vm_compute; right; left; reflexivity).
    destruct (fetched_page_without_main_zeroes_badge Scenario.shellEnv Scenario.unreadPage
                Scenario.unreadLater 80 {| status := 200; body := BodyText "shell" |} "shell"
                Hin eq_refl eq_refl eq_refl eq_refl eq_refl eq_refl)
      as (_ & _ & Hk & _).
    apply Hk. reflexivity.
Defined.

(* ===================================================================== *)
(** ** The mutation observer                                              *)
(* ===================================================================== *)

Lemma matches_tagSelector (t : string) (e : Node) :
  DOM.matches (tagSelector t) e = true <-> DOM.isElement e = true /\ DOM.tagOf e = t.
Proof.
  unfold DOM.matches, tagSelector. cbn [DOM.selTag DOM.selClasses DOM.selAttr forallb].
  rewrite !andb_true_r, andb_true_iff, String.eqb_eq. tauto.
Qed.

Lemma isSome_find {A : Type} (f : A -> bool) (l : list A) :
  isSome (find f l) = existsb f l.
Proof.
  induction l as [|x l IH]; [reflexivity|]. cbn [find existsb].
  destruct (f x); [reflexivity|exact IH].
Qed.

(** An added node counts exactly when it is, or holds, an [aside] or a
    [main] element. *)
Lemma bringsRegion_iff (node : Node) :
  DOM.isElement node && bringsRegion node = true <->
  exists e, In e (DOM.elementsOf node) /\ (DOM.tagOf e = "aside" \/ DOM.tagOf e = "main").
Proof.
  destruct node as [d|u t a cs]; [split; [discriminate|intros (e & [] & _)]|].
  cbn [DOM.isElement andb]. unfold bringsRegion, DOM.querySelector.
  rewrite !isSome_find. unfold DOM.descendants. cbn [DOM.childrenOf DOM.elementsOf].
  rewrite !orb_true_iff, !existsb_exists. split.
  - intros [[(e & He & Hm)|(e & He & Hm)]|[Hm|Hm]];
      apply matches_tagSelector in Hm as [_ Hm]; eauto 6.
    + exists e. split; [now right|now left].
    + exists e. split; [now right|now right].
    + exists (Element u t a cs). split; [now left|now left].
    + exists (Element u t a cs). split; [now left|now right].
  - assert (Hel : forall e, In e (flat_map DOM.elementsOf cs) -> DOM.isElement e = true).
    { intros e He. apply in_flat_map in He as (c & _ & He).
      destruct c as [d|u' t' a' cs']; [destruct He|].
      assert (Hall : forall n x, In x (DOM.elementsOf n) -> DOM.isElement x = true).
      { induction n as [d|u1 t1 a1 cs1 IH] using Node_induction; [intros x []|].
        intros x [<-|Hx]; [reflexivity|]. apply in_flat_map in Hx as (c1 & Hc1 & Hx).
        rewrite List.Forall_forall in IH. exact (IH c1 Hc1 x Hx). }
      exact (Hall _ _ He). }
    intros (e & [<-|He] & [Ht|Ht]).
    + right. left. apply matches_tagSelector. auto.
    + right. right. apply matches_tagSelector. auto.
    + left. left. exists e. split; [exact He|]. apply matches_tagSelector. auto.
    + left. right. exists e. split; [exact He|]. apply matches_tagSelector. auto.
Qed.

Lemma fold_addedNodeStep (nodes : list Node) (acc : bool) :
  fold_left addedNodeStep nodes acc
  = acc || existsb (fun n => DOM.isElement n && bringsRegion n) nodes.
Proof.
  revert acc. induction nodes as [|n nodes IH]; intros acc; [now rewrite orb_false_r|].
  cbn [fold_left existsb]. rewrite IH. unfold addedNodeStep.
  destruct (DOM.isElement n); cbn [andb]; [destruct (bringsRegion n)|];
    destruct acc; reflexivity.
Qed.

Lemma mutationStep_or (acc : bool) (m : MutationRecord) :
  mutationStep acc m
  = acc || match mutationType m with
           | ChildList => existsb (fun n => DOM.isElement n && bringsRegion n) (addedNodes m)
           | _ => false
           end.
Proof.
  unfold mutationStep. destruct (mutationType m); try now rewrite orb_false_r.
  destruct (addedNodes m) as [|n nodes]; [cbn; now rewrite orb_false_r|].
  cbn [List.length Nat.ltb Nat.leb]. apply fold_addedNodeStep.
Qed.

Lemma fold_mutationStep (ms : list MutationRecord) (acc : bool) :
  fold_left mutationStep ms acc
  = acc || existsb (fun m => match mutationType m with
                             | ChildList =>
                                 existsb (fun n => DOM.isElement n && bringsRegion n)
                                         (addedNodes m)
                             | _ => false
                             end) ms.
Proof.
  revert acc. induction ms as [|m ms IH]; intros acc; [now rewrite orb_false_r|].
  cbn [fold_left existsb]. rewrite IH, mutationStep_or. now rewrite orb_assoc.
Qed.

(** X7.  A batch of mutations is a significant change exactly when some
    child-list mutation adds a node that is, or holds anywhere below it, an
    [aside] or a [main] element.  Text nodes, and mutations of other
    types, never count. *)
Theorem significant_change_iff (mutations : list MutationRecord) :
  significantChange mutations = true <->
  exists m node e,
    In m mutations /\ mutationType m = ChildList
    /\ In node (addedNodes m) /\ In e (DOM.elementsOf node)
    /\ (DOM.tagOf e = "aside" \/ DOM.tagOf e = "main").
Proof.
  unfold significantChange. rewrite fold_mutationStep. cbn [orb].
  rewrite existsb_exists. split.
  - intros (m & Hm & H). destruct (mutationType m) eqn:Et; try discriminate.
    apply existsb_exists in H as (node & Hnode & H).
    apply bringsRegion_iff in H as (e & He & Ht).
    exists m, node, e. auto.
  - intros (m & node & e & Hm & Et & Hnode & He & Ht).
    exists m. split; [exact Hm|]. rewrite Et. apply existsb_exists.
    exists node. split; [exact Hnode|]. apply bringsRegion_iff. eauto.
Qed.

(** A wrapper two levels above the main region counts; a text node and an
    attribute change do not. *)
Lemma significant_change_iff_witness :
  significantChange [Scenario.changesAttribute; Scenario.insertsText; Scenario.insertsMain]
  = true
  /\ significantChange [Scenario.changesAttribute; Scenario.insertsText] = false.
Proof.
  split; [|reflexivity]. apply significant_change_iff.
  exists Scenario.insertsMain,
         (Element 50 "div" [] [Element 51 "section" [] [Sample.mainRegion]]),
         Sample.mainRegion.
  split; [right; right; left; reflexivity|]. split; [reflexivity|].
  split; [left; reflexivity|]. split; [right; right; left; reflexivity|].
  right. reflexivity.
Defined.

(** X8.  After a callback the observer remembers the URL it has just
    seen, so a change of URL is acted on once: a further callback at the
    same URL sets a timeout only for a significant change.  A callback
    sets at most two timeouts, each 1000 ms ahead, and none exactly when
    the URL is the remembered one and the batch is not significant. *)
Theorem url_change_is_acted_on_once
    (currentUrl href : string) (mutations mutations' : list MutationRecord) :
  let first := observerCallback currentUrl href mutations in
  let second := observerCallback (fst first) href mutations' in
  fst first = href
  /\ fst second = href
  /\ snd second = (if significantChange mutations' then [1000] else [])
  /\ (List.length (snd first) <= 2)%nat
  /\ Forall (fun delay => delay = 1000) (snd first)
  /\ (snd first = [] <-> href = currentUrl /\ significantChange mutations = false).
Proof.
  cbv zeta. unfold observerCallback. cbn [fst snd].
  assert (Hfst : (if negb (href =? currentUrl)%string then href else currentUrl) = href).
  { destruct (String.eqb_spec href currentUrl) as [->|Hne]; reflexivity. }
  rewrite Hfst, String.eqb_refl. cbn [negb app].
  split; [reflexivity|]. split; [reflexivity|]. split; [reflexivity|].
  destruct (String.eqb_spec href currentUrl) as [->|Hne];
    destruct (significantChange mutations); cbn [negb app List.length];
    (split; [lia|]); (split; [repeat constructor|]);
    split; try discriminate; try tauto; intros [H1 H2]; congruence.
Qed.

Lemma text_additions_not_significant (batch : list MutationRecord) :
  (forall m node, In m batch -> In node (addedNodes m) -> DOM.isElement node = false) ->
  significantChange batch = false.
Proof.
  intros H. unfold significantChange. rewrite fold_mutationStep. cbn [orb].
  match goal with |- ?b = false => destruct b eqn:E; [|reflexivity] end.
  apply existsb_exists in E as (m & Hm & E).
  destruct (mutationType m); try discriminate E.
  apply existsb_exists in E as (node & Hnode & E).
  rewrite (H m node Hm Hnode) in E. discriminate E.
Qed.

Lemma writeRecord_adds_text (k : nat) (s : string) (doc : Document)
      (m : MutationRecord) (node : Node) :
  In m (writeRecord k s doc) -> In node (addedNodes m) -> DOM.isElement node = false.
Proof.
  unfold writeRecord. destruct (DOM.getElementByUid k doc) as [el|]; [|intros []].
  destruct s; [destruct (DOM.childrenOf el)|]; intros Hm; try destruct Hm as [<-|[]];
    try destruct Hm; cbn [addedNodes]; intros Hn; try destruct Hn as [<-|[]];
    try destruct Hn; reflexivity.
Qed.

Lemma runRecords_add_text (evs : list Event) :
  forall (doc : Document) (m : MutationRecord) (node : Node),
    In m (runRecords evs doc) -> In node (addedNodes m) -> DOM.isElement node = false.
Proof.
  induction evs as [|e evs IH]; intros doc m node Hm Hn; [destruct Hm|].
  cbn [runRecords] in Hm. apply in_app_or in Hm as [Hm|Hm].
  - destruct e; try destruct Hm. eapply writeRecord_adds_text; eauto.
  - eapply IH; eauto.
Qed.

(** X9.  The script does not trigger itself: the mutations that its own
    badge writes cause add text nodes only, so the observer, handed any
    batch of them while the URL is unchanged, sets no timeout. *)
Theorem own_writes_do_not_retrigger
    (evs : list Event) (doc : Document) (batch : list MutationRecord) (url : string) :
  incl batch (runRecords evs doc) ->
  observerCallback url url batch = (url, []).
Proof.
  intros Hbatch. unfold observerCallback. rewrite String.eqb_refl. cbn [negb app].
  rewrite text_additions_not_significant; [reflexivity|].
  intros m node Hm Hn. exact (runRecords_add_text evs doc m node (Hbatch m Hm) Hn).
Qed.

(** The two badge writes of the sample run queue two records; the observer
    ignores them. *)
Lemma own_writes_do_not_retrigger_witness :
  List.length
    (runRecords (events (updateAllListCounts Sample.env 1700000000000 [0%nat; 1%nat]
                           constructor Sample.page)) Sample.doc) = 2%nat
  /\ observerCallback "https://k.example/dashboard/lists/abc123"
       "https://k.example/dashboard/lists/abc123"
       (runRecords (events (updateAllListCounts Sample.env 1700000000000 [0%nat; 1%nat]
                              constructor Sample.page)) Sample.doc)
     = ("https://k.example/dashboard/lists/abc123", []).
Proof.
  split; [reflexivity|].
  apply (own_writes_do_not_retrigger
           (events (updateAllListCounts Sample.env 1700000000000 [0%nat; 1%nat]
                      constructor Sample.page)) Sample.doc).
  intros m Hm. exact Hm.
Defined.

(* ===================================================================== *)
(** ** The message listener                                               *)
(* ===================================================================== *)

Lemma withDocument_same (p : Page) : withDocument p (document p) = p.
Proof. destruct p; reflexivity. Qed.

(** A call that is suppressed, or that finds the page not ready, leaves
    the world as it is. *)
Lemma fire_idle (t : Trigger) (env : Env) (now : Z) (order : list nat) (w : World) :
  now - lastUpdateTime (counter w) < updateCooldown (counter w)
  \/ pageReady (document (page w)) = false ->
  fire t env now order w = w.
Proof.
  intros H. unfold fire, updateAllListCounts. rewrite run_shape.
  assert (Hidle : gateOpen now (counter w) && pageReady (document (page w)) = false).
  { destruct H as [H|H]; [|rewrite H; apply andb_false_r].
    unfold gateOpen. apply Z.ltb_lt in H. now rewrite H. }
  rewrite Hidle. cbn [counterAfter documentAfter idleRun].
  rewrite withDocument_same. destruct w; reflexivity.
Qed.

(** X10.  The listener answers a [refreshCounts] request with the status
    "refreshed" in every case - also when the run it starts is suppressed
    by the cooldown or finds the page not ready and the world is left
    exactly as it was.  Any other request changes nothing and gets no
    answer.  The request that the popup sends is one that is answered. *)
Theorem refresh_is_acknowledged_even_when_idle
    (env : Env) (now : Z) (order : list nat) (request : Request) (w : World) :
  (action request = "refreshCounts" ->
     onMessage env now order request w
     = (fire RefreshMessage env now order w, Some "refreshed")
     /\ (now - lastUpdateTime (counter w) < updateCooldown (counter w)
         \/ pageReady (document (page w)) = false ->
         onMessage env now order request w = (w, Some "refreshed")))
  /\ (action request <> "refreshCounts" ->
      onMessage env now order request w = (w, None))
  /\ onMessage env now order Popup.request w
     = (fire RefreshMessage env now order w, Some "refreshed").
Proof.
  unfold onMessage. split; [|split; [|reflexivity]].
  - intros Ha. rewrite Ha, String.eqb_refl. split; [reflexivity|].
    intros H. now rewrite fire_idle.
  - intros H. apply String.eqb_neq in H. now rewrite H.
Qed.

(** A refresh two seconds after a run: acknowledged, nothing changed. *)
Lemma refresh_is_acknowledged_even_when_idle_witness :
  onMessage Sample.env 1700000002000 [0%nat; 1%nat] Popup.request
    {| counter := setLastUpdateTime 1700000000000 constructor; page := Sample.page |}
  = ({| counter := setLastUpdateTime 1700000000000 constructor; page := Sample.page |},
     Some "refreshed").
Proof.
  destruct (refresh_is_acknowledged_even_when_idle Sample.env 1700000002000 [0%nat; 1%nat]
              Popup.request
              {| counter := setLastUpdateTime 1700000000000 constructor;
                 page := Sample.page |}) as [H _].
  destruct (H eq_refl) as [_ Hidle]. apply Hidle. left. vm_compute. reflexivity.
Defined.

(* ===================================================================== *)
(** ** The popup                                                          *)
(* ===================================================================== *)

Lemma fireTimers_subset (now : Z) (p : Popup.State) (due : Z) :
  In due (Popup.timers (Popup.fireTimers now p)) -> In due (Popup.timers p).
Proof.
  unfold Popup.fireTimers.
  destruct (existsb (fun due => due <=? now) (Popup.timers p)); [|auto].
  cbn [Popup.timers]. intros H. now apply filter_In in H as [H _].
Qed.

Lemma clicks_timers_due (now : Z) (times : list Z) :
  forall p,
    (forall due, In due (Popup.timers p) -> due <= now) ->
    (forall t, In t times -> t + 1000 <= now) ->
    forall due, In due (Popup.timers (Popup.clicks times p)) -> due <= now.
Proof.
  induction times as [|t times IH]; intros p Hp Ht; [exact Hp|].
  unfold Popup.clicks. cbn [fold_left]. apply IH.
  - cbn [Popup.click fst Popup.timers]. intros due Hdue.
    apply in_app_or in Hdue as [Hdue|[<-|[]]].
    + apply Hp. eapply fireTimers_subset; eauto.
    + apply Ht. now left.
  - intros t' Ht'. apply Ht. now right.
Qed.

Lemma clicks_timers_pending (times : list Z) :
  forall p, times <> [] -> Popup.timers (Popup.clicks times p) <> [].
Proof.
  induction times as [|t times IH]; intros p Hne; [congruence|].
  unfold Popup.clicks. cbn [fold_left]. destruct times as [|t' times].
  - cbn [fold_left Popup.click fst Popup.timers].
    destruct (Popup.timers (Popup.fireTimers t p)); discriminate.
  - apply IH. discriminate.
Qed.

(** X12.  However often and in whatever rhythm the button is clicked,
    once a second has passed since the last click the button reads
    "Refresh Counts" again and no timeout is pending. *)
Theorem popup_returns_to_idle (times : list Z) (p : Popup.State) (now : Z) :
  times <> [] ->
  (forall t, In t times -> t + 1000 <= now) ->
  (forall due, In due (Popup.timers p) -> due <= now) ->
  Popup.fireTimers now (Popup.clicks times p)
  = {| Popup.buttonText := "Refresh Counts"; Popup.timers := [] |}.
Proof.
  intros Hne Ht Hp.
  pose proof (clicks_timers_due now times p Hp Ht) as Hdue.
  pose proof (clicks_timers_pending times p Hne) as Hpending.
  unfold Popup.fireTimers.
  destruct (Popup.timers (Popup.clicks times p)) as [|d ds] eqn:E; [congruence|].
  assert (Hall : forall x, In x (d :: ds) -> (x <=? now) = true)
    by (intros x Hx; apply Z.leb_le; now apply Hdue).
  cbn [existsb]. rewrite (Hall d (or_introl eq_refl)). cbn [orb]. f_equal.
  assert (Hnone : forall l, (forall x, In x l -> (x <=? now) = true) ->
                  List.filter (fun due => negb (due <=? now)) l = []).
  { induction l as [|x l IHl]; intros Hl; [reflexivity|].
    cbn [List.filter]. rewrite (Hl x (or_introl eq_refl)). cbn [negb].
    apply IHl. intros y Hy. apply Hl. now right. }
  now apply Hnone.
Qed.

Lemma popup_returns_to_idle_witness :
  Popup.fireTimers 2600 (Popup.clicks [0; 400; 1600] Scenario.idlePopup)
  = {| Popup.buttonText := "Refresh Counts"; Popup.timers := [] |}.
Proof.
  apply popup_returns_to_idle; [discriminate| |intros due []].
  intros t [<-|[<-|[<-|[]]]]; lia.
Defined.

(** X16.  The timeout of a click is not cancelled by the next click: when
    the button is clicked again less than a second after a click, it goes
    back to "Refresh Counts" one second after the first click, while the
    timeout of the second click is still pending. *)
Theorem popup_feedback_is_cut_short (p : Popup.State) (t1 t2 now : Z) :
  Popup.timers p = [] ->
  t1 < t2 -> t2 < t1 + 1000 -> t1 + 1000 <= now -> now < t2 + 1000 ->
  Popup.buttonText (fst (Popup.click t2 (fst (Popup.click t1 p)))) = "Refreshed!"
  /\ Popup.fireTimers now (fst (Popup.click t2 (fst (Popup.click t1 p))))
     = {| Popup.buttonText := "Refresh Counts"; Popup.timers := [t2 + 1000] |}.
Proof.
  intros Hp H12 H21 Hnow1 Hnow2. split; [reflexivity|].
  cbn [Popup.click fst]. unfold Popup.fireTimers at 3. rewrite Hp. cbn [existsb].
  rewrite Hp. cbn [app Popup.timers].
  unfold Popup.fireTimers at 2. cbn [Popup.timers existsb].
  assert (E1 : (t1 + 1000 <=? t2) = false) by (apply Z.leb_gt; lia).
  rewrite E1. cbn [orb app Popup.timers].
  unfold Popup.fireTimers. cbn [Popup.timers existsb List.filter].
  assert (E2 : (t1 + 1000 <=? now) = true) by (apply Z.leb_le; lia).
  assert (E3 : (t2 + 1000 <=? now) = false) by (apply Z.leb_gt; lia).
  rewrite E2, E3. reflexivity.
Qed.

Lemma popup_feedback_is_cut_short_witness :
  Popup.fireTimers 1000 (fst (Popup.click 700 (fst (Popup.click 0 Scenario.idlePopup))))
  = {| Popup.buttonText := "Refresh Counts"; Popup.timers := [1700] |}.
Proof.
  destruct (popup_feedback_is_cut_short Scenario.idlePopup 0 700 1000
              eq_refl ltac:(lia) ltac:(lia) ltac:(lia) ltac:(lia)) as [_ H].
  exact H.
Defined.

(* ===================================================================== *)
(** ** The settling order does not matter                                 *)
(* ===================================================================== *)

(** Writes to elements of different identity commute, wherever the
    elements sit. *)
Lemma setTextContent_comm (j k : nat) (s t : string) (n : Node) :
  j <> k ->
  DOM.setTextContent j s (DOM.setTextContent k t n)
  = DOM.setTextContent k t (DOM.setTextContent j s n).
Proof.
  intros Hjk. induction n as [d|u tag a cs IH] using Node_induction; [reflexivity|].
  cbn [DOM.setTextContent].
  destruct (u =? k)%nat eqn:Ek; destruct (u =? j)%nat eqn:Ej; cbn [DOM.setTextContent];
    rewrite ?Ek, ?Ej.
  - apply Nat.eqb_eq in Ek, Ej. congruence.
  - f_equal. now destruct t.
  - f_equal. now destruct s.
  - f_equal. rewrite !map_map. apply map_ext_in. intros c Hc.
    rewrite List.Forall_forall in IH. exact (IH c Hc).
Qed.

Lemma setTextContent_twice (k : nat) (s : string) (n : Node) :
  DOM.setTextContent k s (DOM.setTextContent k s n) = DOM.setTextContent k s n.
Proof.
  induction n as [d|u tag a cs IH] using Node_induction; [reflexivity|].
  cbn [DOM.setTextContent]. destruct (u =? k)%nat eqn:E; cbn [DOM.setTextContent];
    rewrite E; [reflexivity|].
  f_equal. rewrite map_map. apply map_ext_in. intros c Hc.
  rewrite List.Forall_forall in IH. exact (IH c Hc).
Qed.

Lemma applyEvent_comm (a b : Event) (doc : Document) :
  compatible a b ->
  applyEvent (applyEvent doc a) b = applyEvent (applyEvent doc b) a.
Proof.
  destruct a as [| | |url|k s]; destruct b as [| | |url'|k' s']; try reflexivity.
  cbn [compatible applyEvent]. intros H. unfold DOM.writeText. rewrite !map_map.
  apply map_ext. intros n. destruct (Nat.eq_dec k k') as [<-|Hne].
  - now rewrite (H eq_refl).
  - symmetry. now apply setTextContent_comm.
Qed.

(** Events that are pairwise compatible can be applied in any order. *)
Lemma applyEvents_permutation (l1 l2 : list Event) :
  Permutation l1 l2 ->
  (forall a b, In a l1 -> In b l1 -> compatible a b) ->
  forall doc, applyEvents l1 doc = applyEvents l2 doc.
Proof.
  unfold applyEvents. induction 1 as [|x l l' Hp IH|x y l|l l' l'' Hp1 IH1 Hp2 IH2];
    intros Hc doc.
  - reflexivity.
  - cbn [fold_left]. apply IH. intros a b Ha Hb. apply Hc; now right.
  - cbn [fold_left]. f_equal. symmetry. apply applyEvent_comm.
    apply Hc; [right; now left|now left].
  - rewrite IH1 by exact Hc. apply IH2. intros a b Ha Hb.
    apply Hc; eapply Permutation_in; try eassumption; now symmetry.
Qed.

Lemma NoDup_map_injective {A B : Type} (f : A -> B) (l : list A) (x y : A) :
  List.NoDup (map f l) -> In x l -> In y l -> f x = f y -> x = y.
Proof.
  induction l as [|z l IH]; [intros _ []|].
  cbn [map]. intros Hnd Hx Hy Hf. apply List.NoDup_cons_iff in Hnd as [Hz Hnd].
  destruct Hx as [->|Hx]; destruct Hy as [->|Hy]; auto.
  - exfalso. apply Hz. rewrite Hf. now apply in_map.
  - exfalso. apply Hz. rewrite <- Hf. now apply in_map.
Qed.

Lemma writeBack_single (info : ListInfo) (resolved : Completion (option Z)) (a b : Event) :
  In a (writeBack info resolved) -> In b (writeBack info resolved) -> a = b.
Proof.
  unfold writeBack. destruct resolved as [[n|]|e|]; try (intros []).
  destruct (negb (n =? currentCount info)); [|intros []].
  intros [<-|[]] [<-|[]]. reflexivity.
Qed.

(** X11.  When no two scanned lists share a badge, the outcome of a run
    does not depend on the order in which its updates settle: any two
    orders in which every update settles once leave the same document and
    the same counter, having done the same things. *)
Theorem settling_order_does_not_matter
    (env : Env) (now : Z) (order1 order2 : list nat) (c : Counter) (p : Page) :
  List.NoDup (map countBadge (findAllListLinks (document p))) ->
  completeOrder (List.length (findAllListLinks (document p))) order1 ->
  completeOrder (List.length (findAllListLinks (document p))) order2 ->
  documentAfter (updateAllListCounts env now order1 c p)
  = documentAfter (updateAllListCounts env now order2 c p)
  /\ counterAfter (updateAllListCounts env now order1 c p)
     = counterAfter (updateAllListCounts env now order2 c p)
  /\ Permutation (events (updateAllListCounts env now order1 c p))
                 (events (updateAllListCounts env now order2 c p)).
Proof.
  intros Hnd H1 H2. unfold updateAllListCounts. rewrite !run_shape.
  destruct (gateOpen now c && pageReady (document p)); [|repeat split; reflexivity].
  cbv zeta. cbn [documentAfter counterAfter events].
  set (pending := startUpdates (getUnarchivedCountForList env p)
                               (findAllListLinks (document p))).
  assert (Hperm : Permutation (flat_map (writesAt pending) order1)
                              (flat_map (writesAt pending) order2)).
  { apply Permutation_flat_map. unfold completeOrder in *.
    etransitivity; [exact H1|now symmetry]. }
  split; [|split; [reflexivity|]].
  - apply applyEvents_permutation; [exact Hperm|].
    intros a b Ha Hb.
    apply writesAt_from in Ha as (ia & Hia & Ha).
    apply writesAt_from in Hb as (ib & Hib & Hb).
    destruct (writeBack_only_writes _ _ _ Ha) as (k & s & ->).
    destruct (writeBack_only_writes _ _ _ Hb) as (k' & s' & ->).
    cbn [compatible]. intros ->.
    pose proof (proj1 (writeBack_target _ _ _ _ Ha)) as Hka.
    pose proof (proj1 (writeBack_target _ _ _ _ Hb)) as Hkb.
    assert (Heq : ia = ib)
      by (apply (NoDup_map_injective countBadge _ _ _ Hnd Hia Hib); congruence).
    subst ib. pose proof (writeBack_single _ _ _ _ Ha Hb) as E. now injection E.
  - apply Permutation_app_head. apply Permutation_app_head. exact Hperm.
Qed.

(** On the sample page it makes no difference whether "Reading" or "Later"
    is written first. *)
Lemma settling_order_does_not_matter_witness :
  documentAfter (updateAllListCounts Sample.env 1700000000000 [0%nat; 1%nat]
                   constructor Sample.page)
  = documentAfter (updateAllListCounts Sample.env 1700000000000 [1%nat; 0%nat]
                     constructor Sample.page).
Proof.
  assert (Hnd : List.NoDup (map countBadge (findAllListLinks (document Sample.page)))).
  { vm_compute. constructor; [intros [H|[]]; discriminate H|].
    constructor; [intros []|constructor]. }
  assert (H1 : completeOrder (List.length (findAllListLinks (document Sample.page)))
                             [0%nat; 1%nat]) by (vm_compute; reflexivity).
  assert (H2 : completeOrder (List.length (findAllListLinks (document Sample.page)))
                             [1%nat; 0%nat]) by (apply perm_swap).
  exact (proj1 (settling_order_does_not_matter Sample.env 1700000000000
                  [0%nat; 1%nat] [1%nat; 0%nat] constructor Sample.page Hnd H1 H2)).
Defined.

(* ===================================================================== *)
(** ** The scan after a write                                             *)
(* ===================================================================== *)

Lemma map_of_flat_map {A B C : Type} (f : B -> C) (g : A -> list B) (l : list A) :
  map f (flat_map g l) = flat_map (fun x => map f (g x)) l.
Proof.
  induction l as [|x l IH]; [reflexivity|].
  cbn [flat_map]. now rewrite map_app, IH.
Qed.

Lemma flat_map_of_map {A B C : Type} (f : A -> B) (g : B -> list C) (l : list A) :
  flat_map g (map f l) = flat_map (fun x => g (f x)) l.
Proof.
  induction l as [|x l IH]; [reflexivity|].
  cbn [map flat_map]. now rewrite IH.
Qed.

Lemma flat_map_ext_In {A B : Type} (f g : A -> list B) (l : list A) :
  (forall x, In x l -> f x = g x) -> flat_map f l = flat_map g l.
Proof.
  induction l as [|x l IH]; intros H; [reflexivity|].
  cbn [flat_map]. rewrite (H x (or_introl eq_refl)). f_equal.
  apply IH. intros y Hy. apply H. now right.
Qed.

Lemma filter_of_map {A B : Type} (f : B -> bool) (g : A -> B) (l : list A) :
  List.filter f (map g l) = map g (List.filter (fun x => f (g x)) l).
Proof.
  induction l as [|x l IH]; [reflexivity|].
  cbn [map List.filter]. destruct (f (g x)); cbn [map]; now rewrite IH.
Qed.

Lemma find_ext_all {A : Type} (f g : A -> bool) (l : list A) :
  (forall x, f x = g x) -> find f l = find g l.
Proof.
  intros H. induction l as [|x l IH]; [reflexivity|].
  cbn [find]. now rewrite H, IH.
Qed.

Lemma filter_ext_all {A : Type} (f g : A -> bool) (l : list A) :
  (forall x, f x = g x) -> List.filter f l = List.filter g l.
Proof.
  intros H. induction l as [|x l IH]; [reflexivity|].
  cbn [List.filter]. now rewrite H, IH.
Qed.

Lemma textOnly_descendants (n : Node) : textOnly n = true -> DOM.descendants n = [].
Proof.
  unfold textOnly, DOM.descendants. induction (DOM.childrenOf n) as [|c cs IH]; [reflexivity|].
  cbn [forallb flat_map]. intros H. apply andb_prop in H as [Hc Hcs].
  destruct c as [d|u t a cs']; [|discriminate]. cbn [DOM.elementsOf app]. now apply IH.
Qed.

Lemma textOnly_locate (anc : list Node) (n : Node) :
  textOnly n = true -> flat_map (DOM.locate anc) (DOM.childrenOf n) = [].
Proof.
  unfold textOnly. induction (DOM.childrenOf n) as [|c cs IH]; [reflexivity|].
  cbn [forallb flat_map]. intros H. apply andb_prop in H as [Hc Hcs].
  destruct c as [d|u t a cs']; [|discriminate]. cbn [DOM.locate app]. now apply IH.
Qed.

Lemma textOnly_inside (k : nat) (n : Node) :
  textOnly n = true -> inside k n = DOM.hasUid k n.
Proof.
  intros H. destruct n as [d|u t a cs]; [reflexivity|].
  unfold inside. cbn [DOM.elementsOf existsb].
  change (flat_map DOM.elementsOf cs) with (DOM.descendants (Element u t a cs)).
  rewrite (textOnly_descendants _ H). cbn [existsb]. apply orb_false_r.
Qed.

Lemma leafAt_child (k u : nat) (t : string) (a : list (string * string))
      (cs : list Node) (c : Node) :
  leafAt k (Element u t a cs) -> In c cs -> leafAt k c.
Proof.
  intros H Hc e He. apply H. cbn [DOM.elementsOf]. right.
  apply in_flat_map. eauto.
Qed.

Lemma leafIn_element (k : nat) (doc : Document) (e : Node) :
  leafIn k doc -> In e (DOM.docElements doc) -> leafAt k e.
Proof.
  intros H He e' He'. apply H. unfold DOM.docElements in *.
  apply in_flat_map in He as (x & Hx & He). apply in_flat_map.
  exists x. split; [exact Hx|]. eapply elementsOf_trans; eauto.
Qed.

Lemma leafIn_root (k : nat) (doc : Document) (x : Node) :
  leafIn k doc -> In x doc -> leafAt k x.
Proof.
  intros H Hx e He. apply H. unfold DOM.docElements. apply in_flat_map. eauto.
Qed.

Section Write.

Variables (k : nat) (s : string).

Lemma matches_setTextContent (sel : DOM.Selector) (e : Node) :
  DOM.matches sel ((DOM.setTextContent k s) e) = DOM.matches sel e.
Proof.
  destruct e as [d|u t a cs]; [reflexivity|].
  cbn [DOM.setTextContent]. now destruct (u =? k)%nat.
Qed.

Lemma getAttribute_setTextContent (name : string) (e : Node) :
  DOM.getAttribute name ((DOM.setTextContent k s) e) = DOM.getAttribute name e.
Proof.
  destruct e as [d|u t a cs]; [reflexivity|].
  cbn [DOM.setTextContent]. now destruct (u =? k)%nat.
Qed.

Lemma uidOrZero_setTextContent (e : Node) : uidOrZero ((DOM.setTextContent k s) e) = uidOrZero e.
Proof. unfold uidOrZero. now rewrite uidOf_setTextContent. Qed.

Lemma textOnly_setTextContent (e : Node) :
  textOnly e = true -> textOnly ((DOM.setTextContent k s) e) = true.
Proof.
  destruct e as [d|u t a cs]; [reflexivity|].
  cbn [DOM.setTextContent]. destruct (u =? k)%nat; [now destruct s|].
  unfold textOnly. cbn [DOM.childrenOf].
  induction cs as [|c cs IH]; [reflexivity|].
  cbn [map forallb]. intros H. apply andb_prop in H as [Hc Hcs].
  destruct c as [d|u' t' a' cs']; [|discriminate]. cbn. now apply IH.
Qed.

Lemma elementsOf_setTextContent (n : Node) :
  leafAt k n -> DOM.elementsOf ((DOM.setTextContent k s) n) = map (DOM.setTextContent k s) (DOM.elementsOf n).
Proof.
  induction n as [d|u t a cs IH] using Node_induction; intros Hleaf; [reflexivity|].
  cbn [DOM.elementsOf map]. cbn [DOM.setTextContent]. destruct (u =? k)%nat eqn:E.
  - assert (Ht : textOnly (Element u t a cs) = true).
    { apply Hleaf; [now left|]. unfold DOM.hasUid. cbn. exact E. }
    change (flat_map DOM.elementsOf cs) with (DOM.descendants (Element u t a cs)).
    rewrite (textOnly_descendants _ Ht). cbn [map DOM.elementsOf]. f_equal.
    now destruct s.
  - cbn [DOM.elementsOf]. f_equal. rewrite flat_map_of_map, map_of_flat_map.
    apply flat_map_ext_In. intros c Hc. rewrite List.Forall_forall in IH.
    apply IH; [exact Hc|]. eapply leafAt_child; eauto.
Qed.

Lemma locate_setTextContent (n : Node) :
  forall anc, leafAt k n ->
    DOM.locate (map (DOM.setTextContent k s) anc) ((DOM.setTextContent k s) n) = map (moved k s) (DOM.locate anc n).
Proof.
  induction n as [d|u t a cs IH] using Node_induction; intros anc Hleaf; [reflexivity|].
  cbn [DOM.locate map]. unfold moved at 1. cbn [fst snd].
  cbn [DOM.setTextContent]. destruct (u =? k)%nat eqn:E.
  - assert (Ht : textOnly (Element u t a cs) = true).
    { apply Hleaf; [now left|]. unfold DOM.hasUid. cbn. exact E. }
    pose proof (textOnly_locate (Element u t a cs :: anc) _ Ht) as Hl.
    cbn [DOM.childrenOf] in Hl. rewrite Hl. cbn [map DOM.locate]. f_equal.
    now destruct s.
  - cbn [DOM.locate]. f_equal. rewrite flat_map_of_map, map_of_flat_map.
    apply flat_map_ext_In. intros c Hc. rewrite List.Forall_forall in IH.
    specialize (IH c Hc (Element u t a cs :: anc) (leafAt_child _ _ _ _ _ _ Hleaf Hc)).
    cbn [map DOM.setTextContent] in IH. rewrite E in IH. exact IH.
Qed.

Lemma descendants_setTextContent (e : Node) :
  leafAt k e -> DOM.descendants ((DOM.setTextContent k s) e) = map (DOM.setTextContent k s) (DOM.descendants e).
Proof.
  intros Hleaf. pose proof (elementsOf_setTextContent e Hleaf) as H.
  destruct e as [d|u t a cs]; [reflexivity|].
  unfold DOM.descendants. cbn [DOM.setTextContent] in *.
  destruct (u =? k)%nat; cbn [DOM.elementsOf DOM.childrenOf map] in *;
    now injection H.
Qed.

Lemma locatedDescendants_moved (l : DOM.Located) :
  leafAt k (fst l) ->
  DOM.locatedDescendants (moved k s l) = map (moved k s) (DOM.locatedDescendants l).
Proof.
  destruct l as [e anc]. cbn [fst]. intros Hleaf.
  pose proof (locate_setTextContent e anc Hleaf) as H.
  destruct e as [d|u t a cs]; [reflexivity|].
  unfold DOM.locatedDescendants, moved. cbn [fst snd].
  cbn [DOM.locate map] in H. unfold moved at 1 in H. cbn [fst snd] in H.
  cbn [DOM.setTextContent] in *.
  destruct (u =? k)%nat; cbn [DOM.locate DOM.childrenOf] in *;
    now injection H.
Qed.

Lemma docElements_writeText (doc : Document) :
  leafIn k doc ->
  DOM.docElements (DOM.writeText k s doc) = map (DOM.setTextContent k s) (DOM.docElements doc).
Proof.
  intros Hleaf. unfold DOM.docElements, DOM.writeText.
  rewrite flat_map_of_map, map_of_flat_map. apply flat_map_ext_In.
  intros x Hx. apply elementsOf_setTextContent. eapply leafIn_root; eauto.
Qed.

Lemma docLocated_writeText (doc : Document) :
  leafIn k doc ->
  DOM.docLocated (DOM.writeText k s doc) = map (moved k s) (DOM.docLocated doc).
Proof.
  intros Hleaf. unfold DOM.docLocated, DOM.writeText.
  rewrite flat_map_of_map, map_of_flat_map. apply flat_map_ext_In.
  intros x Hx. apply (locate_setTextContent x []). eapply leafIn_root; eauto.
Qed.

Lemma docQuerySelector_writeText (sel : DOM.Selector) (doc : Document) :
  leafIn k doc ->
  DOM.docQuerySelector sel (DOM.writeText k s doc)
  = option_map (DOM.setTextContent k s) (DOM.docQuerySelector sel doc).
Proof.
  intros Hleaf. unfold DOM.docQuerySelector.
  rewrite (docElements_writeText _ Hleaf), find_map. f_equal.
  apply find_ext_all. intros x. apply matches_setTextContent.
Qed.

Lemma docQuerySelectorLocated_writeText (sel : DOM.Selector) (doc : Document) :
  leafIn k doc ->
  DOM.docQuerySelectorLocated sel (DOM.writeText k s doc)
  = option_map (moved k s) (DOM.docQuerySelectorLocated sel doc).
Proof.
  intros Hleaf. unfold DOM.docQuerySelectorLocated.
  rewrite (docLocated_writeText _ Hleaf), find_map. f_equal.
  apply find_ext_all. intros x. apply matches_setTextContent.
Qed.

Lemma sidebarLinks_writeText (doc : Document) :
  leafIn k doc ->
  sidebarLinks (DOM.writeText k s doc) = map (moved k s) (sidebarLinks doc).
Proof.
  intros Hleaf. unfold sidebarLinks.
  rewrite (docQuerySelectorLocated_writeText _ _ Hleaf).
  destruct (DOM.docQuerySelectorLocated asideSelector doc) as [sidebar|] eqn:E;
    [|reflexivity].
  cbn [option_map]. unfold DOM.querySelectorAllLocated.
  rewrite locatedDescendants_moved.
  - rewrite filter_of_map. f_equal. apply filter_ext_all. intros x.
    apply matches_setTextContent.
  - unfold DOM.docQuerySelectorLocated in E. apply find_In_pred in E as [Hin _].
    apply (leafIn_element k doc); [exact Hleaf|].
    eapply docLocated_attached; [exact Hin|now left].
Qed.

Lemma closest_moved (sel : DOM.Selector) (l : DOM.Located) :
  DOM.closest sel (moved k s l) = option_map (DOM.setTextContent k s) (DOM.closest sel l).
Proof.
  unfold DOM.closest, moved. cbn [fst snd].
  change ((DOM.setTextContent k s) (fst l) :: map (DOM.setTextContent k s) (snd l)) with (map (DOM.setTextContent k s) (fst l :: snd l)).
  rewrite find_map. f_equal. apply find_ext_all. intros x. apply matches_setTextContent.
Qed.

Lemma querySelector_setTextContent (sel : DOM.Selector) (e : Node) :
  leafAt k e -> DOM.querySelector sel ((DOM.setTextContent k s) e) = option_map (DOM.setTextContent k s) (DOM.querySelector sel e).
Proof.
  intros Hleaf. unfold DOM.querySelector.
  rewrite (descendants_setTextContent _ Hleaf), find_map. f_equal.
  apply find_ext_all. intros x. apply matches_setTextContent.
Qed.

Lemma badgeOf_moved (doc : Document) (l : DOM.Located) :
  leafIn k doc -> In l (DOM.docLocated doc) ->
  badgeOf (moved k s l) = option_map (DOM.setTextContent k s) (badgeOf l).
Proof.
  intros Hleaf Hl. unfold badgeOf. rewrite closest_moved.
  destruct (DOM.closest liSelector l) as [li|] eqn:E; [|reflexivity].
  cbn [option_map]. apply querySelector_setTextContent.
  apply (leafIn_element k doc); [exact Hleaf|].
  unfold DOM.closest in E. apply find_In_pred in E as [Hin _].
  eapply docLocated_attached; eauto.
Qed.

(** The scan of one link after the write. *)
Lemma scanLink_moved (doc : Document) (l : DOM.Located) :
  leafIn k doc ->
  In l (DOM.docLocated doc) ->
  inside k (fst l) = false ->
  (forall info badge, scanLink l = Some info -> badgeOf l = Some badge ->
                      textOnly badge = true) ->
  scanLink (moved k s l) = option_map (rescanned k s) (scanLink l).
Proof.
  intros Hleaf Hl Hlink Hbadge.
  assert (Hsame : (DOM.setTextContent k s) (fst l) = fst l) by now apply setTextContent_outside.
  destruct (DOM.getAttribute "href" (fst l)) as [href|] eqn:Eh.
  - assert (Eh' : DOM.getAttribute "href" (fst (moved k s l)) = Some href).
    { unfold moved. cbn [fst]. now rewrite getAttribute_setTextContent. }
    rewrite (scanLink_eq _ _ Eh'), (scanLink_eq _ _ Eh).
    rewrite (badgeOf_moved doc l Hleaf Hl).
    destruct (listIdOf href) as [[|c id]|] eqn:El; try reflexivity;
      try (now destruct (badgeOf l)).
    destruct (badgeOf l) as [badge|] eqn:Eb; [|reflexivity].
    cbn [option_map]. f_equal. unfold describe, rescanned, moved.
    cbn [fst countBadge]. rewrite Hsame, uidOrZero_setTextContent.
    assert (Ht : textOnly badge = true).
    { eapply Hbadge; [|reflexivity]. rewrite (scanLink_eq _ _ Eh), El, Eb.
      reflexivity. }
    destruct (badgeOf_attached doc l badge Hl Eb) as [_ Hm].
    destruct (matches_element _ _ Hm) as [u Hu].
    assert (Hub : uidOrZero badge = u) by (unfold uidOrZero; now rewrite Hu).
    rewrite Hub. clear Hub. destruct (u =? k)%nat eqn:E.
    + apply Nat.eqb_eq in E. subst u.
      rewrite (textContent_after_set k s badge Hu). reflexivity.
    + rewrite setTextContent_outside; [reflexivity|].
      rewrite (textOnly_inside _ _ Ht). unfold DOM.hasUid. now rewrite Hu.
  - unfold scanLink at 2. rewrite Eh. unfold scanLink, moved. cbn [fst].
    now rewrite getAttribute_setTextContent, Eh.
Qed.

(** The scan after one write to a text-only badge that lies in no link. *)
Lemma scan_after_write (doc : Document) :
  leafIn k doc ->
  (forall l, In l (sidebarLinks doc) -> inside k (fst l) = false) ->
  (forall l info badge, In l (sidebarLinks doc) -> scanLink l = Some info ->
                        badgeOf l = Some badge -> textOnly badge = true) ->
  findAllListLinks (DOM.writeText k s doc) = map (rescanned k s) (findAllListLinks doc).
Proof.
  intros Hleaf Hlinks Hbadges.
  rewrite !findAllListLinks_flat_map, (sidebarLinks_writeText _ Hleaf).
  rewrite flat_map_of_map, map_of_flat_map. apply flat_map_ext_In. intros l Hl.
  unfold descriptorsOf.
  rewrite (scanLink_moved doc l Hleaf (sidebarLinks_located _ _ Hl) (Hlinks l Hl)
             (fun info badge Hs Hb => Hbadges l info badge Hl Hs Hb)).
  now destruct (scanLink l).
Qed.

End Write.

(* ===================================================================== *)
(** ** The scan after a run                                               *)
(* ===================================================================== *)

Lemma plainBadgesb_sound (doc : Document) :
  plainBadgesb doc = true -> plainBadges doc.
Proof.
  unfold plainBadgesb, plainBadges. rewrite forallb_forall. intros H info Hinfo.
  specialize (H info Hinfo). apply andb_prop in H as [Hleaf Hlinks].
  rewrite forallb_forall in Hleaf. rewrite forallb_forall in Hlinks.
  split.
  - intros e He Hu. specialize (Hleaf e He). now rewrite Hu in Hleaf.
  - intros l Hl. specialize (Hlinks l Hl). now apply negb_true_iff in Hlinks.
Qed.

Lemma badgesOutsideMainb_sound (doc : Document) :
  badgesOutsideMainb doc = true -> badgesOutsideMain doc.
Proof.
  unfold badgesOutsideMainb, badgesOutsideMain. intros H info main Hinfo Hm.
  rewrite Hm in H. rewrite forallb_forall in H. specialize (H info Hinfo).
  now apply negb_true_iff in H.
Qed.

Lemma countBadge_rescanned (k : nat) (s : string) (info : ListInfo) :
  countBadge (rescanned k s info) = countBadge info.
Proof. unfold rescanned. now destruct (countBadge info =? k)%nat. Qed.

Lemma scanned_in (doc : Document) (l : DOM.Located) (info : ListInfo) :
  In l (sidebarLinks doc) -> scanLink l = Some info -> In info (findAllListLinks doc).
Proof.
  intros Hl Hs. rewrite findAllListLinks_flat_map. apply in_flat_map.
  exists l. split; [exact Hl|]. unfold descriptorsOf. rewrite Hs. now left.
Qed.

Lemma plain_badge_textOnly (doc : Document) (l : DOM.Located) (info : ListInfo)
      (badge : Node) :
  plainBadges doc -> In l (sidebarLinks doc) -> scanLink l = Some info ->
  badgeOf l = Some badge -> textOnly badge = true.
Proof.
  intros Hplain Hl Hs Hb.
  destruct (Hplain info (scanned_in _ _ _ Hl Hs)) as [Hleaf _].
  destruct (badgeOf_attached doc l badge (sidebarLinks_located _ _ Hl) Hb) as [Hin Hm].
  apply Hleaf; [exact Hin|].
  apply scanLink_Some in Hs as (href & badge' & _ & _ & _ & Hb' & Hinfo).
  rewrite Hb in Hb'. injection Hb' as <-.
  destruct (matches_element _ _ Hm) as [u Hu].
  rewrite Hinfo. cbn [countBadge]. unfold uidOrZero, DOM.hasUid. rewrite Hu.
  apply Nat.eqb_refl.
Qed.

(** One write into a scanned badge of a page with plain badges. *)
Lemma plain_scan_after_write (doc : Document) (k : nat) (s : string) :
  plainBadges doc ->
  (exists info, In info (findAllListLinks doc) /\ countBadge info = k) ->
  findAllListLinks (DOM.writeText k s doc) = map (rescanned k s) (findAllListLinks doc)
  /\ plainBadges (DOM.writeText k s doc)
  /\ (badgesOutsideMain doc ->
      badgesOutsideMain (DOM.writeText k s doc)
      /\ DOM.docQuerySelector mainSelector (DOM.writeText k s doc)
         = DOM.docQuerySelector mainSelector doc).
Proof.
  intros Hplain (infok & Hink & <-).
  destruct (Hplain infok Hink) as (Hleaf & Hlinks).
  assert (Hscan : findAllListLinks (DOM.writeText (countBadge infok) s doc)
                  = map (rescanned (countBadge infok) s) (findAllListLinks doc)).
  { apply scan_after_write; [exact Hleaf|exact Hlinks|].
    intros l info badge Hl Hs Hb. exact (plain_badge_textOnly doc l info badge Hplain Hl Hs Hb). }
  split; [exact Hscan|]. split.
  - intros info' Hin'. rewrite Hscan in Hin'. apply in_map_iff in Hin' as (i & <- & Hi).
    rewrite countBadge_rescanned. destruct (Hplain i Hi) as (Hleafi & Hlinksi).
    split.
    + intros e' He' Hu'. rewrite (docElements_writeText _ _ _ Hleaf) in He'.
      apply in_map_iff in He' as (e & <- & He). rewrite hasUid_setTextContent in Hu'.
      apply textOnly_setTextContent. now apply Hleafi.
    + intros l' Hl'. rewrite (sidebarLinks_writeText _ _ _ Hleaf) in Hl'.
      apply in_map_iff in Hl' as (l & <- & Hl). unfold moved. cbn [fst].
      rewrite (setTextContent_outside _ _ _ (Hlinks l Hl)). now apply Hlinksi.
  - intros Hout.
    assert (Hm : DOM.docQuerySelector mainSelector (DOM.writeText (countBadge infok) s doc)
                 = DOM.docQuerySelector mainSelector doc).
    { rewrite (docQuerySelector_writeText _ _ _ _ Hleaf).
      destruct (DOM.docQuerySelector mainSelector doc) as [main|] eqn:E; [|reflexivity].
      cbn [option_map]. f_equal. apply setTextContent_outside.
      exact (Hout infok main Hink E). }
    split; [|exact Hm].
    intros info' main Hin'. rewrite Hm. rewrite Hscan in Hin'.
    apply in_map_iff in Hin' as (i & <- & Hi). rewrite countBadge_rescanned.
    now apply Hout.
Qed.

(** A sequence of writes into scanned badges. *)
Lemma scan_after_events (ws : list Event) :
  forall doc,
    plainBadges doc ->
    (forall k s, In (EvWrite k s) ws ->
                 exists info, In info (findAllListLinks doc) /\ countBadge info = k) ->
    findAllListLinks (applyEvents ws doc) = map (rescannedAfter ws) (findAllListLinks doc)
    /\ (badgesOutsideMain doc ->
        DOM.docQuerySelector mainSelector (applyEvents ws doc)
        = DOM.docQuerySelector mainSelector doc).
Proof.
  induction ws as [|e ws IH]; intros doc Hplain Hws.
  - cbn. split; [|reflexivity]. now rewrite map_id.
  - assert (Hrest : forall k s, In (EvWrite k s) ws -> In (EvWrite k s) (e :: ws))
      by (intros; now right).
    unfold applyEvents, rescannedAfter. cbn [fold_left].
    fold (applyEvents ws (applyEvent doc e)).
    destruct e as [| | |url|k s]; cbn [applyEvent];
      try (exact (IH doc Hplain (fun k' s' Hin => Hws k' s' (or_intror Hin)))).
    destruct (plain_scan_after_write doc k s Hplain (Hws k s (or_introl eq_refl)))
      as (Hscan & Hplain' & Hmain).
    destruct (IH (DOM.writeText k s doc) Hplain') as [IHscan IHmain].
    { intros k' s' Hin. destruct (Hws k' s' (or_intror Hin)) as (info & Hinfo & Hk).
      exists (rescanned k s info). rewrite Hscan, countBadge_rescanned.
      split; [now apply in_map|exact Hk]. }
    rewrite IHscan, Hscan, map_map. split.
    + apply map_ext. intros i. reflexivity.
    + intros Hout. destruct (Hmain Hout) as [Hout' Hm]. now rewrite (IHmain Hout').
Qed.

Lemma setCurrentCount_same (info : ListInfo) :
  setCurrentCount (currentCount info) info = info.
Proof. now destruct info. Qed.

(** What the writes of a sequence of events leave in the descriptor of a
    list, when every write into its badge parses to [v]. *)
Lemma rescannedAfter_spec (ws : list Event) (v : Z) :
  forall info,
    (forall k s, In (EvWrite k s) ws -> k = countBadge info ->
                 JS.orZero (JS.parseInt (JS.trim s)) = v) ->
    rescannedAfter ws info
    = if existsb (isWriteTo (countBadge info)) ws then setCurrentCount v info else info.
Proof.
  induction ws as [|e ws IH]; intros info Hv; [reflexivity|].
  unfold rescannedAfter. cbn [fold_left existsb].
  assert (Hrest : forall i, countBadge i = countBadge info ->
            forall k s, In (EvWrite k s) ws -> k = countBadge i ->
                        JS.orZero (JS.parseInt (JS.trim s)) = v).
  { intros i Hi k s Hin Hk. apply (Hv k s); [now right|congruence]. }
  destruct e as [| | |url|k s]; cbn [isWriteTo orb];
    try (exact (IH info (Hrest info eq_refl))).
  unfold rescanned. rewrite (Nat.eqb_sym k (countBadge info)).
  destruct (countBadge info =? k)%nat eqn:E; cbn [orb].
  - apply Nat.eqb_eq in E.
    rewrite (Hv k s (or_introl eq_refl) (eq_sym E)).
    change (rescannedAfter ws (setCurrentCount v info) = setCurrentCount v info).
    rewrite (IH (setCurrentCount v info) (Hrest _ eq_refl)).
    cbn [countBadge setCurrentCount].
    now destruct (existsb (isWriteTo (countBadge info)) ws).
  - exact (IH info (Hrest info eq_refl)).
Qed.

Lemma existsb_isWriteTo (k : nat) (ws : list Event) :
  existsb (isWriteTo k) ws = true <-> exists s, In (EvWrite k s) ws.
Proof.
  rewrite existsb_exists. split.
  - intros (e & He & Hk). destruct e as [| | |url|j s]; try discriminate.
    cbn [isWriteTo] in Hk. apply Nat.eqb_eq in Hk. subst j. eauto.
  - intros (s & Hs). exists (EvWrite k s). split; [exact Hs|]. apply Nat.eqb_refl.
Qed.

(** The document that a run leaves, as the next scan reads it. *)
Lemma run_rescanned (env : Env) (now : Z) (order : list nat) (c : Counter) (p : Page) :
  updateCooldown c <= now - lastUpdateTime c ->
  completeOrder (List.length (findAllListLinks (document p))) order ->
  List.NoDup (map countBadge (findAllListLinks (document p))) ->
  plainBadges (document p) ->
  let after := documentAfter (updateAllListCounts env now order c p) in
  findAllListLinks after
  = map (fun info => shown (getUnarchivedCountForList env p (listId info)) info)
        (findAllListLinks (document p))
  /\ (badgesOutsideMain (document p) ->
      DOM.docQuerySelector mainSelector after
      = DOM.docQuerySelector mainSelector (document p)).
Proof.
  intros Hopen Horder Hnd Hplain after. subst after.
  destruct (pageReady (document p)) eqn:Hready.
  2:{ unfold updateAllListCounts. rewrite run_shape, Hready, andb_false_r.
      cbn [documentAfter idleRun]. split; [|reflexivity].
      assert (Hnil : findAllListLinks (document p) = []).
      { unfold pageReady in Hready. rewrite docQuerySelector_located in Hready.
        unfold findAllListLinks in *.
        destruct (DOM.docQuerySelectorLocated asideSelector (document p)); [|reflexivity].
        cbn [option_map isSome andb] in Hready. apply negb_false_iff in Hready.
        apply Nat.eqb_eq in Hready. now apply length_zero_iff_nil. }
      now rewrite Hnil. }
  unfold updateAllListCounts. rewrite (ready_run _ _ _ _ _ _ Hopen Hready).
  destruct (reconcile_spec (getUnarchivedCountForList env p) (resolutionEvents p)
              now order c (document p) _ Horder) as (ws & Hperm & _ & -> & _).
  set (resolve := getUnarchivedCountForList env p) in *.
  assert (Hfrom : forall k s, In (EvWrite k s) ws ->
            exists info, In info (findAllListLinks (document p))
                         /\ countBadge info = k
                         /\ exists n, resolve (listId info) = Fulfilled (Some n)
                                      /\ n <> currentCount info /\ s = JS.toString n).
  { intros k s Hw. apply (Permutation_in _ Hperm) in Hw.
    apply in_flat_map in Hw as (info & Hinfo & Hw).
    apply writeBack_target in Hw as (-> & n & Hn & Hne & ->).
    exists info. split; [exact Hinfo|]. split; [reflexivity|]. eauto. }
  destruct (scan_after_events ws (document p) Hplain) as [Hscan Hmain].
  { intros k s Hw. destruct (Hfrom k s Hw) as (info & Hinfo & Hk & _). eauto. }
  split; [|exact Hmain]. rewrite Hscan. apply map_ext_in. intros i Hi.
  assert (Hown : forall k s, In (EvWrite k s) ws -> k = countBadge i ->
            exists n, resolve (listId i) = Fulfilled (Some n)
                      /\ n <> currentCount i /\ s = JS.toString n).
  { intros k s Hw Hk. destruct (Hfrom k s Hw) as (info & Hinfo & Hk' & Hn).
    assert (info = i)
      by (apply (NoDup_map_injective countBadge _ _ _ Hnd Hinfo Hi); congruence).
    now subst info. }
  destruct (resolve (listId i)) as [[n|]|e|] eqn:Eres; cbn [shown].
  - assert (Hn : 0 <= n) by exact (resolved_nonneg env p (listId i) n Eres).
    rewrite (rescannedAfter_spec ws n).
    + destruct (existsb (isWriteTo (countBadge i)) ws) eqn:Ex; [reflexivity|].
      destruct (Z.eq_dec n (currentCount i)) as [->|Hne];
        [now rewrite setCurrentCount_same|].
      assert (Hin : In (EvWrite (countBadge i) (JS.toString n)) ws).
      { apply (Permutation_in (l:=flat_map (fun info => writeBack info (resolve (listId info)))
                                          (findAllListLinks (document p))));
          [now symmetry|].
        apply in_flat_map. exists i. split; [exact Hi|]. rewrite Eres.
        unfold writeBack. apply Z.eqb_neq in Hne. rewrite Hne. now left. }
      assert (Ht : existsb (isWriteTo (countBadge i)) ws = true)
        by (apply existsb_isWriteTo; eauto).
      congruence.
    + intros k s Hw Hk. destruct (Hown k s Hw Hk) as (n' & [= <-] & _ & ->).
      now rewrite (parseInt_toString n Hn).
  - rewrite (rescannedAfter_spec ws 0).
    + destruct (existsb (isWriteTo (countBadge i)) ws) eqn:Ex; [|reflexivity].
      apply existsb_isWriteTo in Ex as (s & Hs).
      destruct (Hown _ s Hs eq_refl) as (n' & Hn' & _). discriminate Hn'.
    + intros k s Hw Hk. destruct (Hown k s Hw Hk) as (n' & Hn' & _). discriminate Hn'.
  - rewrite (rescannedAfter_spec ws 0).
    + destruct (existsb (isWriteTo (countBadge i)) ws) eqn:Ex; [|reflexivity].
      apply existsb_isWriteTo in Ex as (s & Hs).
      destruct (Hown _ s Hs eq_refl) as (n' & Hn' & _). discriminate Hn'.
    + intros k s Hw Hk. destruct (Hown k s Hw Hk) as (n' & Hn' & _). discriminate Hn'.
  - rewrite (rescannedAfter_spec ws 0).
    + destruct (existsb (isWriteTo (countBadge i)) ws) eqn:Ex; [|reflexivity].
      apply existsb_isWriteTo in Ex as (s & Hs).
      destruct (Hown _ s Hs eq_refl) as (n' & Hn' & _). discriminate Hn'.
    + intros k s Hw Hk. destruct (Hown k s Hw Hk) as (n' & Hn' & _). discriminate Hn'.
Qed.

(** A run in which no update has anything to write. *)
Lemma run_without_writes (resolve : string -> Completion (option Z))
      (resolveEvents : string -> list Event) (now : Z) (order : list nat)
      (c : Counter) (doc : Document) :
  (forall info, In info (findAllListLinks doc) ->
                writeBack info (resolve (listId info)) = []) ->
  documentAfter (updateAllListCountsWith resolve resolveEvents now order c doc) = doc
  /\ forall e, In e (events (updateAllListCountsWith resolve resolveEvents now order c doc)) ->
               In e ([EvQuerySidebar; EvScan]
                     ++ flat_map (fun info => resolveEvents (listId info))
                                 (findAllListLinks doc)).
Proof.
  intros Hnone. rewrite run_shape.
  destruct (gateOpen now c && pageReady doc).
  - cbn [documentAfter events].
    assert (Hw : flat_map (writesAt (startUpdates resolve (findAllListLinks doc))) order = []).
    { destruct (flat_map _ order) as [|e l] eqn:E; [reflexivity|].
      assert (He : In e (e :: l)) by now left. rewrite <- E in He.
      apply writesAt_from in He as (info & Hinfo & He).
      rewrite (Hnone info Hinfo) in He. destruct He. }
    rewrite Hw, app_nil_r. split; [reflexivity|]. intros e He. apply in_app_or in He.
    apply in_or_app. exact He.
  - cbn [documentAfter events idleRun]. split; [reflexivity|]. intros e He.
    apply in_or_app. left. destruct (gateOpen now c); [|destruct He].
    destruct (isSome (DOM.docQuerySelector asideSelector doc)); [exact He|].
    destruct He as [<-|[]]. now left.
Qed.

(** X17.  After a run that passes the gate and in which every update has
    its turn, on a page whose scanned badges are pairwise distinct
    elements that hold text only and lie in no list link, the next scan
    finds the same lists with the same links and badges, and reads as the
    displayed count of every list whose count resolved to an integer that
    very integer; the descriptor of a list whose count resolved to [null],
    or whose resolution never settled, is as before. *)
Theorem next_scan_shows_resolved_counts
    (env : Env) (now : Z) (order : list nat) (c : Counter) (p : Page) :
  updateCooldown c <= now - lastUpdateTime c ->
  completeOrder (List.length (findAllListLinks (document p))) order ->
  List.NoDup (map countBadge (findAllListLinks (document p))) ->
  plainBadges (document p) ->
  findAllListLinks (documentAfter (updateAllListCounts env now order c p))
  = map (fun info => shown (getUnarchivedCountForList env p (listId info)) info)
        (findAllListLinks (document p)).
Proof.
  intros Hopen Horder Hnd Hplain.
  exact (proj1 (run_rescanned env now order c p Hopen Horder Hnd Hplain)).
Qed.

(** After the sample run the scan reads 1 for "Reading" and 5 for
    "Later". *)
Lemma next_scan_shows_resolved_counts_witness :
  map currentCount
      (findAllListLinks
         (documentAfter (updateAllListCounts Sample.env 1700000000000 [1%nat; 0%nat]
                           constructor Sample.page)))
  = [1; 5].
Proof.
  assert (Hopen : updateCooldown constructor <= 1700000000000 - lastUpdateTime constructor)
    by (vm_compute; discriminate).
  assert (Horder : completeOrder (List.length (findAllListLinks (document Sample.page)))
                                 [1%nat; 0%nat]) by (apply perm_swap).
  assert (Hnd : List.NoDup (map countBadge (findAllListLinks (document Sample.page)))).
  { vm_compute. constructor; [intros [H|[]]; discriminate H|].
    constructor; [intros []|constructor]. }
  assert (Hplain : plainBadges (document Sample.page))
    by (apply plainBadgesb_sound; vm_compute; reflexivity).
  rewrite (next_scan_shows_resolved_counts Sample.env 1700000000000 [1%nat; 0%nat]
             constructor Sample.page Hopen Horder Hnd Hplain).
  reflexivity.
Defined.

(** X18.  Reconciliation reaches a fixed point: after such a run, on a
    page whose badges moreover lie outside the main region, a further run
    on the resulting page against the same network - at any later time, on
    any counter, in any settling order - writes nothing and leaves the
    document as it is. *)
Theorem second_run_changes_nothing
    (env : Env) (now : Z) (order : list nat) (c : Counter) (p : Page) :
  updateCooldown c <= now - lastUpdateTime c ->
  completeOrder (List.length (findAllListLinks (document p))) order ->
  List.NoDup (map countBadge (findAllListLinks (document p))) ->
  plainBadges (document p) ->
  badgesOutsideMain (document p) ->
  let p' := withDocument p (documentAfter (updateAllListCounts env now order c p)) in
  forall (now' : Z) (order' : list nat) (c' : Counter),
    documentAfter (updateAllListCounts env now' order' c' p') = document p'
    /\ forall k s, ~ In (EvWrite k s) (events (updateAllListCounts env now' order' c' p')).
Proof.
  intros Hopen Horder Hnd Hplain Hout p' now' order' c'.
  destruct (run_rescanned env now order c p Hopen Horder Hnd Hplain) as [Hscan Hmain].
  specialize (Hmain Hout).
  assert (Hres : forall id, getUnarchivedCountForList env p' id
                            = getUnarchivedCountForList env p id).
  { intros id. unfold getUnarchivedCountForList, isCurrentList, countVisibleBookmarks.
    subst p'. cbn [withDocument pathname document getComputedStyle]. now rewrite Hmain. }
  assert (Hnone : forall info, In info (findAllListLinks (document p')) ->
            writeBack info (getUnarchivedCountForList env p' (listId info)) = []).
  { intros info Hinfo. subst p'. cbn [withDocument document] in Hinfo.
    rewrite Hscan in Hinfo. apply in_map_iff in Hinfo as (i & <- & Hi).
    rewrite Hres.
    destruct (getUnarchivedCountForList env p (listId i)) as [[n|]|e|] eqn:E;
      cbn [shown]; cbn [listId setCurrentCount]; rewrite E; cbn [writeBack];
      try reflexivity.
    cbn [currentCount]. now rewrite Z.eqb_refl. }
  destruct (run_without_writes (getUnarchivedCountForList env p') (resolutionEvents p')
              now' order' c' (document p') Hnone) as [Hdoc Hev].
  split; [exact Hdoc|]. intros k s Hin. apply Hev in Hin.
  apply in_app_or in Hin as [[H|[H|[]]]|Hin]; try discriminate.
  apply in_flat_map in Hin as (info & _ & Hin).
  exact (resolutionEvents_no_write _ _ _ _ Hin).
Qed.

(** A run on the page that the sample run has left, twenty seconds
    later, changes nothing. *)
Lemma second_run_changes_nothing_witness :
  let p' := withDocument Sample.page
              (documentAfter (updateAllListCounts Sample.env 1700000000000 [1%nat; 0%nat]
                                constructor Sample.page)) in
  documentAfter (updateAllListCounts Sample.env 1700000020000 [0%nat; 1%nat] constructor p')
  = document p'.
Proof.
  assert (Hopen : updateCooldown constructor <= 1700000000000 - lastUpdateTime constructor)
    by (vm_compute; discriminate).
  assert (Horder : completeOrder (List.length (findAllListLinks (document Sample.page)))
                                 [1%nat; 0%nat]) by (apply perm_swap).
  assert (Hnd : List.NoDup (map countBadge (findAllListLinks (document Sample.page)))).
  { vm_compute. constructor; [intros [H|[]]; discriminate H|].
    constructor; [intros []|constructor]. }
  assert (Hplain : plainBadges (document Sample.page))
    by (apply plainBadgesb_sound; vm_compute; reflexivity).
  assert (Hout : badgesOutsideMain (document Sample.page))
    by (apply badgesOutsideMainb_sound; vm_compute; reflexivity).
  exact (proj1 (second_run_changes_nothing Sample.env 1700000000000 [1%nat; 0%nat]
                  constructor Sample.page Hopen Horder Hnd Hplain Hout
                  1700000020000 [0%nat; 1%nat] constructor)).
Defined.
